(** * TransactionBuilder (src/transaction_builder.js): a shallow embedding

    The builder is a JavaScript object whose fields are mutated in place
    and whose failures are exceptions raised by [assert].  A call is
    modelled as a function from the builder before the call to the pair
    of its outcome and the builder after the call, so that what a failed
    call has already written stays visible.

    Everything the file obtains through [require] (scripts, ECPubKey,
    ECSignature, Script, Transaction, the key objects handed to [sign])
    is a collaborator: its operations are the fields of the class
    [Collaborators] below and every statement holds for all
    implementations of it.  *)

From Stdlib Require Import ZArith Lia.
From Stdlib Require Import Strings.Byte Strings.Ascii.
From stdpp Require Import base option list strings gmap pretty.

Local Open Scope string_scope.
Local Open Scope Z_scope.

(** ** Buffers, scripts, script kinds *)

Abbreviation Buffer := (list byte).

#[global] Instance byte_eq_dec : EqDecision byte := Byte.byte_eq_dec.

(** A script chunk is an opcode number or a pushed buffer. *)
Inductive chunk :=
| Op (n : N)
| Push (data : Buffer).

#[global] Instance chunk_eq_dec : EqDecision chunk.
Proof. solve_decision. Defined.

(** [new Script(buffer, chunks)] *)
Record Script := mkScript { buffer : Buffer; chunks : list chunk }.

#[global] Instance Script_eq_dec : EqDecision Script.
Proof. solve_decision. Defined.

(** The strings returned by [scripts.classifyInput] and
    [scripts.classifyOutput]: the closed set of kinds the specification
    gives for the classifier (section 6). *)
Inductive script_type := pubkeyhash | pubkey | multisig | scripthash | nonstandard.

#[global] Instance script_type_eq_dec : EqDecision script_type.
Proof. solve_decision. Defined.

(** ** Failures

    One constructor per [assert] of the file, named after its message,
    plus the two ways a call can fail outside an [assert]: reading a
    property of [undefined], and an exception inside a collaborator. *)
Inductive error :=
| TypeError
| CollaboratorError
| coinbase_inputs_not_supported
| non_matching_scriptSig_and_scriptPubKey
| inputs_not_supported (t : script_type)
| prevOutScript_not_supported_nonstandard
| this_would_invalidate_signatures
| transaction_is_already_an_input
| transaction_has_no_inputs
| transaction_has_no_outputs
| transaction_has_no_signatures
| transaction_is_missing_signatures
| not_supported (t : script_type)
| no_input_at_index (i : nat)
| prevOutScript_must_be_P2SH
| redeemScript_cant_be_P2SH
| redeemScript_not_supported_nonstandard
| prevOutScript_is_P2SH_missing_redeemScript
| doesnt_support_multiple_signatures (t : script_type)
| inconsistent_hashType
| inconsistent_redeemScript
| signature_already_exists
| privateKey_cannot_sign_for_this_input.

Inductive result (A : Type) :=
| Ok (a : A)
| Err (e : error).
Arguments Ok {A} a.
Arguments Err {A} e.

Definition bind {A B} (r : result A) (k : A -> result B) : result B :=
  match r with
  | Ok a => k a
  | Err e => Err e
  end.

Notation "x <- r ;; k" := (bind r (fun x => k))
  (at level 100, r at next level, right associativity).

(** [assert(c, msg)] *)
Definition assert (c : bool) (e : error) : result unit :=
  if c then Ok tt else Err e.

(** The outcome of a collaborator that may throw. *)
Definition calling {A} (o : option A) : result A :=
  match o with
  | Some a => Ok a
  | None => Err CollaboratorError
  end.

(** Reading a property of a value that may be [undefined]. *)
Definition deref {A} (o : option A) : result A :=
  match o with
  | Some a => Ok a
  | None => Err TypeError
  end.

Fixpoint mapM {A B} (f : A -> result B) (l : list A) : result (list B) :=
  match l with
  | [] => Ok []
  | a :: l' => b <- f a ;; bs <- mapM f l' ;; Ok (b :: bs)
  end.

(** The error kinds of section 7 of the specification.  The source raises
    AssertionError everywhere; [kind_of] sorts its messages the way the
    specification words the kinds.  The two failures outside an [assert]
    have no kind. *)
Inductive error_kind :=
  Precondition | StateConflict | UnsupportedScript | Authorization | Incomplete.

Definition kind_of (e : error) : option error_kind :=
  match e with
  | TypeError | CollaboratorError => None
  | no_input_at_index _ => Some Precondition
  | prevOutScript_is_P2SH_missing_redeemScript => Some Precondition
  | this_would_invalidate_signatures
  | transaction_is_already_an_input
  | doesnt_support_multiple_signatures _
  | inconsistent_hashType
  | inconsistent_redeemScript
  | signature_already_exists => Some StateConflict
  | coinbase_inputs_not_supported
  | non_matching_scriptSig_and_scriptPubKey
  | inputs_not_supported _
  | not_supported _
  | prevOutScript_not_supported_nonstandard
  | prevOutScript_must_be_P2SH
  | redeemScript_cant_be_P2SH
  | redeemScript_not_supported_nonstandard => Some UnsupportedScript
  | privateKey_cannot_sign_for_this_input => Some Authorization
  | transaction_has_no_inputs
  | transaction_has_no_outputs
  | transaction_has_no_signatures
  | transaction_is_missing_signatures => Some Incomplete
  end.

(** ** JavaScript arrays

    An array may have holes: [a[5] = x] on an empty array leaves the
    indices 0..4 without an element, and [every], [some], [forEach],
    [map] and [filter] skip them while [length] counts them.  [None] is a
    hole. *)
Abbreviation jsarray A := (list (option A)).

(** [a[i]]: a hole and an index past the end both read as [undefined]. *)
Definition array_get {A} (a : jsarray A) (i : nat) : option A :=
  mjoin (a !! i).

(** [a[i] = x] *)
Definition array_set {A} (a : jsarray A) (i : nat) (x : A) : jsarray A :=
  if decide (i < length a)%nat
  then <[i := Some x]> a
  else a ++ replicate (i - length a) None ++ [Some x].

(** [a.slice(1, -2)], [a.slice(0, -1)], [a.slice(-1)[0]], [a.slice(1)] on
    arrays without holes. *)
Definition slice_1_m2 {A} (l : list A) : list A := take (length l - 2 - 1) (drop 1 l).
Definition slice_0_m1 {A} (l : list A) : list A := take (length l - 1) l.
Definition slice_m1_0 {A} (l : list A) : option A := last l.
Definition slice_1 {A} (l : list A) : list A := drop 1 l.

(** ** Transaction skeleton *)

Record TxIn := mkTxIn {
  in_hash : Buffer;
  in_index : nat;
  in_script : Script;
  in_sequence : Z
}.

Record TxOut := mkTxOut {
  out_script : Script;
  out_value : Z
}.

Record Transaction := mkTransaction {
  ins : list TxIn;
  outs : list TxOut
}.

Definition Script_EMPTY : Script := mkScript [] [].

(** [buffer.toString('hex')]: two lower-case digits per byte. *)
Definition hex_digit (n : N) : Ascii.ascii :=
  match n with
  | 0%N => "0" | 1%N => "1" | 2%N => "2" | 3%N => "3"
  | 4%N => "4" | 5%N => "5" | 6%N => "6" | 7%N => "7"
  | 8%N => "8" | 9%N => "9" | 10%N => "a" | 11%N => "b"
  | 12%N => "c" | 13%N => "d" | 14%N => "e" | _ => "f"
  end%char.

Definition hex_of_byte (x : byte) : string :=
  let n := Byte.to_N x in
  String (hex_digit (n / 16)) (String (hex_digit (n mod 16)) EmptyString).

Definition toString_hex (b : Buffer) : string :=
  foldr (fun x s => hex_of_byte x +:+ s) "" b.

(** [Array.prototype.every.call(hash, function(x) { return x === 0 })] *)
Definition all_zero (hash : Buffer) : bool :=
  forallb (fun x => bool_decide (x = x00)) hash.

(** ** Collaborators

    What the file calls but does not define.  A function that can throw
    returns [option]; an argument that the file may pass as [undefined]
    (the element of an array read past its end) is an [option]. *)
Class Collaborators := {
  (** key objects: [privKey.pub], [a.Q.equals(b.Q)], [privKey.sign(hash)],
      [pub.getAddress().toOutputScript()], [ECPubKey.fromBuffer] *)
  PrivKey : Type;
  PubKey : Type;
  Signature : Type;
  Digest : Type;
  pub : PrivKey -> PubKey;
  Q_equals : PubKey -> PubKey -> bool;
  ECKey_sign : PrivKey -> Digest -> Signature;
  address_toOutputScript : PubKey -> Script;
  ECPubKey_fromBuffer : option chunk -> option PubKey;
  (** [ECSignature.parseScriptSignature], [signature.toScriptSignature] *)
  parseScriptSignature : option chunk -> option (Signature * Z);
  toScriptSignature : Signature -> Z -> option Buffer;
  (** [Script.fromBuffer], [Script.fromChunks], [script.getHash] *)
  Script_fromBuffer : option chunk -> option Script;
  Script_fromChunks : list chunk -> Script;
  Script_getHash : Script -> Buffer;
  (** [scripts.*] *)
  classifyInput : Script -> script_type;
  classifyOutput : Script -> script_type;
  scriptHashOutput : Buffer -> Script;
  pubKeyHashInput : option Buffer -> option PubKey -> option Script;
  pubKeyInput : option Buffer -> option Script;
  multisigInput : list Buffer -> option Script -> option Script;
  scriptHashInput : Script -> Script -> option Script;
  (** [Transaction.SIGHASH_*], the default sequence number of
      [tx.addInput], [tx.getHash], [tx.hashForSignature] *)
  SIGHASH_ALL : Z;
  SIGHASH_SINGLE : Z;
  SIGHASH_ANYONECANPAY : Z;
  DEFAULT_SEQUENCE : Z;
  Transaction_getHash : Transaction -> Buffer;
  hashForSignature : Transaction -> nat -> Script -> Z -> option Digest;
  (** [new Buffer(string, 'hex')] *)
  Buffer_fromHex : string -> option Buffer
}.

Section Builder.
Context `{C : Collaborators}.

(** Modelled from the spec: the methods [addInput], [addOutput], [clone]
    and [setInputScript] of the Transaction container, whose file is not
    part of the sources at hand ("ordered input/output storage,
    snapshotting, and in-place script installation on an input").
    [addInput] and [addOutput] append and return the position of the new
    element; a new input carries the empty script; a copy of an immutable
    value is the value; installing a script at a position without an
    input reads a property of [undefined]. *)
Definition Transaction_addInput (t : Transaction) (hash : Buffer) (index : nat)
    (sequence : option Z) : nat * Transaction :=
  (length (ins t),
   mkTransaction
     (ins t ++ [mkTxIn hash index Script_EMPTY (default DEFAULT_SEQUENCE sequence)])
     (outs t)).

Definition Transaction_addOutput (t : Transaction) (scriptPubKey : Script) (value : Z)
    : nat * Transaction :=
  (length (outs t), mkTransaction (ins t) (outs t ++ [mkTxOut scriptPubKey value])).

Definition Transaction_clone (t : Transaction) : Transaction := t.

(** [this.ins[index].script = script] *)
Definition Transaction_setInputScript (t : Transaction) (index : nat) (s : Script)
    : result Transaction :=
  i <- deref (ins t !! index) ;;
  Ok (mkTransaction
        (<[index := mkTxIn (in_hash i) (in_index i) s (in_sequence i)]> (ins t))
        (outs t)).

(** ** Signing metadata and builder state *)

(** The object stored in [this.signatures[index]]. *)
Record input := mkInput {
  hashType : Z;
  pubKeys : list PubKey;
  redeemScript : option Script;
  scriptType : script_type;
  signatures : jsarray Signature
}.

(** [this.signatures] holds objects and, after [fromTransaction], the
    value [undefined] as an element: [Some None] is such an element,
    [None] a hole.  The objects [prevOutScripts] and [prevOutTypes] are
    keyed by input position and may hold [undefined] as a value. *)
Record TransactionBuilder := mkBuilder {
  prevOutMap : gmap string bool;
  prevOutScripts : gmap nat (option Script);
  prevOutTypes : gmap nat (option script_type);
  txb_signatures : jsarray (option input);
  tx : Transaction
}.

(** [new TransactionBuilder()] *)
Definition new_TransactionBuilder : TransactionBuilder :=
  mkBuilder ∅ ∅ ∅ [] (mkTransaction [] []).

(** [this.signatures[index]], [this.prevOutScripts[index]],
    [this.prevOutTypes[index]] *)
Definition signatures_at (b : TransactionBuilder) (index : nat) : option input :=
  mjoin (array_get (txb_signatures b) index).

Definition prevOutScript_at (b : TransactionBuilder) (index : nat) : option Script :=
  mjoin (prevOutScripts b !! index).

Definition prevOutType_at (b : TransactionBuilder) (index : nat) : option script_type :=
  mjoin (prevOutTypes b !! index).

(** ** extractSignature (lines 18-82) *)

Definition extractSignature (txIn : TxIn) : result input :=
  _ <- assert (negb (all_zero (in_hash txIn))) coinbase_inputs_not_supported ;;
  let scriptSig := in_script txIn in
  let scriptType := classifyInput scriptSig in
  (* Re-classify if P2SH *)
  r <- (if decide (scriptType = scripthash) then
          redeemScript <- calling (Script_fromBuffer (slice_m1_0 (chunks scriptSig))) ;;
          let scriptSig := Script_fromChunks (slice_0_m1 (chunks scriptSig)) in
          let scriptType := classifyInput scriptSig in
          _ <- assert (bool_decide (classifyOutput redeemScript = scriptType))
                 non_matching_scriptSig_and_scriptPubKey ;;
          Ok (Some redeemScript, scriptSig, scriptType)
        else Ok (None, scriptSig, scriptType)) ;;
  let '(redeemScript, scriptSig, scriptType) := r in
  (* Extract hashType, pubKeys and signatures *)
  match scriptType with
  | pubkeyhash =>
      parsed <- calling (parseScriptSignature (chunks scriptSig !! 0%nat)) ;;
      pubKey <- calling (ECPubKey_fromBuffer (chunks scriptSig !! 1%nat)) ;;
      Ok (mkInput (snd parsed) [pubKey] redeemScript scriptType [Some (fst parsed)])
  | pubkey =>
      parsed <- calling (parseScriptSignature (chunks scriptSig !! 0%nat)) ;;
      pubKeys <- match redeemScript with
                 | Some rs =>
                     pubKey <- calling (ECPubKey_fromBuffer (chunks rs !! 0%nat)) ;;
                     Ok [pubKey]
                 | None => Ok []
                 end ;;
      Ok (mkInput (snd parsed) pubKeys redeemScript scriptType [Some (fst parsed)])
  | multisig =>
      parsed <- mapM (fun c => calling (parseScriptSignature (Some c)))
                  (slice_1 (chunks scriptSig)) ;;
      first <- deref (parsed !! 0%nat) ;;
      pubKeys <- match redeemScript with
                 | Some rs =>
                     mapM (fun c => calling (ECPubKey_fromBuffer (Some c)))
                       (slice_1_m2 (chunks rs))
                 | None => Ok []
                 end ;;
      Ok (mkInput (snd first) pubKeys redeemScript scriptType
            (map (fun p => Some (fst p)) parsed))
  | _ => Err (inputs_not_supported scriptType)
  end.

(** ** addInput (lines 115-153), addOutput (lines 155-161) *)

(** The three shapes of the first argument of [addInput]. *)
Inductive reference :=
| TxId (hex : string)
| PrevTransaction (prevTx : Transaction)
| PrevOutHash (hash : Buffer).

(** Lines 116-131: the previous-output hash, and the locking script when
    the argument is a whole transaction. *)
Definition resolve_prevTx (prevTx : reference) (index : nat) (prevOutScript : option Script)
    : result (Buffer * option Script) :=
  match prevTx with
  | TxId hex =>
      prevOutHash <- calling (Buffer_fromHex hex) ;;
      Ok (reverse prevOutHash, prevOutScript)
  | PrevTransaction prevTx =>
      out <- deref (outs prevTx !! index) ;;
      Ok (Transaction_getHash prevTx, Some (out_script out))
  | PrevOutHash hash => Ok (hash, prevOutScript)
  end.

(** [this.signatures.every(f)], where [f] reads [input.hashType]: holes
    are skipped, an element that is [undefined] makes the callback throw,
    and the walk stops at the first element that fails [f]. *)
Fixpoint every (f : input -> bool) (a : jsarray (option input)) : result bool :=
  match a with
  | [] => Ok true
  | None :: a' => every f a'
  | Some None :: _ => Err TypeError
  | Some (Some i) :: a' => if f i then every f a' else Ok false
  end.

(** [input.hashType & Transaction.SIGHASH_ANYONECANPAY] as a condition *)
Definition anyone_can_pay (i : input) : bool :=
  negb (Z.land (hashType i) SIGHASH_ANYONECANPAY =? 0).

(** [(signature.hashType & 0x1f) === Transaction.SIGHASH_SINGLE] *)
Definition sighash_single (i : input) : bool :=
  Z.land (hashType i) 31 =? SIGHASH_SINGLE.

(** [prevOutHash.toString('hex') + ':' + index].  The key always
    contains a colon, so [prevOut in this.prevOutMap] never finds a
    property inherited from Object.prototype: it is a lookup. *)
Definition prevOut_key (prevOutHash : Buffer) (index : nat) : string :=
  toString_hex prevOutHash +:+ ":" +:+ pretty index.

(** Lines 116-145: everything [addInput] does before it writes. *)
Definition addInput_checks (prevTx : reference) (index : nat) (prevOutScript : option Script)
    (b : TransactionBuilder) : result (Buffer * option Script * option script_type * string) :=
  r <- resolve_prevTx prevTx index prevOutScript ;;
  let '(prevOutHash, prevOutScript) := r in
  prevOutType <- match prevOutScript with
                 | Some s =>
                     let prevOutType := classifyOutput s in
                     _ <- assert (negb (bool_decide (prevOutType = nonstandard)))
                            prevOutScript_not_supported_nonstandard ;;
                     Ok (Some prevOutType)
                 | None => Ok None
                 end ;;
  ok <- every anyone_can_pay (txb_signatures b) ;;
  _ <- assert ok this_would_invalidate_signatures ;;
  let prevOut := prevOut_key prevOutHash index in
  _ <- assert (negb (bool_decide (is_Some (prevOutMap b !! prevOut))))
         transaction_is_already_an_input ;;
  Ok (prevOutHash, prevOutScript, prevOutType, prevOut).

Definition addInput (prevTx : reference) (index : nat) (sequence : option Z)
    (prevOutScript : option Script) (b : TransactionBuilder)
    : result nat * TransactionBuilder :=
  match addInput_checks prevTx index prevOutScript b with
  | Err e => (Err e, b)
  | Ok (prevOutHash, prevOutScript, prevOutType, prevOut) =>
      let '(vout, tx') := Transaction_addInput (tx b) prevOutHash index sequence in
      (Ok vout,
       mkBuilder (<[prevOut := true]> (prevOutMap b))
                 (<[vout := prevOutScript]> (prevOutScripts b))
                 (<[vout := prevOutType]> (prevOutTypes b))
                 (txb_signatures b)
                 tx')
  end.

Definition addOutput (scriptPubKey : Script) (value : Z) (b : TransactionBuilder)
    : result nat * TransactionBuilder :=
  match (ok <- every sighash_single (txb_signatures b) ;;
         assert ok this_would_invalidate_signatures) with
  | Err e => (Err e, b)
  | Ok _ =>
      let '(vout, tx') := Transaction_addOutput (tx b) scriptPubKey value in
      (Ok vout,
       mkBuilder (prevOutMap b) (prevOutScripts b) (prevOutTypes b) (txb_signatures b) tx')
  end.

(** ** fromTransaction (lines 85-112) *)

(** [forEach] over a list with a callback that may throw, on a builder
    local to the caller. *)
Fixpoint forEach {A B} (f : A -> TransactionBuilder -> result B * TransactionBuilder)
    (l : list A) (b : TransactionBuilder) : result TransactionBuilder :=
  match l with
  | [] => Ok b
  | a :: l' =>
      match f a b with
      | (Ok _, b') => forEach f l' b'
      | (Err e, _) => Err e
      end
  end.

(** The callback of lines 99-109. *)
Definition import_signature (txIn : TxIn) : result (option input) :=
  _ <- assert (negb (all_zero (in_hash txIn))) coinbase_inputs_not_supported ;;
  if (length (buffer (in_script txIn)) =? 0)%nat then Ok None
  else i <- extractSignature txIn ;; Ok (Some i).

Definition fromTransaction (transaction : Transaction) : result TransactionBuilder :=
  txb <- forEach (fun txIn => addInput (PrevOutHash (in_hash txIn)) (in_index txIn)
                                (Some (in_sequence txIn)) None)
           (ins transaction) new_TransactionBuilder ;;
  txb <- forEach (fun txOut => addOutput (out_script txOut) (out_value txOut))
           (outs transaction) txb ;;
  sigs <- mapM import_signature (ins transaction) ;;
  Ok (mkBuilder (prevOutMap txb) (prevOutScripts txb) (prevOutTypes txb)
        (map Some sigs) (tx txb)).

(** ** build, buildIncomplete, __build (lines 163-222) *)

(** The body of the [forEach] callback up to [tx.setInputScript]: the
    unlocking script of one input.  [map] and [filter] skip the holes of
    [input.signatures]. *)
Definition build_scriptSig (allowIncomplete : bool) (i : input) : result Script :=
  sigs <- mapM (fun s => calling (toScriptSignature s (hashType i)))
            (omap id (signatures i)) ;;
  scriptSig <- match scriptType i with
               | pubkeyhash => calling (pubKeyHashInput (sigs !! 0%nat) (pubKeys i !! 0%nat))
               | multisig =>
                   calling (multisigInput sigs
                              (if allowIncomplete then None else redeemScript i))
               | pubkey => calling (pubKeyInput (sigs !! 0%nat))
               | t => Err (not_supported t)
               end ;;
  match redeemScript i with
  | Some rs => calling (scriptHashInput scriptSig rs)
  | None => Ok scriptSig
  end.

(** [this.signatures.forEach(function(input, index) ...)] from position
    [index] on. *)
Fixpoint build_forEach (allowIncomplete : bool) (a : jsarray (option input)) (index : nat)
    (t : Transaction) : result Transaction :=
  match a with
  | [] => Ok t
  | None :: a' => build_forEach allowIncomplete a' (S index) t
  | Some o :: a' =>
      i <- deref o ;;
      scriptSig <- build_scriptSig allowIncomplete i ;;
      t' <- Transaction_setInputScript t index scriptSig ;;
      build_forEach allowIncomplete a' (S index) t'
  end.

Definition __build (allowIncomplete : bool) (b : TransactionBuilder) : result Transaction :=
  _ <- (if allowIncomplete then Ok tt
        else
          _ <- assert (0 <? length (ins (tx b)))%nat transaction_has_no_inputs ;;
          _ <- assert (0 <? length (outs (tx b)))%nat transaction_has_no_outputs ;;
          _ <- assert (0 <? length (txb_signatures b))%nat transaction_has_no_signatures ;;
          assert (length (txb_signatures b) =? length (ins (tx b)))%nat
            transaction_is_missing_signatures) ;;
  build_forEach allowIncomplete (txb_signatures b) 0 (Transaction_clone (tx b)).

Definition build (b : TransactionBuilder) : result Transaction := __build false b.
Definition buildIncomplete (b : TransactionBuilder) : result Transaction := __build true b.

(** ** sign (lines 224-294) *)

(** [hashType || Transaction.SIGHASH_ALL] *)
Definition hashType_or_ALL (hashType : option Z) : Z :=
  match hashType with
  | Some h => if h =? 0 then SIGHASH_ALL else h
  | None => SIGHASH_ALL
  end.

(** Lines 228-254: the locking script and kind to cache, the kind to
    sign for, and the digest.  Nothing is written. *)
Definition sign_resolve (index : nat) (privKey : PrivKey) (redeemScript : option Script)
    (hashType : Z) (b : TransactionBuilder)
    : result (Script * script_type * script_type * Digest) :=
  let prevOutScript := prevOutScript_at b index in
  let prevOutType := prevOutType_at b index in
  match redeemScript with
  | Some redeemScript =>
      let prevOutScript :=
        default (scriptHashOutput (Script_getHash redeemScript)) prevOutScript in
      let prevOutType := default scripthash prevOutType in
      _ <- assert (bool_decide (prevOutType = scripthash)) prevOutScript_must_be_P2SH ;;
      let scriptType := classifyOutput redeemScript in
      _ <- assert (negb (bool_decide (scriptType = scripthash))) redeemScript_cant_be_P2SH ;;
      _ <- assert (negb (bool_decide (scriptType = nonstandard)))
             redeemScript_not_supported_nonstandard ;;
      hash <- calling (hashForSignature (tx b) index redeemScript hashType) ;;
      Ok (prevOutScript, prevOutType, scriptType, hash)
  | None =>
      let prevOutScript := default (address_toOutputScript (pub privKey)) prevOutScript in
      let prevOutType := default pubkeyhash prevOutType in
      _ <- assert (negb (bool_decide (prevOutType = scripthash)))
             prevOutScript_is_P2SH_missing_redeemScript ;;
      let scriptType := prevOutType in
      hash <- calling (hashForSignature (tx b) index prevOutScript hashType) ;;
      Ok (prevOutScript, prevOutType, scriptType, hash)
  end.

(** Lines 258-273: the object created when the index has no metadata. *)
Definition new_input (privKey : PrivKey) (redeemScript : option Script) (hashType : Z)
    (scriptType : script_type) : result input :=
  pubKeys <- match redeemScript, scriptType with
             | Some rs, multisig =>
                 mapM (fun c => calling (ECPubKey_fromBuffer (Some c))) (slice_1_m2 (chunks rs))
             | _, _ => Ok [pub privKey]
             end ;;
  Ok (mkInput hashType pubKeys redeemScript scriptType []).

(** Lines 256-283: the metadata object of the index, created and stored
    when there is none, checked against this call when there is one.
    [assert.deepEqual] on two values that are a Script or [undefined]
    compares the buffers and the chunks. *)
Definition sign_prepare (index : nat) (privKey : PrivKey) (redeemScript_arg : option Script)
    (hashType_arg : Z) (prevOutScript : Script) (prevOutType scriptType_arg : script_type)
    (b : TransactionBuilder) : result input * TransactionBuilder :=
  match signatures_at b index with
  | None =>
      match new_input privKey redeemScript_arg hashType_arg scriptType_arg with
      | Err e => (Err e, b)
      | Ok i =>
          (Ok i,
           mkBuilder (prevOutMap b)
                     (<[index := Some prevOutScript]> (prevOutScripts b))
                     (<[index := Some prevOutType]> (prevOutTypes b))
                     (array_set (txb_signatures b) index (Some i))
                     (tx b))
      end
  | Some i =>
      (_ <- assert (bool_decide (scriptType_arg = multisig))
              (doesnt_support_multiple_signatures scriptType_arg) ;;
       _ <- assert (hashType i =? hashType_arg) inconsistent_hashType ;;
       _ <- assert (bool_decide (redeemScript i = redeemScript_arg))
              inconsistent_redeemScript ;;
       Ok i,
       b)
  end.

(** The position at which [input.pubKeys.some] stops: the first public
    key equal to the signing key's, counted from [i]. *)
Fixpoint some_pubKey (privKey : PrivKey) (pubKeys : list PubKey) (i : nat) : option nat :=
  match pubKeys with
  | [] => None
  | pubKey :: rest =>
      if Q_equals (pub privKey) pubKey then Some i else some_pubKey privKey rest (S i)
  end.

(** Lines 286-293.  [i] is the object that sits in [this.signatures] at
    [index]; writing its [signatures] array writes the table. *)
Definition sign_slot (index : nat) (privKey : PrivKey) (hash : Digest) (i : input)
    (b : TransactionBuilder) : result unit * TransactionBuilder :=
  match some_pubKey privKey (pubKeys i) 0 with
  | None => (Err privateKey_cannot_sign_for_this_input, b)
  | Some k =>
      match array_get (signatures i) k with
      | Some _ => (Err signature_already_exists, b)
      | None =>
          let i' := mkInput (hashType i) (pubKeys i) (redeemScript i) (scriptType i)
                      (array_set (signatures i) k (ECKey_sign privKey hash)) in
          (Ok tt,
           mkBuilder (prevOutMap b) (prevOutScripts b) (prevOutTypes b)
                     (array_set (txb_signatures b) index (Some i'))
                     (tx b))
      end
  end.

Definition sign (index : nat) (privKey : PrivKey) (redeemScript : option Script)
    (hashType : option Z) (b : TransactionBuilder) : result unit * TransactionBuilder :=
  match assert (index <=? length (ins (tx b)))%nat (no_input_at_index index) with
  | Err e => (Err e, b)
  | Ok _ =>
      let hashType := hashType_or_ALL hashType in
      match sign_resolve index privKey redeemScript hashType b with
      | Err e => (Err e, b)
      | Ok (prevOutScript, prevOutType, scriptType, hash) =>
          match sign_prepare index privKey redeemScript hashType
                  prevOutScript prevOutType scriptType b with
          | (Err e, b') => (Err e, b')
          | (Ok i, b') => sign_slot index privKey hash i b'
          end
      end
  end.

(** ** Later states *)

(** One call of a mutating operation of the builder, whatever its
    outcome.  [build] and [buildIncomplete] work on a copy and leave the
    builder as it is. *)
Inductive step : TransactionBuilder -> TransactionBuilder -> Prop :=
| step_addInput prevTx index sequence prevOutScript b :
    step b (snd (addInput prevTx index sequence prevOutScript b))
| step_addOutput scriptPubKey value b :
    step b (snd (addOutput scriptPubKey value b))
| step_sign index privKey redeemScript hashType b :
    step b (snd (sign index privKey redeemScript hashType b)).

(** What every call keeps of the metadata table: no [undefined] element
    appears, and an object stays at its index with its hash type. *)
Definition keeps (t t' : jsarray (option input)) : Prop :=
  (forall k, t' !! k = Some (Some None) -> t !! k = Some (Some None)) /\
  (forall k i, t !! k = Some (Some (Some i)) ->
     exists i', t' !! k = Some (Some (Some i')) /\ hashType i' = hashType i).

End Builder.

(** ** A small implementation of the collaborators

    Used to run the builder on concrete transactions.  Scripts are
    serialised with one length byte per push; a public key is a buffer
    that starts with 02, a signature one that starts with 30; the script
    hash and the signature digest are stand-ins that copy their input. *)
Module Fixture.

Definition byte_of_nat (n : nat) : byte :=
  default x00 (Byte.of_N (N.of_nat n mod 256)).

Definition OP_0 : N := 0.
Definition OP_2 : N := 82.
Definition OP_3 : N := 83.
Definition OP_DUP : N := 118.
Definition OP_EQUAL : N := 135.
Definition OP_EQUALVERIFY : N := 136.
Definition OP_HASH160 : N := 169.
Definition OP_CHECKSIG : N := 172.
Definition OP_CHECKMULTISIG : N := 174.

Definition serialize_chunk (c : chunk) : Buffer :=
  match c with
  | Op n => [default x00 (Byte.of_N (n mod 256))]
  | Push d => byte_of_nat (length d) :: d
  end.

Definition fromChunks (cs : list chunk) : Script :=
  mkScript (concat (map serialize_chunk cs)) cs.

(** OP_1 to OP_16 are the bytes 81 to 96.  A byte from 1 to 75 announces
    that many bytes of data; any other byte is an opcode. *)
Fixpoint parse_chunks (fuel : nat) (b : Buffer) : list chunk :=
  match fuel, b with
  | S fuel', x :: rest =>
      let n := Byte.to_N x in
      if ((0 <? n) && (n <=? 75))%N
      then Push (take (N.to_nat n) rest) :: parse_chunks fuel' (drop (N.to_nat n) rest)
      else Op n :: parse_chunks fuel' rest
  | _, _ => []
  end.

Definition fromBuffer (c : option chunk) : option Script :=
  match c with
  | Some (Push b) => Some (mkScript b (parse_chunks (length b) b))
  | _ => None
  end.

Definition is_pubKey (b : Buffer) : bool :=
  match b with
  | x :: _ => bool_decide (x = x02)
  | [] => false
  end.

Definition is_signature (b : Buffer) : bool :=
  match b with
  | x :: _ :: _ => bool_decide (x = x30)
  | _ => false
  end.

Definition pubKey_fromBuffer (c : option chunk) : option Buffer :=
  match c with
  | Some (Push b) => if is_pubKey b then Some b else None
  | _ => None
  end.

Definition parse_signature (c : option chunk) : option (Buffer * Z) :=
  match c with
  | Some (Push b) =>
      if is_signature b
      then match last b with
           | Some h => Some (take (length b - 1) b, Z.of_N (Byte.to_N h))
           | None => None
           end
      else None
  | _ => None
  end.

Definition to_script_signature (s : Buffer) (hashType : Z) : option Buffer :=
  if ((0 <=? hashType) && (hashType <? 256))%Z
  then Some (s ++ [default x00 (Byte.of_N (Z.to_N hashType))])%list
  else None.

Definition all_pushes (cs : list chunk) : bool :=
  forallb (fun c => match c with Push _ => true | Op _ => false end) cs.

Definition classify_output (s : Script) : script_type :=
  match chunks s with
  | [Op 118; Op 169; Push _; Op 136; Op 172] => pubkeyhash
  | [Op 169; Push _; Op 135] => scripthash
  | [Push k; Op 172] => if is_pubKey k then pubkey else nonstandard
  | Op m :: rest =>
      match reverse rest with
      | Op 174 :: Op n :: keys =>
          if all_pushes keys && bool_decide (n = 80 + N.of_nat (length keys))%N
             && (80 <? m)%N && (m <=? n)%N && (n <=? 96)%N
          then multisig else nonstandard
      | _ => nonstandard
      end
  | _ => nonstandard
  end.

(** The kinds that can sit inside a pay-to-script-hash unlocking script. *)
Definition classify_plain_input (cs : list chunk) : script_type :=
  match cs with
  | [Push s; Push k] => if is_signature s && is_pubKey k then pubkeyhash else nonstandard
  | [Push s] => if is_signature s then pubkey else nonstandard
  | Op 0 :: sigs => if all_pushes sigs then multisig else nonstandard
  | _ => nonstandard
  end.

Definition classify_input (s : Script) : script_type :=
  match classify_plain_input (chunks s) with
  | pubkeyhash => pubkeyhash
  | plain =>
      match fromBuffer (last (chunks s)) with
      | Some inner =>
          let t := classify_plain_input (take (length (chunks s) - 1) (chunks s)) in
          if bool_decide (t = classify_output inner) && negb (bool_decide (t = nonstandard))
          then scripthash else plain
      | None => plain
      end
  end.

Definition required_signatures (rs : Script) : nat :=
  match chunks rs with
  | Op m :: _ => N.to_nat (m - 80)
  | _ => 0
  end.

Definition multisig_input (sigs : list Buffer) (rs : option Script) : option Script :=
  match rs with
  | Some r =>
      if (required_signatures r <=? length sigs)%nat
      then Some (fromChunks (Op 0 :: map Push sigs))
      else None
  | None => Some (fromChunks (Op 0 :: map Push sigs))
  end.

Definition hex_value (a : Ascii.ascii) : option N :=
  let n := Ascii.N_of_ascii a in
  if ((48 <=? n) && (n <=? 57))%N then Some (n - 48)%N
  else if ((97 <=? n) && (n <=? 102))%N then Some (n - 87)%N
  else None.

Fixpoint from_hex (s : string) : option Buffer :=
  match s with
  | EmptyString => Some []
  | String a (String c rest) =>
      match hex_value a, hex_value c, from_hex rest with
      | Some h, Some l, Some b => option_map (fun x => x :: b) (Byte.of_N (h * 16 + l))
      | _, _, _ => None
      end
  | String _ EmptyString => None
  end.

Definition hash_for_signature (t : Transaction) (inIndex : nat) (s : Script) (hashType : Z)
    : option Buffer :=
  if (inIndex <? length (ins t))%nat
  then Some (byte_of_nat inIndex :: byte_of_nat (Z.to_nat hashType) :: buffer s)
  else None.

#[local] Instance collaborators : Collaborators := {|
  PrivKey := nat;
  PubKey := Buffer;
  Signature := Buffer;
  Digest := Buffer;
  pub d := [x02; byte_of_nat d];
  Q_equals a b := bool_decide (a = b);
  ECKey_sign d hash := x30 :: byte_of_nat d :: hash;
  address_toOutputScript k :=
    fromChunks [Op OP_DUP; Op OP_HASH160; Push k; Op OP_EQUALVERIFY; Op OP_CHECKSIG];
  ECPubKey_fromBuffer := pubKey_fromBuffer;
  parseScriptSignature := parse_signature;
  toScriptSignature := to_script_signature;
  Script_fromBuffer := fromBuffer;
  Script_fromChunks := fromChunks;
  Script_getHash s := buffer s;
  classifyInput := classify_input;
  classifyOutput := classify_output;
  scriptHashOutput h := fromChunks [Op OP_HASH160; Push h; Op OP_EQUAL];
  pubKeyHashInput s k :=
    match s, k with
    | Some s, Some k => Some (fromChunks [Push s; Push k])
    | _, _ => None
    end;
  pubKeyInput s := option_map (fun s => fromChunks [Push s]) s;
  multisigInput := multisig_input;
  scriptHashInput scriptSig rs := Some (fromChunks (chunks scriptSig ++ [Push (buffer rs)])%list);
  SIGHASH_ALL := 1;
  SIGHASH_SINGLE := 3;
  SIGHASH_ANYONECANPAY := 128;
  DEFAULT_SEQUENCE := 4294967295;
  Transaction_getHash t := byte_of_nat (length (ins t)) :: concat (map in_hash (ins t));
  hashForSignature := hash_for_signature;
  Buffer_fromHex := from_hex
|}.

(** Sample data: previous-output hashes, keys, scripts. *)
Definition hashA : Buffer := [x0a; x01].
Definition hashB : Buffer := [x0b; x02].
Definition zero_hash : Buffer := [x00; x00; x00; x00].

Definition p2pkh (d : nat) : Script := address_toOutputScript (pub d).

(** A 2-of-3 redeem script for the keys 1, 2, 3 and its locking script. *)
Definition redeem_2of3 : Script :=
  fromChunks [Op OP_2; Push (pub 1%nat); Push (pub 2%nat); Push (pub 3%nat); Op OP_3;
              Op OP_CHECKMULTISIG].
Definition p2sh_2of3 : Script := scriptHashOutput (Script_getHash redeem_2of3).

Definition a_nonstandard_script : Script := fromChunks [Op 106].

Definition an_output : Script := p2pkh 9.

(** The builder after a call, whatever its outcome. *)
Definition after {A} (r : result A * TransactionBuilder) : TransactionBuilder := snd r.

Definition built (r : result Transaction) : Transaction :=
  match r with
  | Ok t => t
  | Err _ => mkTransaction [] []
  end.

(** One pay-to-pubkey-hash input owned by key 1 and one output; then
    signed by key 1. *)
Definition b_one_input : TransactionBuilder :=
  after (addInput (PrevOutHash hashA) 0 None (Some (p2pkh 1)) new_TransactionBuilder).
Definition b_unsigned : TransactionBuilder := after (addOutput an_output 1000 b_one_input).
Definition b_signed : TransactionBuilder := after (sign 0 1%nat None None b_unsigned).

(** One input spending the script hash of the 2-of-3 script and one
    output; then signed by cosigner 1, then by cosigner 2. *)
Definition b_p2sh_unsigned : TransactionBuilder :=
  after (addOutput an_output 1000
           (after (addInput (PrevOutHash hashA) 0 None (Some p2sh_2of3)
                     new_TransactionBuilder))).
Definition b_p2sh_signed_by_1 : TransactionBuilder :=
  after (sign 0 1%nat (Some redeem_2of3) None b_p2sh_unsigned).
Definition b_p2sh_signed_by_1_2 : TransactionBuilder :=
  after (sign 0 2%nat (Some redeem_2of3) None b_p2sh_signed_by_1).

(** Two pay-to-pubkey-hash inputs and one output. *)
Definition b_two_inputs : TransactionBuilder :=
  after (addOutput an_output 1000
           (after (addInput (PrevOutHash hashB) 0 None (Some (p2pkh 2))
                     b_one_input))).

(** A transaction whose first input is signed and whose second input
    has the empty script, for a hash type chosen by the caller. *)
Definition tx_half_signed (hashType : Z) : Transaction :=
  built (buildIncomplete (after (sign 0 1%nat None (Some hashType) b_two_inputs))).

(** The transaction of [b_p2sh_signed_by_1_2]. *)
Definition tx_p2sh_signed : Transaction := built (build b_p2sh_signed_by_1_2).

(** Two inputs of which only the second is signed. *)
Definition b_second_signed : TransactionBuilder :=
  after (sign 1 2%nat None None b_two_inputs).

(** The first builder again, with a previous-output hash of zero bytes. *)
Definition b_zero_one_input : TransactionBuilder :=
  after (addInput (PrevOutHash zero_hash) 0 None (Some (p2pkh 1)) new_TransactionBuilder).
Definition b_zero_unsigned : TransactionBuilder :=
  after (addOutput an_output 1000 b_zero_one_input).
Definition b_zero_signed : TransactionBuilder := after (sign 0 1%nat None None b_zero_unsigned).

(** A transaction with one input, whose previous-output hash is zero. *)
Definition coinbase_txIn : TxIn := mkTxIn zero_hash 0 Script_EMPTY 0.
Definition tx_coinbase : Transaction := mkTransaction [coinbase_txIn] [mkTxOut an_output 50].

(** The builder imported from a transaction. *)
Definition imported (t : Transaction) : TransactionBuilder :=
  match fromTransaction t with
  | Ok b => b
  | Err _ => new_TransactionBuilder
  end.

End Fixture.

(** ** States of a builder and relations between them *)

Section States.
Context `{C : Collaborators}.

(** The builders a caller can hold: a new one, an imported one, and
    what the mutating operations make of them. *)
Inductive reachable : TransactionBuilder -> Prop :=
| reachable_new : reachable new_TransactionBuilder
| reachable_import transaction b :
    fromTransaction transaction = Ok b -> reachable b
| reachable_step b b' : reachable b -> step b b' -> reachable b'.

(** The registry holds the key of every input and nothing else. *)
Definition registry_matches (b : TransactionBuilder) : Prop :=
  forall key,
    is_Some (prevOutMap b !! key) <->
    exists txIn, txIn ∈ ins (tx b) /\ key = prevOut_key (in_hash txIn) (in_index txIn).

(** The previous output an input spends. *)
Definition previous_output (txIn : TxIn) : Buffer * nat :=
  (in_hash txIn, in_index txIn).

(** The input [tx.addInput] makes of the hash, index and sequence number
    of an existing input. *)
Definition unsigned_copy (txIn : TxIn) : TxIn :=
  mkTxIn (in_hash txIn) (in_index txIn) Script_EMPTY (in_sequence txIn).

(** [i'] is [i] with, possibly, more signature slots filled. *)
Definition more_signed (i i' : input) : Prop :=
  hashType i' = hashType i /\ pubKeys i' = pubKeys i /\
  redeemScript i' = redeemScript i /\ scriptType i' = scriptType i /\
  forall k s, array_get (signatures i) k = Some s -> array_get (signatures i') k = Some s.

(** Every signature of the object sits in the slot of a public key that
    equals the public key of the key that made it. *)
Definition well_signed (i : input) : Prop :=
  forall k s,
    array_get (signatures i) k = Some s ->
    exists pubKey privKey hash,
      pubKeys i !! k = Some pubKey /\
      Q_equals (pub privKey) pubKey = true /\
      s = ECKey_sign privKey hash.

(** Every slot that has a public key has a signature. *)
Definition fully_signed (i : input) : Prop :=
  forall k pubKey, pubKeys i !! k = Some pubKey -> is_Some (array_get (signatures i) k).

End States.

(** * Properties *)

Section Facts.
Context `{C : Collaborators}.

(** ** The result monad and arrays *)

Lemma bind_Ok {A B} (r : result A) (k : A -> result B) (y : B) :
  (x <- r ;; k x) = Ok y -> exists x, r = Ok x /\ k x = Ok y.
Proof. destruct r as [x|e]; simpl; [eauto | discriminate]. Qed.

Lemma assert_Ok (c : bool) (e : error) (u : unit) : assert c e = Ok u -> c = true.
Proof. destruct c; [reflexivity | discriminate]. Qed.

Lemma assert_Err (c : bool) (e e' : error) : assert c e = Err e' -> c = false /\ e' = e.
Proof. destruct c; simpl; [discriminate | intros [= <-]; auto]. Qed.

Lemma mapM_Ok_each {A B} (f : A -> result B) (l : list A) (ys : list B) :
  mapM f l = Ok ys -> forall x, x ∈ l -> exists y, f x = Ok y.
Proof.
  revert ys. induction l as [|a l IH]; intros ys H x Hx.
  - inversion Hx.
  - simpl in H. apply bind_Ok in H as (b & Hb & H).
    apply bind_Ok in H as (bs & Hbs & _).
    apply elem_of_cons in Hx as [-> | Hx]; [eauto | exact (IH _ Hbs _ Hx)].
Qed.

Lemma mapM_Ok_lookup {A B} (f : A -> result B) (l : list A) (ys : list B) :
  mapM f l = Ok ys ->
  forall k x, l !! k = Some x -> exists y, f x = Ok y /\ ys !! k = Some y.
Proof.
  revert ys. induction l as [|a l IH]; intros ys H k x Hk; [discriminate|].
  simpl in H. apply bind_Ok in H as (b & Hb & H).
  apply bind_Ok in H as (bs & Hbs & [= <-]).
  destruct k as [|k]; simpl in *.
  - injection Hk as <-. eauto.
  - exact (IH _ Hbs _ _ Hk).
Qed.

Lemma array_get_nil {A} (k : nat) : array_get ([] : jsarray A) k = None.
Proof. reflexivity. Qed.

Lemma array_set_lookup_eq {A} (a : jsarray A) (i : nat) (x : A) :
  array_set a i x !! i = Some (Some x).
Proof.
  unfold array_set. case_decide as Hi.
  - by apply list_lookup_insert_eq.
  - rewrite lookup_app_r by lia.
    rewrite lookup_app_r by (rewrite length_replicate; lia).
    rewrite length_replicate. by replace (i - length a - (i - length a))%nat with 0%nat by lia.
Qed.

Lemma array_set_lookup_ne {A} (a : jsarray A) (i j : nat) (x : A) (y : A) :
  i <> j -> a !! j = Some (Some y) -> array_set a i x !! j = Some (Some y).
Proof.
  intros Hne Hj. unfold array_set. case_decide as Hi.
  - by rewrite list_lookup_insert_ne.
  - by rewrite lookup_app_l by (by eapply lookup_lt_Some).
Qed.

Lemma array_get_set_eq {A} (a : jsarray A) (i : nat) (x : A) :
  array_get (array_set a i x) i = Some x.
Proof. unfold array_get. by rewrite array_set_lookup_eq. Qed.

Lemma bind_Err {A B} (r : result A) (k : A -> result B) (e : error) :
  (x <- r ;; k x) = Err e -> r = Err e \/ exists x, r = Ok x /\ k x = Err e.
Proof. destruct r as [x|e0]; simpl; [eauto | intros [= <-]; auto]. Qed.

Lemma calling_Err {A} (o : option A) (e : error) :
  calling o = Err e -> o = None /\ e = CollaboratorError.
Proof. destruct o; simpl; [discriminate | intros [= <-]; auto]. Qed.

Lemma deref_Err {A} (o : option A) (e : error) :
  deref o = Err e -> o = None /\ e = TypeError.
Proof. destruct o; simpl; [discriminate | intros [= <-]; auto]. Qed.

Lemma mapM_Err {A B} (f : A -> result B) (l : list A) (e : error) :
  mapM f l = Err e -> exists x, x ∈ l /\ f x = Err e.
Proof.
  induction l as [|a l IH]; simpl; [discriminate|].
  intros [H | (b & _ & H)]%bind_Err.
  - exists a. split; [apply list_elem_of_here | done].
  - apply bind_Err in H as [H | (? & _ & H)]; [|discriminate].
    destruct (IH H) as (x & Hx & Hfx). exists x. split; [by apply list_elem_of_further | done].
Qed.

(** ** sign: where a failing call leaves the builder *)

Lemma sign_prepare_Err index privKey rs ht pos pot st b e b' :
  sign_prepare index privKey rs ht pos pot st b = (Err e, b') -> b' = b.
Proof.
  unfold sign_prepare. destruct (signatures_at b index) as [i|].
  - by intros [= _ <-].
  - destruct (new_input privKey rs ht st); by intros [= <-].
Qed.

Lemma sign_prepare_Ok index privKey rs ht pos pot st b i b' :
  sign_prepare index privKey rs ht pos pot st b = (Ok i, b') ->
  (signatures_at b index = Some i /\ b' = b /\
   st = multisig /\ hashType i = ht /\ redeemScript i = rs)
  \/
  (signatures_at b index = None /\ new_input privKey rs ht st = Ok i /\
   b' = mkBuilder (prevOutMap b)
          (<[index := Some pos]> (prevOutScripts b))
          (<[index := Some pot]> (prevOutTypes b))
          (array_set (txb_signatures b) index (Some i))
          (tx b)).
Proof.
  unfold sign_prepare. destruct (signatures_at b index) as [i0|].
  - intros [= H <-]. left.
    apply bind_Ok in H as (? & H1 & H). apply bind_Ok in H as (? & H2 & H).
    apply bind_Ok in H as (? & H3 & [= <-]).
    apply assert_Ok in H1, H2, H3.
    apply bool_decide_eq_true in H1, H3. apply Z.eqb_eq in H2. auto.
  - destruct (new_input privKey rs ht st) as [i0|]; [|discriminate].
    intros [= <- <-]. right. auto.
Qed.

Lemma new_input_signatures privKey rs ht st i :
  new_input privKey rs ht st = Ok i ->
  signatures i = [] /\ hashType i = ht /\ redeemScript i = rs /\ scriptType i = st.
Proof.
  unfold new_input. intros H. apply bind_Ok in H as (? & _ & [= <-]). auto.
Qed.

Lemma some_pubKey_None privKey pubKeys k :
  some_pubKey privKey pubKeys k = None <->
  forall pubKey, pubKey ∈ pubKeys -> Q_equals (pub privKey) pubKey = false.
Proof.
  revert k. induction pubKeys as [|p l IH]; intros k; simpl.
  - split; [intros _ ? H; inversion H | reflexivity].
  - destruct (Q_equals (pub privKey) p) eqn:E.
    + split; [discriminate|]. intros H. specialize (H p (list_elem_of_here _ _)). congruence.
    + rewrite IH. split.
      * intros H q [-> | Hq]%elem_of_cons; auto.
      * intros H q Hq. apply H. by apply list_elem_of_further.
Qed.

Lemma some_pubKey_Some privKey pubKeys k0 k :
  some_pubKey privKey pubKeys k0 = Some k <->
  exists j pubKey, k = (k0 + j)%nat /\ pubKeys !! j = Some pubKey /\
    Q_equals (pub privKey) pubKey = true /\
    forall j' pubKey', (j' < j)%nat -> pubKeys !! j' = Some pubKey' ->
      Q_equals (pub privKey) pubKey' = false.
Proof.
  revert k0. induction pubKeys as [|p l IH]; intros k0; simpl.
  - split; [discriminate | intros (j & q & _ & H & _); discriminate].
  - destruct (Q_equals (pub privKey) p) eqn:E.
    + split.
      * intros [= <-]. exists 0%nat, p. repeat split; auto with lia.
      * intros (j & q & -> & Hj & Hq & Hfirst). destruct j as [|j]; [f_equal; lia|].
        specialize (Hfirst 0%nat p ltac:(lia) eq_refl). congruence.
    + rewrite IH. split.
      * intros (j & q & -> & Hj & Hq & Hfirst). exists (S j), q.
        repeat split; auto with lia.
        intros [|j'] q' Hlt Hq'; simpl in Hq'; [congruence|].
        apply (Hfirst j' q'); [lia | done].
      * intros (j & q & -> & Hj & Hq & Hfirst). destruct j as [|j].
        { simpl in Hj. congruence. }
        exists j, q. repeat split; auto with lia.
        intros j' q' Hlt Hq'. apply (Hfirst (S j') q'); [lia | done].
Qed.

Lemma sign_slot_Err index privKey hash i b e b' :
  sign_slot index privKey hash i b = (Err e, b') ->
  b' = b /\
  ((e = privateKey_cannot_sign_for_this_input /\
    forall pubKey, pubKey ∈ pubKeys i -> Q_equals (pub privKey) pubKey = false)
   \/
   (e = signature_already_exists /\
    exists k s, some_pubKey privKey (pubKeys i) 0 = Some k /\
      array_get (signatures i) k = Some s)).
Proof.
  unfold sign_slot. destruct (some_pubKey privKey (pubKeys i) 0) as [k|] eqn:Hk.
  - destruct (array_get (signatures i) k) as [s|] eqn:Hs; [|discriminate].
    intros [= <- <-]. split; [done|]. right. eauto.
  - intros [= <- <-]. split; [done|]. left. split; [done|].
    exact (proj1 (some_pubKey_None _ _ _) Hk).
Qed.

(** The failures of each step of [sign]. *)
Lemma sign_resolve_Err index privKey rs ht b e :
  sign_resolve index privKey rs ht b = Err e ->
  e = prevOutScript_must_be_P2SH \/ e = redeemScript_cant_be_P2SH \/
  e = redeemScript_not_supported_nonstandard \/
  e = prevOutScript_is_P2SH_missing_redeemScript \/ e = CollaboratorError.
Proof.
  unfold sign_resolve. destruct rs as [r|]; intros H.
  - apply bind_Err in H as [[_ ->]%assert_Err | (? & _ & H)]; [auto|].
    apply bind_Err in H as [[_ ->]%assert_Err | (? & _ & H)]; [auto|].
    apply bind_Err in H as [[_ ->]%assert_Err | (? & _ & H)]; [auto|].
    apply bind_Err in H as [[_ ->]%calling_Err | (? & _ & H)]; [auto 10 | discriminate].
  - apply bind_Err in H as [[_ ->]%assert_Err | (? & _ & H)]; [auto 10|].
    apply bind_Err in H as [[_ ->]%calling_Err | (? & _ & H)]; [auto 10 | discriminate].
Qed.

Lemma new_input_Err privKey rs ht st e :
  new_input privKey rs ht st = Err e -> e = CollaboratorError.
Proof.
  unfold new_input. intros [H | (? & _ & H)]%bind_Err; [|discriminate].
  destruct rs as [r|]; [destruct st|]; try discriminate.
  apply mapM_Err in H as (c & _ & [_ ->]%calling_Err). reflexivity.
Qed.

Lemma sign_prepare_Err_cases index privKey rs ht pos pot st b e b' :
  sign_prepare index privKey rs ht pos pot st b = (Err e, b') ->
  (signatures_at b index = None /\ e = CollaboratorError)
  \/
  (exists i, signatures_at b index = Some i /\
     ((st <> multisig /\ e = doesnt_support_multiple_signatures st) \/
      (hashType i <> ht /\ e = inconsistent_hashType) \/
      (redeemScript i <> rs /\ e = inconsistent_redeemScript))).
Proof.
  unfold sign_prepare. destruct (signatures_at b index) as [i|].
  - intros [= H _]. right. exists i. split; [reflexivity|].
    apply bind_Err in H as [[Hc ->]%assert_Err | (? & _ & H)].
    { left. by apply bool_decide_eq_false in Hc. }
    apply bind_Err in H as [[Hc ->]%assert_Err | (? & _ & H)].
    { right. left. by apply Z.eqb_neq in Hc. }
    apply bind_Err in H as [[Hc ->]%assert_Err | (? & _ & H)]; [|discriminate].
    right. right. by apply bool_decide_eq_false in Hc.
  - destruct (new_input privKey rs ht st) eqn:Hnew; [discriminate|].
    intros [= <- _]. left. split; [reflexivity|]. by apply new_input_Err in Hnew.
Qed.

(** What lines 228-254 hand on when they pass: the script and the kind
    to cache, and the kind to sign for. *)
Lemma sign_resolve_Ok index privKey rs ht b pos pot st hash :
  sign_resolve index privKey rs ht b = Ok (pos, pot, st, hash) ->
  pos = default (match rs with
                 | Some r => scriptHashOutput (Script_getHash r)
                 | None => address_toOutputScript (pub privKey)
                 end) (prevOutScript_at b index) /\
  pot = default (match rs with Some _ => scripthash | None => pubkeyhash end)
          (prevOutType_at b index) /\
  st = match rs with Some r => classifyOutput r | None => pot end.
Proof.
  unfold sign_resolve. destruct rs as [r|]; intros H.
  - apply bind_Ok in H as (? & _ & H). apply bind_Ok in H as (? & _ & H).
    apply bind_Ok in H as (? & _ & H). apply bind_Ok in H as (? & _ & H).
    injection H as ? ? ? ?; subst. auto.
  - apply bind_Ok in H as (? & _ & H). apply bind_Ok in H as (? & _ & H).
    injection H as ? ? ? ?; subst. auto.
Qed.

(** C1, as amended.  A failing [sign] never touches the previous-output
    registry or the transaction.  It leaves the whole builder as it was
    whenever the index already had metadata or the failure is another
    one than 'privateKey cannot sign for this input'.  In the remaining
    case (no metadata at the index, and that failure) the call has
    written: the object created at lines 267-273, with the hash type and
    redeem script of the call and no signature in it, sits in
    [this.signatures] at the index, lines 276-277 have stored the
    previous-output script and kind of the index, and the builder is not
    the one before the call. *)
Theorem sign_failure_state index privKey rs ht b e b' :
  sign index privKey rs ht b = (Err e, b') ->
  prevOutMap b' = prevOutMap b /\ tx b' = tx b /\
  (is_Some (signatures_at b index) \/ e <> privateKey_cannot_sign_for_this_input ->
   b' = b) /\
  (signatures_at b index = None -> e = privateKey_cannot_sign_for_this_input ->
   exists i pos pot,
     pos = default (match rs with
                    | Some r => scriptHashOutput (Script_getHash r)
                    | None => address_toOutputScript (pub privKey)
                    end) (prevOutScript_at b index) /\
     pot = default (match rs with Some _ => scripthash | None => pubkeyhash end)
             (prevOutType_at b index) /\
     signatures i = [] /\ hashType i = hashType_or_ALL ht /\ redeemScript i = rs /\
     scriptType i = match rs with Some r => classifyOutput r | None => pot end /\
     (forall pubKey, pubKey ∈ pubKeys i -> Q_equals (pub privKey) pubKey = false) /\
     b' = mkBuilder (prevOutMap b)
            (<[index := Some pos]> (prevOutScripts b))
            (<[index := Some pot]> (prevOutTypes b))
            (array_set (txb_signatures b) index (Some i))
            (tx b) /\
     signatures_at b' index = Some i /\
     prevOutScript_at b' index = Some pos /\ prevOutType_at b' index = Some pot /\
     b' <> b).
Proof.
  unfold sign. destruct (assert _ _) as [[]|e0] eqn:Hassert.
  2:{ intros [= <- <-]. apply assert_Err in Hassert as [_ ->].
      do 3 (split; [done|]). intros _ [=]. }
  destruct (sign_resolve _ _ _ _ _) as [[[[pos pot] st] hash]|e0] eqn:Hres.
  2:{ intros [= <- <-]. do 3 (split; [done|]). intros _ ->.
      apply sign_resolve_Err in Hres. by destruct Hres as [?|[?|[?|[?|?]]]]. }
  destruct (sign_prepare _ _ _ _ _ _ _ _) as [[i|e0] b1] eqn:Hprep.
  2:{ intros [= <- <-]. pose proof (sign_prepare_Err _ _ _ _ _ _ _ _ _ _ Hprep) as ->.
      do 3 (split; [done|]). intros Hnone ->.
      apply sign_prepare_Err_cases in Hprep as [[_ ?] | (i & Hi & Hcases)]; [done|].
      rewrite Hnone in Hi. discriminate. }
  intros Hslot. apply sign_slot_Err in Hslot as [-> Hslot].
  apply sign_prepare_Ok in Hprep as [(Hi & -> & _) | (Hnone & Hnew & ->)].
  { do 3 (split; [done|]). intros Hnone. rewrite Hnone in Hi. discriminate. }
  apply new_input_signatures in Hnew as (Hsigs & Hht & Hrs & Hst).
  destruct Hslot as [[-> Hkeys] | [_ (k & s & _ & Hs)]].
  2:{ rewrite Hsigs, array_get_nil in Hs. discriminate. }
  apply sign_resolve_Ok in Hres as (Hpos & Hpot & Hkind).
  assert (signatures_at
            (mkBuilder (prevOutMap b)
               (<[index := Some pos]> (prevOutScripts b))
               (<[index := Some pot]> (prevOutTypes b))
               (array_set (txb_signatures b) index (Some i))
               (tx b)) index = Some i) as Hstored.
  { unfold signatures_at. cbn [txb_signatures]. by rewrite array_get_set_eq. }
  do 2 (split; [reflexivity|]). split.
  - intros [[i0 Hi0] | Hne]; [|done]. rewrite Hnone in Hi0. discriminate.
  - intros _ _. exists i, pos, pot.
    do 5 (split; [done|]). split; [by rewrite Hst|]. do 3 (split; [done|]).
    split; [|split].
    + unfold prevOutScript_at. cbn [prevOutScripts]. by rewrite lookup_insert_eq.
    + unfold prevOutType_at. cbn [prevOutTypes]. by rewrite lookup_insert_eq.
    + intros Heq. rewrite Heq, Hnone in Hstored. discriminate.
Qed.

(** C6.  The bounds check of line 225 is [ins.length >= index]: an
    index past the number of inputs fails it, before anything else runs
    and with the builder untouched, but the index equal to the number of
    inputs passes it, and whatever the call does next it does not fail
    with 'No input at index'. *)
Theorem sign_bounds_check index privKey rs ht b :
  ((length (ins (tx b)) < index)%nat ->
   sign index privKey rs ht b = (Err (no_input_at_index index), b))
  /\
  (index = length (ins (tx b)) ->
   forall e b', sign index privKey rs ht b = (Err e, b') -> e <> no_input_at_index index).
Proof.
  split.
  - intros Hlt. unfold sign.
    replace (index <=? length (ins (tx b)))%nat with false; [reflexivity|].
    symmetry. apply Nat.leb_gt. exact Hlt.
  - intros -> e b'. unfold sign. rewrite Nat.leb_refl. simpl.
    destruct (sign_resolve _ _ _ _ _) as [[[[pos pot] st] hash]|e0] eqn:Hres.
    + destruct (sign_prepare _ _ _ _ _ _ _ _) as [[i|e0] b1] eqn:Hprep.
      * intros Hslot. apply sign_slot_Err in Hslot as [_ [[-> _] | [-> _]]]; discriminate.
      * intros [= <- <-].
        apply sign_prepare_Err_cases in Hprep
          as [[_ ->] | (i & _ & [[_ ->] | [[_ ->] | [_ ->]]])]; discriminate.
    + intros [= <- <-].
      apply sign_resolve_Err in Hres as [-> | [-> | [-> | [-> | ->]]]]; discriminate.
Qed.

(** What passing the check at the index equal to the number of inputs
    leads to when the digest computation does not check the index
    either: on a new builder [sign] succeeds, and the builder has
    metadata and a signature for an input that does not exist. *)
Lemma sign_on_new_builder privKey hash :
  hashForSignature (tx new_TransactionBuilder) 0
    (address_toOutputScript (pub privKey)) SIGHASH_ALL = Some hash ->
  Q_equals (pub privKey) (pub privKey) = true ->
  sign 0 privKey None None new_TransactionBuilder =
    (Ok tt,
     mkBuilder ∅
       (<[0%nat := Some (address_toOutputScript (pub privKey))]> ∅)
       (<[0%nat := Some pubkeyhash]> ∅)
       [Some (Some (mkInput SIGHASH_ALL [pub privKey] None pubkeyhash
                      [Some (ECKey_sign privKey hash)]))]
       (mkTransaction [] [])).
Proof.
  intros Hhash Hrefl. unfold sign, sign_resolve, prevOutScript_at, prevOutType_at.
  change (prevOutScripts new_TransactionBuilder) with (∅ : gmap nat (option Script)).
  change (prevOutTypes new_TransactionBuilder) with (∅ : gmap nat (option script_type)).
  rewrite !lookup_empty. cbn [mjoin default option_join hashType_or_ALL]. unfold id.
  rewrite Hhash. cbn. rewrite bool_decide_eq_false_2 by discriminate.
  cbn. unfold sign_slot. cbn. rewrite Hrefl. reflexivity.
Qed.

(** ** The hash-type guards of addInput and addOutput *)

Lemma every_cases (f : input -> bool) (a : jsarray (option input)) :
  every f a = Ok true \/ every f a = Ok false \/ every f a = Err TypeError.
Proof.
  induction a as [|[[i|]|] a IH]; simpl; auto.
  destruct (f i); auto.
Qed.

(** An element failing the callback makes [every] fail or return false. *)
Lemma every_entry_false (f : input -> bool) (a : jsarray (option input)) k i :
  a !! k = Some (Some (Some i)) -> f i = false -> every f a <> Ok true.
Proof.
  revert k. induction a as [|[[i0|]|] a IH]; intros k Hk Hf; simpl; try discriminate.
  - destruct k as [|k]; simpl in Hk.
    + injection Hk as ->. rewrite Hf. discriminate.
    + destruct (f i0); [by eapply IH | discriminate].
  - destruct k as [|k]; simpl in Hk; [discriminate | by eapply IH].
Qed.

(** So does an element that is [undefined]. *)
Lemma every_absent (f : input -> bool) (a : jsarray (option input)) k :
  a !! k = Some (Some None) -> every f a <> Ok true.
Proof.
  revert k. induction a as [|[[i0|]|] a IH]; intros k Hk; simpl; try discriminate.
  - destruct k as [|k]; simpl in Hk; [discriminate|].
    destruct (f i0); [by eapply IH | discriminate].
  - destruct k as [|k]; simpl in Hk; [discriminate | by eapply IH].
Qed.

(** Without [undefined] elements the callback never throws. *)
Lemma every_no_absent (f : input -> bool) (a : jsarray (option input)) :
  (forall k, a !! k <> Some (Some None)) -> every f a <> Err TypeError.
Proof.
  induction a as [|[[i0|]|] a IH]; intros Hno; simpl; try discriminate.
  - destruct (f i0); [|discriminate]. apply IH. intros k. apply (Hno (S k)).
  - exfalso. by apply (Hno 0%nat).
  - apply IH. intros k. apply (Hno (S k)).
Qed.

(** The callback throws at an [undefined] element when every object
    before it passes. *)
Lemma every_throws (f : input -> bool) (a : jsarray (option input)) k :
  a !! k = Some (Some None) ->
  (forall j i, (j < k)%nat -> a !! j = Some (Some (Some i)) -> f i = true) ->
  every f a = Err TypeError.
Proof.
  revert k. induction a as [|[[i0|]|] a IH]; intros k Hk Hbefore; simpl; try discriminate.
  - destruct k as [|k]; simpl in Hk; [discriminate|].
    rewrite (Hbefore 0%nat i0) by (simpl; auto with lia).
    apply (IH k Hk). intros j i Hj. apply (Hbefore (S j) i). lia.
  - reflexivity.
  - destruct k as [|k]; simpl in Hk; [discriminate|].
    apply (IH k Hk). intros j i Hj. apply (Hbefore (S j) i). lia.
Qed.

(** The walk stops at an object that fails the callback when no
    [undefined] element comes before it: what follows is not read. *)
Lemma every_stops (f : input -> bool) (a : jsarray (option input)) j i :
  a !! j = Some (Some (Some i)) -> f i = false ->
  (forall j', (j' < j)%nat -> a !! j' <> Some (Some None)) ->
  every f a = Ok false.
Proof.
  revert j. induction a as [|[[i0|]|] a IH]; intros j Hj Hf Hno; simpl; try discriminate.
  - destruct j as [|j]; simpl in Hj.
    + injection Hj as ->. by rewrite Hf.
    + destruct (f i0); [|done]. apply (IH j Hj Hf).
      intros j' Hlt. apply (Hno (S j')). lia.
  - destruct j as [|j]; simpl in Hj; [discriminate|].
    exfalso. apply (Hno 0%nat); [lia | done].
  - destruct j as [|j]; simpl in Hj; [discriminate|]. apply (IH j Hj Hf).
    intros j' Hlt. apply (Hno (S j')). lia.
Qed.

Lemma anyone_can_pay_false (i : input) :
  anyone_can_pay i = false <-> Z.land (hashType i) SIGHASH_ANYONECANPAY = 0.
Proof.
  unfold anyone_can_pay. rewrite negb_false_iff. apply Z.eqb_eq.
Qed.

Lemma sighash_single_false (i : input) :
  sighash_single i = false <-> Z.land (hashType i) 31 <> SIGHASH_SINGLE.
Proof. unfold sighash_single. apply Z.eqb_neq. Qed.

(** A failing [addInput] or [addOutput] writes nothing. *)
Lemma addInput_Err prevTx index sequence prevOutScript b e b' :
  addInput prevTx index sequence prevOutScript b = (Err e, b') ->
  b' = b /\ addInput_checks prevTx index prevOutScript b = Err e.
Proof.
  unfold addInput. destruct (addInput_checks _ _ _ _) as [[[[h s] t] key]|e0].
  - destruct (Transaction_addInput _ _ _ _). discriminate.
  - by intros [= <- <-].
Qed.

Lemma addInput_checks_Err prevTx index prevOutScript b e :
  addInput_checks prevTx index prevOutScript b = Err e ->
  addInput prevTx index None prevOutScript b = (Err e, b) /\
  forall sequence, addInput prevTx index sequence prevOutScript b = (Err e, b).
Proof. intros H. unfold addInput. by rewrite H. Qed.

(** The steps of [addInput] once the reference is resolved and the known
    locking script, if any, is not nonstandard. *)
Lemma addInput_checks_resolved prevTx index prevOutScript b prevOutHash s :
  resolve_prevTx prevTx index prevOutScript = Ok (prevOutHash, s) ->
  (forall s', s = Some s' -> classifyOutput s' <> nonstandard) ->
  addInput_checks prevTx index prevOutScript b =
    (ok <- every anyone_can_pay (txb_signatures b) ;;
     _ <- assert ok this_would_invalidate_signatures ;;
     _ <- assert (negb (bool_decide (is_Some (prevOutMap b !! prevOut_key prevOutHash index))))
            transaction_is_already_an_input ;;
     Ok (prevOutHash, s, classifyOutput <$> s, prevOut_key prevOutHash index)).
Proof.
  intros Hres Hstd. unfold addInput_checks. rewrite Hres. simpl.
  destruct s as [s'|]; simpl; [|reflexivity].
  rewrite bool_decide_eq_false_2 by (by apply Hstd). reflexivity.
Qed.

(** With a nonstandard known locking script [addInput] stops at line 137. *)
Lemma addInput_checks_nonstandard prevTx index prevOutScript b prevOutHash s :
  resolve_prevTx prevTx index prevOutScript = Ok (prevOutHash, Some s) ->
  classifyOutput s = nonstandard ->
  addInput_checks prevTx index prevOutScript b = Err prevOutScript_not_supported_nonstandard.
Proof.
  intros Hres Hns. unfold addInput_checks. rewrite Hres. simpl.
  rewrite bool_decide_eq_true_2 by done. reflexivity.
Qed.

(** With a reference that does not resolve [addInput] stops at lines
    118-131. *)
Lemma addInput_checks_unresolved prevTx index prevOutScript b e :
  resolve_prevTx prevTx index prevOutScript = Err e ->
  addInput_checks prevTx index prevOutScript b = Err e.
Proof. intros Hres. unfold addInput_checks. by rewrite Hres. Qed.

(** ** What later calls keep of the metadata table *)

Lemma array_set_lookup_inv {A} (a : jsarray A) (i : nat) (x : A) k v :
  array_set a i x !! k = Some v ->
  (k = i /\ v = Some x) \/ (k <> i /\ (a !! k = Some v \/ v = None)).
Proof.
  destruct (decide (k = i)) as [->|Hne].
  - rewrite array_set_lookup_eq. intros [= <-]. auto.
  - intros H. right. split; [done|]. unfold array_set in H. case_decide as Hi.
    + rewrite list_lookup_insert_ne in H by done. auto.
    + destruct (decide (k < length a)%nat) as [Hk|Hk].
      * rewrite lookup_app_l in H by done. auto.
      * rewrite lookup_app_r in H by lia.
        destruct (decide (k - length a < i - length a)%nat) as [Hr|Hr].
        -- rewrite lookup_app_l in H by (by rewrite length_replicate).
           apply lookup_replicate in H as [-> _]. auto.
        -- rewrite lookup_app_r in H by (rewrite length_replicate; lia).
           rewrite length_replicate in H.
           destruct (k - length a - (i - length a))%nat as [|n] eqn:E; [lia|].
           discriminate.
Qed.

Lemma keeps_refl (t : jsarray (option input)) : keeps t t.
Proof. split; eauto. Qed.

Lemma keeps_trans (t1 t2 t3 : jsarray (option input)) :
  keeps t1 t2 -> keeps t2 t3 -> keeps t1 t3.
Proof.
  intros [Ha1 Hb1] [Ha2 Hb2]. split; [eauto|].
  intros k i Hi. destruct (Hb1 k i Hi) as (i' & Hi' & E').
  destruct (Hb2 k i' Hi') as (i'' & Hi'' & E''). exists i''. split; [done | congruence].
Qed.

Lemma array_set_keeps (t : jsarray (option input)) index i' :
  (forall i, mjoin (array_get t index) = Some i -> hashType i' = hashType i) ->
  keeps t (array_set t index (Some i')).
Proof.
  intros Hsame. split.
  - intros k [[_ [=]] | [_ [H | [=]]]]%array_set_lookup_inv. exact H.
  - intros k i Hi. destruct (decide (k = index)) as [->|Hne].
    + exists i'. rewrite array_set_lookup_eq. split; [done|].
      apply Hsame. unfold array_get. by rewrite Hi.
    + exists i. split; [|done]. by apply array_set_lookup_ne.
Qed.

Lemma sign_slot_keeps index privKey hash i b :
  (forall i0, signatures_at b index = Some i0 -> hashType i = hashType i0) ->
  keeps (txb_signatures b) (txb_signatures (snd (sign_slot index privKey hash i b))).
Proof.
  intros Hsame. unfold sign_slot.
  destruct (some_pubKey _ _ _) as [k|]; [|apply keeps_refl].
  destruct (array_get (signatures i) k); [apply keeps_refl|].
  simpl. apply array_set_keeps. exact Hsame.
Qed.

Lemma sign_keeps index privKey rs ht b :
  keeps (txb_signatures b) (txb_signatures (snd (sign index privKey rs ht b))).
Proof.
  unfold sign. destruct (assert _ _); [|apply keeps_refl].
  destruct (sign_resolve _ _ _ _ _) as [[[[pos pot] st] hash]|]; [|apply keeps_refl].
  destruct (sign_prepare _ _ _ _ _ _ _ _) as [[i|e] b1] eqn:Hprep.
  - apply sign_prepare_Ok in Hprep as [(Hi & -> & _) | (Hnone & Hnew & ->)].
    + apply sign_slot_keeps. intros i0. rewrite Hi. by intros [= ->].
    + eapply keeps_trans.
      * apply (array_set_keeps _ index i). unfold signatures_at in Hnone.
        intros i0. rewrite Hnone. discriminate.
      * apply (sign_slot_keeps index privKey hash i (mkBuilder _ _ _ _ _)).
        intros i0 Hi0.
        change (mjoin (array_get (array_set (txb_signatures b) index (Some i)) index)
                = Some i0) in Hi0.
        rewrite array_get_set_eq in Hi0. by injection Hi0 as ->.
  - apply sign_prepare_Err in Hprep as ->. apply keeps_refl.
Qed.

Lemma addInput_table prevTx index sequence prevOutScript b :
  txb_signatures (snd (addInput prevTx index sequence prevOutScript b)) = txb_signatures b.
Proof.
  unfold addInput. destruct (addInput_checks _ _ _ _) as [[[[h s] t] key]|]; [|done].
  by destruct (Transaction_addInput _ _ _ _).
Qed.

Lemma addOutput_table scriptPubKey value b :
  txb_signatures (snd (addOutput scriptPubKey value b)) = txb_signatures b.
Proof.
  unfold addOutput. destruct (bind _ _); [|done].
  by destruct (Transaction_addOutput _ _ _).
Qed.

Lemma step_keeps b b' : step b b' -> keeps (txb_signatures b) (txb_signatures b').
Proof.
  destruct 1.
  - rewrite addInput_table. apply keeps_refl.
  - rewrite addOutput_table. apply keeps_refl.
  - apply sign_keeps.
Qed.

Lemma steps_keep b b' : rtc step b b' -> keeps (txb_signatures b) (txb_signatures b').
Proof.
  induction 1 as [|b1 b2 b3 H12 _ IH]; [apply keeps_refl|].
  eapply keeps_trans; [by apply step_keeps | exact IH].
Qed.

(** ** addInput and addOutput *)

Lemma resolve_prevTx_Err prevTx index prevOutScript e :
  resolve_prevTx prevTx index prevOutScript = Err e -> e = TypeError \/ e = CollaboratorError.
Proof.
  destruct prevTx as [hex|t|h]; simpl; [| |discriminate].
  - intros [[_ ->]%calling_Err | (? & _ & [=])]%bind_Err. auto.
  - intros [[_ ->]%deref_Err | (? & _ & [=])]%bind_Err. auto.
Qed.

(** The three ways through lines 116-138. *)
Lemma addInput_checks_cases prevTx index prevOutScript b :
  (exists e, resolve_prevTx prevTx index prevOutScript = Err e /\
     (e = TypeError \/ e = CollaboratorError) /\
     addInput_checks prevTx index prevOutScript b = Err e)
  \/
  (exists h s, resolve_prevTx prevTx index prevOutScript = Ok (h, Some s) /\
     classifyOutput s = nonstandard /\
     addInput_checks prevTx index prevOutScript b = Err prevOutScript_not_supported_nonstandard)
  \/
  (exists h s, resolve_prevTx prevTx index prevOutScript = Ok (h, s) /\
     (forall s', s = Some s' -> classifyOutput s' <> nonstandard) /\
     addInput_checks prevTx index prevOutScript b =
       (ok <- every anyone_can_pay (txb_signatures b) ;;
        _ <- assert ok this_would_invalidate_signatures ;;
        _ <- assert (negb (bool_decide (is_Some (prevOutMap b !! prevOut_key h index))))
               transaction_is_already_an_input ;;
        Ok (h, s, classifyOutput <$> s, prevOut_key h index))).
Proof.
  destruct (resolve_prevTx prevTx index prevOutScript) as [[h s]|e] eqn:Hres.
  - destruct s as [s|].
    + destruct (decide (classifyOutput s = nonstandard)) as [Hns|Hns].
      * right. left. exists h, s. split; [done|]. split; [done|].
        by eapply addInput_checks_nonstandard.
      * right. right. exists h, (Some s). split; [done|].
        assert (forall s', Some s = Some s' -> classifyOutput s' <> nonstandard) as Hstd
          by (by intros s' [= <-]).
        split; [done|]. by apply addInput_checks_resolved.
    + right. right. exists h, None. split; [done|].
      split; [discriminate|]. by apply addInput_checks_resolved.
  - left. exists e. split; [done|]. split; [by eapply resolve_prevTx_Err|].
    unfold addInput_checks. by rewrite Hres.
Qed.

(** When the guard of line 140 does not return true, [addInput] fails,
    whatever its arguments. *)
Lemma addInput_blocked prevTx index sequence prevOutScript b :
  every anyone_can_pay (txb_signatures b) <> Ok true ->
  exists e,
    addInput prevTx index sequence prevOutScript b = (Err e, b) /\
    (e = this_would_invalidate_signatures \/ e = prevOutScript_not_supported_nonstandard \/
     e = TypeError \/ e = CollaboratorError) /\
    (forall h s, resolve_prevTx prevTx index prevOutScript = Ok (h, s) ->
       (forall s', s = Some s' -> classifyOutput s' <> nonstandard) ->
       (every anyone_can_pay (txb_signatures b) = Ok false /\
        e = this_would_invalidate_signatures)
       \/
       (every anyone_can_pay (txb_signatures b) = Err TypeError /\ e = TypeError)).
Proof.
  intros Hguard.
  destruct (addInput_checks_cases prevTx index prevOutScript b)
    as [(e & Hres & He & Hc) | [(h & s & Hres & Hns & Hc) | (h & s & Hres & Hstd & Hc)]].
  - exists e. split; [by apply addInput_checks_Err|]. split; [tauto|].
    intros h s Hres'. rewrite Hres in Hres'. discriminate.
  - exists prevOutScript_not_supported_nonstandard.
    split; [by apply addInput_checks_Err|]. split; [tauto|].
    intros h' s' Hres'. rewrite Hres in Hres'. injection Hres' as <- <-.
    intros Hstd. exfalso. by apply (Hstd s).
  - destruct (every_cases anyone_can_pay (txb_signatures b)) as [E | [E | E]]; [done| |].
    + exists this_would_invalidate_signatures. rewrite E in Hc. simpl in Hc.
      split; [by apply addInput_checks_Err|]. split; [tauto|]. auto.
    + exists TypeError. rewrite E in Hc. simpl in Hc.
      split; [by apply addInput_checks_Err|]. split; [tauto|]. auto.
Qed.

(** The same for [addOutput] and the guard of line 156. *)
Lemma addOutput_blocked scriptPubKey value b :
  every sighash_single (txb_signatures b) <> Ok true ->
  (every sighash_single (txb_signatures b) = Ok false /\
   addOutput scriptPubKey value b = (Err this_would_invalidate_signatures, b))
  \/
  (every sighash_single (txb_signatures b) = Err TypeError /\
   addOutput scriptPubKey value b = (Err TypeError, b)).
Proof.
  intros Hguard. unfold addOutput.
  destruct (every_cases sighash_single (txb_signatures b)) as [E | [E | E]]; [done| |];
    rewrite E; simpl; auto.
Qed.

(** C4, as amended.  Take a builder whose metadata table holds no
    [undefined] element, and any later state of it.  If an entry's hash
    type lacks SIGHASH_ANYONECANPAY, every [addInput] fails and leaves
    the builder as it is: with 'No, this would invalidate signatures'
    (StateConflict) when the reference resolves and the known locking
    script is not nonstandard, and with the failure of the earlier step
    otherwise: 'PrevOutScript not supported (nonstandard)'
    (UnsupportedScript) for a nonstandard known locking script, the
    failure of the resolution for a reference that does not resolve.  If
    an entry's hash type has low bits other than SIGHASH_SINGLE, every
    [addOutput] fails with 'No, this would invalidate signatures'. *)
Theorem hashType_guards b b' :
  (forall k, txb_signatures b !! k <> Some (Some None)) ->
  rtc step b b' ->
  (forall k i,
     txb_signatures b !! k = Some (Some (Some i)) ->
     Z.land (hashType i) SIGHASH_ANYONECANPAY = 0 ->
     forall prevTx index sequence prevOutScript,
     exists e,
       addInput prevTx index sequence prevOutScript b' = (Err e, b') /\
       (e = this_would_invalidate_signatures \/ e = prevOutScript_not_supported_nonstandard \/
        e = TypeError \/ e = CollaboratorError) /\
       (forall h s, resolve_prevTx prevTx index prevOutScript = Ok (h, s) ->
          (forall s', s = Some s' -> classifyOutput s' <> nonstandard) ->
          e = this_would_invalidate_signatures /\ kind_of e = Some StateConflict) /\
       (forall h s, resolve_prevTx prevTx index prevOutScript = Ok (h, Some s) ->
          classifyOutput s = nonstandard ->
          e = prevOutScript_not_supported_nonstandard /\
          kind_of e = Some UnsupportedScript) /\
       (forall e0, resolve_prevTx prevTx index prevOutScript = Err e0 -> e = e0))
  /\
  (forall k i,
     txb_signatures b !! k = Some (Some (Some i)) ->
     Z.land (hashType i) 31 <> SIGHASH_SINGLE ->
     forall scriptPubKey value,
       addOutput scriptPubKey value b' = (Err this_would_invalidate_signatures, b') /\
       kind_of this_would_invalidate_signatures = Some StateConflict).
Proof.
  intros Hno Hsteps. apply steps_keep in Hsteps as [Hundef Hentries].
  assert (forall k, txb_signatures b' !! k <> Some (Some None)) as Hno'
    by (intros k Hk; exact (Hno k (Hundef k Hk))).
  split.
  - intros k i Hi Hflag prevTx index sequence prevOutScript.
    destruct (Hentries k i Hi) as (i' & Hi' & Hht).
    assert (anyone_can_pay i' = false) as Hf
      by (apply anyone_can_pay_false; by rewrite Hht).
    destruct (addInput_blocked prevTx index sequence prevOutScript b'
                (every_entry_false _ _ _ _ Hi' Hf)) as (e & Hadd & He & Hres).
    exists e. split; [done|]. split; [done|]. split; [|split].
    + intros h s Hr Hstd. destruct (Hres h s Hr Hstd) as [[_ ->] | [E _]]; [done|].
      by apply every_no_absent in E.
    + intros h s Hr Hns.
      pose proof (addInput_checks_nonstandard _ _ _ b' _ _ Hr Hns) as Hc.
      apply addInput_checks_Err in Hc as [_ Hc]. rewrite (Hc sequence) in Hadd.
      by injection Hadd as <-.
    + intros e0 Hr.
      pose proof (addInput_checks_unresolved _ _ _ b' _ Hr) as Hc.
      apply addInput_checks_Err in Hc as [_ Hc]. rewrite (Hc sequence) in Hadd.
      by injection Hadd as <-.
  - intros k i Hi Hflag scriptPubKey value.
    destruct (Hentries k i Hi) as (i' & Hi' & Hht).
    assert (sighash_single i' = false) as Hf
      by (apply sighash_single_false; by rewrite Hht).
    destruct (addOutput_blocked scriptPubKey value b'
                (every_entry_false _ _ _ _ Hi' Hf)) as [[_ ->] | [E _]]; [done|].
    by apply every_no_absent in E.
Qed.

(** A successful [addInput] records its previous output; this is how a
    pair comes to be in the registry. *)
Lemma addInput_records prevTx index sequence prevOutScript b vout b' prevOutHash s :
  addInput prevTx index sequence prevOutScript b = (Ok vout, b') ->
  resolve_prevTx prevTx index prevOutScript = Ok (prevOutHash, s) ->
  prevOutMap b' !! prevOut_key prevOutHash index = Some true /\
  vout = length (ins (tx b)) /\
  prevOutScript_at b' vout = s.
Proof.
  unfold addInput. intros H Hres.
  destruct (addInput_checks prevTx index prevOutScript b) as [[[[h s0] t0] key]|] eqn:Hc;
    [|discriminate].
  destruct (addInput_checks_cases prevTx index prevOutScript b)
    as [(e & _ & _ & Hc') | [(h' & s' & _ & _ & Hc') | (h' & s' & Hres' & _ & Hc')]];
    rewrite Hc in Hc'; try discriminate.
  rewrite Hres in Hres'. injection Hres' as <- <-.
  symmetry in Hc'. apply bind_Ok in Hc' as (? & _ & Hc').
  apply bind_Ok in Hc' as (? & _ & Hc'). apply bind_Ok in Hc' as (? & _ & Hc').
  injection Hc' as ? ? ? ?; subst.
  simpl in H. injection H as <- <-. cbn [prevOutMap tx ins].
  rewrite lookup_insert_eq. split; [done|]. split; [done|].
  unfold prevOutScript_at. cbn [prevOutScripts]. by rewrite lookup_insert_eq.
Qed.

(** C9, as amended.  Re-adding a previous output that is in the registry
    fails and leaves the builder as it is.  The failure is a
    StateConflict (lines 140-145) unless line 137 rejects a nonstandard
    known locking script first; this is stated for a metadata table
    without [undefined] elements. *)
Theorem addInput_duplicate prevTx index sequence prevOutScript b prevOutHash s :
  resolve_prevTx prevTx index prevOutScript = Ok (prevOutHash, s) ->
  is_Some (prevOutMap b !! prevOut_key prevOutHash index) ->
  exists e,
    addInput prevTx index sequence prevOutScript b = (Err e, b) /\
    (e = transaction_is_already_an_input \/ e = this_would_invalidate_signatures \/
     e = prevOutScript_not_supported_nonstandard \/ e = TypeError) /\
    ((forall s', s = Some s' -> classifyOutput s' = nonstandard ->
        e = prevOutScript_not_supported_nonstandard /\ kind_of e = Some UnsupportedScript)) /\
    ((forall s', s = Some s' -> classifyOutput s' <> nonstandard) ->
     (forall k, txb_signatures b !! k <> Some (Some None)) ->
     (e = transaction_is_already_an_input \/ e = this_would_invalidate_signatures) /\
     kind_of e = Some StateConflict).
Proof.
  intros Hres Hin.
  destruct (addInput_checks_cases prevTx index prevOutScript b)
    as [(e & Hres' & _) | [(h & s0 & Hres' & Hns & Hc) | (h & s0 & Hres' & Hstd & Hc)]];
    rewrite Hres in Hres'; [discriminate | |]; injection Hres' as ? ?; subst.
  - exists prevOutScript_not_supported_nonstandard.
    split; [by apply addInput_checks_Err|]. split; [tauto|]. split; [done|].
    intros Hstd. exfalso. by apply (Hstd s0).
  - assert (forall s', s0 = Some s' -> classifyOutput s' = nonstandard -> False) as Hnever
      by (intros s' Hs' Hns; by apply (Hstd s' Hs')).
    destruct (every_cases anyone_can_pay (txb_signatures b)) as [E | [E | E]];
      rewrite E in Hc; simpl in Hc.
    + rewrite bool_decide_eq_true_2 in Hc by done. simpl in Hc.
      exists transaction_is_already_an_input.
      split; [by apply addInput_checks_Err|]. split; [tauto|].
      split; [intros s' Hs' Hns; destruct (Hnever s' Hs' Hns) | auto].
    + exists this_would_invalidate_signatures.
      split; [by apply addInput_checks_Err|]. split; [tauto|].
      split; [intros s' Hs' Hns; destruct (Hnever s' Hs' Hns) | auto].
    + exists TypeError.
      split; [by apply addInput_checks_Err|]. split; [tauto|].
      split; [intros s' Hs' Hns; destruct (Hnever s' Hs' Hns)|].
      intros _ Hno. by apply every_no_absent in E.
Qed.

(** ** fromTransaction *)

Lemma fromTransaction_Ok transaction b :
  fromTransaction transaction = Ok b ->
  exists sigs, mapM import_signature (ins transaction) = Ok sigs /\
    txb_signatures b = map Some sigs.
Proof.
  unfold fromTransaction. intros H.
  apply bind_Ok in H as (b1 & _ & H). apply bind_Ok in H as (b2 & _ & H).
  apply bind_Ok in H as (sigs & Hsigs & [= <-]). eauto.
Qed.

Lemma import_signature_coinbase txIn :
  all_zero (in_hash txIn) = true -> import_signature txIn = Err coinbase_inputs_not_supported.
Proof. intros H. unfold import_signature. by rewrite H. Qed.

Lemma import_signature_empty txIn o :
  buffer (in_script txIn) = [] -> import_signature txIn = Ok o -> o = None.
Proof.
  intros Hempty. unfold import_signature. rewrite Hempty. simpl.
  destruct (assert _ _); simpl; [by intros [= <-] | discriminate].
Qed.

(** A builder with an [undefined] element in its metadata table: both
    guards fail, by throwing when every object before the element
    passes, by their assertion when an object fails with no [undefined]
    element before it. *)
Lemma absent_entry_blocks b k :
  txb_signatures b !! k = Some (Some None) ->
  (forall scriptPubKey value,
     exists e, addOutput scriptPubKey value b = (Err e, b) /\
       (e = TypeError \/ e = this_would_invalidate_signatures) /\
       ((forall j i, (j < k)%nat -> txb_signatures b !! j = Some (Some (Some i)) ->
           sighash_single i = true) -> e = TypeError) /\
       (forall j i, txb_signatures b !! j = Some (Some (Some i)) ->
          sighash_single i = false ->
          (forall j', (j' < j)%nat -> txb_signatures b !! j' <> Some (Some None)) ->
          e = this_would_invalidate_signatures))
  /\
  (forall prevTx index sequence prevOutScript,
     exists e, addInput prevTx index sequence prevOutScript b = (Err e, b) /\
       (forall h s, resolve_prevTx prevTx index prevOutScript = Ok (h, s) ->
          (forall s', s = Some s' -> classifyOutput s' <> nonstandard) ->
          (e = TypeError \/ e = this_would_invalidate_signatures) /\
          ((forall j i, (j < k)%nat -> txb_signatures b !! j = Some (Some (Some i)) ->
              anyone_can_pay i = true) -> e = TypeError) /\
          (forall j i, txb_signatures b !! j = Some (Some (Some i)) ->
             anyone_can_pay i = false ->
             (forall j', (j' < j)%nat -> txb_signatures b !! j' <> Some (Some None)) ->
             e = this_would_invalidate_signatures))).
Proof.
  intros Hk. split.
  - intros scriptPubKey value.
    destruct (addOutput_blocked scriptPubKey value b (every_absent _ _ _ Hk))
      as [[E ->] | [E ->]].
    + exists this_would_invalidate_signatures. split; [done|]. split; [tauto|].
      split; [|done].
      intros Hbefore. rewrite (every_throws _ _ _ Hk Hbefore) in E. discriminate.
    + exists TypeError. split; [done|]. split; [tauto|]. split; [done|].
      intros j i Hj Hf Hno. rewrite (every_stops _ _ _ _ Hj Hf Hno) in E. discriminate.
  - intros prevTx index sequence prevOutScript.
    destruct (addInput_blocked prevTx index sequence prevOutScript b (every_absent _ _ _ Hk))
      as (e & Hadd & _ & Hres).
    exists e. split; [done|]. intros h s Hr Hstd.
    destruct (Hres h s Hr Hstd) as [[E ->] | [E ->]].
    + split; [tauto|]. split; [|done]. intros Hbefore.
      rewrite (every_throws _ _ _ Hk Hbefore) in E. discriminate.
    + split; [tauto|]. split; [done|].
      intros j i Hj Hf Hno. rewrite (every_stops _ _ _ _ Hj Hf Hno) in E. discriminate.
Qed.

(** C10, as amended.  When the import of a transaction succeeds, every
    input with an empty script has the value [undefined] at its index of
    the metadata table.  On a builder with such an element [addOutput]
    and [addInput] always fail and leave the builder as it is: with a
    TypeError when every object before the element passes the guard (so
    also when every object of the table does), and with 'No, this would
    invalidate signatures' when an object fails the guard and no
    [undefined] element comes before that object (so whenever an object
    before the first [undefined] element fails it), because [every]
    stops there and never reads the [undefined] element.  For [addInput]
    this is after lines 116-138 have passed. *)
Theorem import_leaves_undefined transaction b :
  fromTransaction transaction = Ok b ->
  (forall k txIn,
     ins transaction !! k = Some txIn -> buffer (in_script txIn) = [] ->
     txb_signatures b !! k = Some (Some None))
  /\
  (forall k,
     txb_signatures b !! k = Some (Some None) ->
     (forall scriptPubKey value,
        exists e, addOutput scriptPubKey value b = (Err e, b) /\
          (e = TypeError \/ e = this_would_invalidate_signatures) /\
          ((forall j i, (j < k)%nat -> txb_signatures b !! j = Some (Some (Some i)) ->
              sighash_single i = true) -> e = TypeError) /\
          (forall j i, txb_signatures b !! j = Some (Some (Some i)) ->
             sighash_single i = false ->
             (forall j', (j' < j)%nat -> txb_signatures b !! j' <> Some (Some None)) ->
             e = this_would_invalidate_signatures))
     /\
     (forall prevTx index sequence prevOutScript,
        exists e, addInput prevTx index sequence prevOutScript b = (Err e, b) /\
          (forall h s, resolve_prevTx prevTx index prevOutScript = Ok (h, s) ->
             (forall s', s = Some s' -> classifyOutput s' <> nonstandard) ->
             (e = TypeError \/ e = this_would_invalidate_signatures) /\
             ((forall j i, (j < k)%nat -> txb_signatures b !! j = Some (Some (Some i)) ->
                 anyone_can_pay i = true) -> e = TypeError) /\
             (forall j i, txb_signatures b !! j = Some (Some (Some i)) ->
                anyone_can_pay i = false ->
                (forall j', (j' < j)%nat -> txb_signatures b !! j' <> Some (Some None)) ->
                e = this_would_invalidate_signatures)))).
Proof.
  intros Himport. split.
  - intros k txIn Hk Hempty.
    apply fromTransaction_Ok in Himport as (sigs & Hsigs & ->).
    destruct (mapM_Ok_lookup _ _ _ Hsigs k txIn Hk) as (o & Ho & Hlookup).
    apply (import_signature_empty _ _ Hempty) in Ho as ->.
    rewrite list_lookup_fmap, Hlookup. reflexivity.
  - intros k Hk. by apply absent_entry_blocks.
Qed.

(** C2, as amended.  The import paths reject an input whose
    previous-output hash is all zero: [extractSignature] fails with
    'coinbase inputs not supported', and [fromTransaction] fails on every
    transaction that has such an input.  [addInput] has no such check: on
    a new builder it accepts any raw hash. *)
Theorem coinbase_rejected_on_import :
  (forall txIn,
     all_zero (in_hash txIn) = true ->
     extractSignature txIn = Err coinbase_inputs_not_supported /\
     kind_of coinbase_inputs_not_supported = Some UnsupportedScript)
  /\
  (forall transaction txIn,
     txIn ∈ ins transaction -> all_zero (in_hash txIn) = true ->
     exists e, fromTransaction transaction = Err e)
  /\
  (forall hash index sequence,
     fst (addInput (PrevOutHash hash) index sequence None new_TransactionBuilder) = Ok 0%nat).
Proof.
  split; [|split].
  - intros txIn Hzero. unfold extractSignature. by rewrite Hzero.
  - intros transaction txIn Hin Hzero.
    destruct (fromTransaction transaction) as [b|e] eqn:Himport; [|eauto].
    exfalso. apply fromTransaction_Ok in Himport as (sigs & Hsigs & _).
    destruct (mapM_Ok_each _ _ _ Hsigs txIn Hin) as (o & Ho).
    rewrite (import_signature_coinbase _ Hzero) in Ho. discriminate.
  - intros hash index sequence. unfold addInput, addInput_checks. simpl.
    rewrite lookup_empty. reflexivity.
Qed.

(** ** sign on an index that already has metadata *)


(** ** extractSignature on a pay-to-script-hash unlocking script *)

(** C7.  The unlocking script classifies as scripthash, and its last
    chunk parses as the redeem script [rs].  The rest of the chunks,
    made a script again, is classified as an unlocking script; if
    classifying [rs] as a locking script gives another kind the
    extraction fails ('Non-matching scriptSig and scriptPubKey in input'
    once the coinbase check is passed), and if it gives the same kind
    every metadata object the extraction returns carries that kind and
    [rs].  For each of the three supported kinds the extraction does
    return, given that the signature and key chunks parse. *)
Theorem extractSignature_scripthash txIn rs :
  classifyInput (in_script txIn) = scripthash ->
  Script_fromBuffer (slice_m1_0 (chunks (in_script txIn))) = Some rs ->
  let inner := Script_fromChunks (slice_0_m1 (chunks (in_script txIn))) in
  (classifyOutput rs <> classifyInput inner ->
   exists e, extractSignature txIn = Err e /\
     (all_zero (in_hash txIn) = false -> e = non_matching_scriptSig_and_scriptPubKey))
  /\
  (classifyOutput rs = classifyInput inner ->
   forall i, extractSignature txIn = Ok i ->
     scriptType i = classifyInput inner /\ redeemScript i = Some rs)
  /\
  (classifyOutput rs = classifyInput inner -> all_zero (in_hash txIn) = false ->
   (classifyInput inner = pubkeyhash ->
    forall s h k,
      parseScriptSignature (chunks inner !! 0%nat) = Some (s, h) ->
      ECPubKey_fromBuffer (chunks inner !! 1%nat) = Some k ->
      extractSignature txIn = Ok (mkInput h [k] (Some rs) pubkeyhash [Some s]))
   /\
   (classifyInput inner = pubkey ->
    forall s h k,
      parseScriptSignature (chunks inner !! 0%nat) = Some (s, h) ->
      ECPubKey_fromBuffer (chunks rs !! 0%nat) = Some k ->
      extractSignature txIn = Ok (mkInput h [k] (Some rs) pubkey [Some s]))
   /\
   (classifyInput inner = multisig ->
    forall p parsed keys,
      mapM (fun c => calling (parseScriptSignature (Some c))) (slice_1 (chunks inner))
        = Ok (p :: parsed) ->
      mapM (fun c => calling (ECPubKey_fromBuffer (Some c))) (slice_1_m2 (chunks rs))
        = Ok keys ->
      extractSignature txIn =
        Ok (mkInput (snd p) keys (Some rs) multisig
              (map (fun q => Some (fst q)) (p :: parsed))))).
Proof.
  intros Hsh Hrs inner. unfold extractSignature.
  rewrite Hsh. destruct (decide (scripthash = scripthash)) as [_|Hne]; [|done].
  rewrite Hrs. cbn [calling bind]. fold inner.
  split; [|split].
  - intros Hne. rewrite (bool_decide_eq_false_2 _ Hne).
    destruct (all_zero (in_hash txIn)); simpl; eauto.
    eexists. split; [reflexivity|]. discriminate.
  - intros Heq i. rewrite (bool_decide_eq_true_2 _ Heq).
    destruct (all_zero (in_hash txIn)); simpl; [discriminate|].
    destruct (classifyInput inner); try discriminate.
    + intros (parsed & _ & H)%bind_Ok. apply bind_Ok in H as (k & _ & [= <-]). done.
    + intros (parsed & _ & H)%bind_Ok. apply bind_Ok in H as (k & _ & [= <-]). done.
    + intros (parsed & _ & H)%bind_Ok. apply bind_Ok in H as (p & _ & H).
      apply bind_Ok in H as (k & _ & [= <-]). done.
  - intros Heq Hzero. rewrite (bool_decide_eq_true_2 _ Heq), Hzero. simpl.
    split; [|split]; intros ->.
    + intros s h k -> ->. reflexivity.
    + intros s h k -> ->. reflexivity.
    + intros p parsed keys -> ->. reflexivity.
Qed.

(** ** One pay-to-pubkey-hash input: sign, build, extract *)

(** C3, as amended.  A new builder gets one input whose known locking
    script classifies as pubkeyhash, and one output; the input is signed
    with [privKey].  The collaborators are assumed to do their part: the
    digest is computed, the signature serialises, the assembled script
    classifies as pubkeyhash and its two chunks parse back to the
    signature with its hash type and to the public key.  Then the three
    calls succeed and [build] succeeds, whatever the previous-output
    hash.  When that hash is not all zero, [extractSignature] on the
    input of the built transaction returns metadata with exactly the
    public key of [privKey] and exactly one signature, the one [privKey]
    made; when it is all zero, [extractSignature] rejects the input that
    [addInput], [sign] and [build] have accepted, with 'coinbase inputs
    not supported' (line 19). *)
Theorem sign_build_extract prevTx index sequence prevOutScript_arg hash prevOutScript
    scriptPubKey value privKey ht digest sbuf scriptSig :
  let skeleton :=
    mkTransaction [mkTxIn hash index Script_EMPTY (default DEFAULT_SEQUENCE sequence)]
                  [mkTxOut scriptPubKey value] in
  resolve_prevTx prevTx index prevOutScript_arg = Ok (hash, Some prevOutScript) ->
  classifyOutput prevOutScript = pubkeyhash ->
  Q_equals (pub privKey) (pub privKey) = true ->
  hashForSignature skeleton 0 prevOutScript (hashType_or_ALL ht) = Some digest ->
  toScriptSignature (ECKey_sign privKey digest) (hashType_or_ALL ht) = Some sbuf ->
  pubKeyHashInput (Some sbuf) (Some (pub privKey)) = Some scriptSig ->
  classifyInput scriptSig = pubkeyhash ->
  parseScriptSignature (chunks scriptSig !! 0%nat)
    = Some (ECKey_sign privKey digest, hashType_or_ALL ht) ->
  ECPubKey_fromBuffer (chunks scriptSig !! 1%nat) = Some (pub privKey) ->
  let r1 := addInput prevTx index sequence prevOutScript_arg new_TransactionBuilder in
  let r2 := addOutput scriptPubKey value (snd r1) in
  let r3 := sign 0 privKey None ht (snd r2) in
  fst r1 = Ok 0%nat /\ fst r2 = Ok 0%nat /\ fst r3 = Ok tt /\
  exists txIn,
    build (snd r3) = Ok (mkTransaction [txIn] [mkTxOut scriptPubKey value]) /\
    in_hash txIn = hash /\ in_index txIn = index /\ in_script txIn = scriptSig /\
    extractSignature txIn =
      if all_zero hash
      then Err coinbase_inputs_not_supported
      else Ok (mkInput (hashType_or_ALL ht) [pub privKey] None pubkeyhash
                 [Some (ECKey_sign privKey digest)]).
Proof.
  intros skeleton Hres Hkind Hrefl Hdigest Hser Hasm Hcls Hparse Hkey.
  assert (forall s', Some prevOutScript = Some s' -> classifyOutput s' <> nonstandard) as Hstd.
  { intros s' [= <-]. rewrite Hkind. discriminate. }
  assert (addInput prevTx index sequence prevOutScript_arg new_TransactionBuilder =
          (Ok 0%nat,
           mkBuilder (<[prevOut_key hash index := true]> ∅)
                     (<[0%nat := Some prevOutScript]> ∅)
                     (<[0%nat := Some pubkeyhash]> ∅)
                     []
                     (mkTransaction
                        [mkTxIn hash index Script_EMPTY (default DEFAULT_SEQUENCE sequence)]
                        []))) as H1.
  { unfold addInput. rewrite (addInput_checks_resolved _ _ _ _ _ _ Hres Hstd).
    cbn [new_TransactionBuilder txb_signatures prevOutMap every bind assert].
    rewrite lookup_empty. cbn. by rewrite Hkind. }
  intros r1 r2 r3. subst r1 r2 r3. rewrite H1. cbn [snd fst].
  set (b1 := mkBuilder _ _ _ _ _).
  assert (addOutput scriptPubKey value b1 =
          (Ok 0%nat,
           mkBuilder (prevOutMap b1) (prevOutScripts b1) (prevOutTypes b1) [] skeleton)) as H2
    by reflexivity.
  rewrite H2. cbn [snd fst]. set (b2 := mkBuilder _ _ _ _ skeleton).
  set (i := mkInput (hashType_or_ALL ht) [pub privKey] None pubkeyhash
              [Some (ECKey_sign privKey digest)]).
  assert (sign 0 privKey None ht b2 =
          (Ok tt,
           mkBuilder (prevOutMap b2)
                     (<[0%nat := Some prevOutScript]> (prevOutScripts b2))
                     (<[0%nat := Some pubkeyhash]> (prevOutTypes b2))
                     [Some (Some i)] skeleton)) as H3.
  { unfold sign. cbn [b2 tx skeleton ins length Nat.leb assert].
    unfold sign_resolve, prevOutScript_at, prevOutType_at.
    cbn [b2 b1 prevOutScripts prevOutTypes tx]. rewrite !lookup_insert_eq.
    cbn [mjoin default option_join bool_decide negb assert bind].
    unfold id. fold skeleton. rewrite Hdigest. cbn [calling bind bool_decide negb assert].
    unfold sign_prepare, signatures_at, sign_slot. cbn. rewrite Hrefl. reflexivity. }
  rewrite H3. cbn [snd fst].
  do 3 (split; [reflexivity|]).
  exists (mkTxIn hash index scriptSig (default DEFAULT_SEQUENCE sequence)).
  split.
  { unfold build, __build, i. cbn. unfold build_scriptSig. cbn.
    rewrite Hser. cbn. rewrite Hasm. reflexivity. }
  do 3 (split; [reflexivity|]).
  unfold extractSignature. cbn [in_hash in_script].
  destruct (all_zero hash) eqn:Hzero; [reflexivity|]. rewrite Hcls.
  destruct (decide (pubkeyhash = scripthash)) as [?|_]; [discriminate|].
  cbn [negb assert bind]. rewrite Hparse. cbn [calling bind]. rewrite Hkey. reflexivity.
Qed.

(** ** build and buildIncomplete *)

(** The four assertions of lines 173-176 compare lengths; the length of
    [this.signatures] counts its holes. *)
Lemma build_length_checks b :
  (length (ins (tx b)) = 0%nat \/ length (outs (tx b)) = 0%nat \/
   length (txb_signatures b) = 0%nat \/
   length (txb_signatures b) <> length (ins (tx b))) ->
  exists e, build b = Err e /\ kind_of e = Some Incomplete.
Proof.
  intros H. unfold build, __build.
  destruct (ins (tx b)) as [|txIn l] eqn:Hins; simpl; [eauto|].
  destruct (outs (tx b)) as [|txOut l'] eqn:Houts; simpl; [eauto|].
  destruct (txb_signatures b) as [|o t] eqn:Hsigs; simpl; [eauto|].
  destruct (Nat.eqb_spec (length t) (length l)) as [E|E]; simpl; [|eauto].
  exfalso. simpl in H. destruct H as [H | [H | [H | H]]]; try discriminate. lia.
Qed.

(** [buildIncomplete] skips them, and with an array of holes it returns
    the copy of the transaction as it is. *)
Lemma buildIncomplete_no_metadata b :
  (forall k, array_get (txb_signatures b) k = None) ->
  buildIncomplete b = Ok (tx b).
Proof.
  unfold buildIncomplete, __build, Transaction_clone. simpl.
  generalize (tx b) as t. generalize 0%nat as index.
  induction (txb_signatures b) as [|o a IH]; intros index t Hholes; [reflexivity|].
  destruct o as [o|].
  - specialize (Hholes 0%nat). discriminate.
  - simpl. apply IH. intros k. apply (Hholes (S k)).
Qed.

(** A hole below a signed index: strict mode accepts the table, the
    loop skips the hole, and the first input keeps the script it has. *)
Lemma build_skips_hole b txIn0 txIn1 i scriptSig :
  ins (tx b) = [txIn0; txIn1] ->
  outs (tx b) <> [] ->
  txb_signatures b = [None; Some (Some i)] ->
  build_scriptSig false i = Ok scriptSig ->
  build b =
    Ok (mkTransaction
          [txIn0; mkTxIn (in_hash txIn1) (in_index txIn1) scriptSig (in_sequence txIn1)]
          (outs (tx b))).
Proof.
  intros Hins Houts Htable Hscript. unfold build, __build, Transaction_clone.
  rewrite Hins, Htable. destruct (outs (tx b)) as [|txOut l] eqn:E; [done|].
  cbn. rewrite Hscript. cbn. unfold Transaction_setInputScript. rewrite Hins, E.
  reflexivity.
Qed.

(** [sign] never touches the transaction. *)
Lemma sign_tx index privKey rs ht b : tx (snd (sign index privKey rs ht b)) = tx b.
Proof.
  unfold sign. destruct (assert _ _); [|done].
  destruct (sign_resolve _ _ _ _ _) as [[[[pos pot] st] hash]|]; [|done].
  destruct (sign_prepare _ _ _ _ _ _ _ _) as [[i|e] b1] eqn:Hprep.
  - assert (tx b1 = tx b) as <-.
    { apply sign_prepare_Ok in Hprep as [(_ & -> & _) | (_ & _ & ->)]; reflexivity. }
    unfold sign_slot. destruct (some_pubKey _ _ _); [|done].
    by destruct (array_get _ _).
  - by apply sign_prepare_Err in Hprep as ->.
Qed.

(** The scripts of the builder's own transaction are the empty script. *)
Lemma step_scripts_empty b b' :
  step b b' ->
  Forall (fun txIn => in_script txIn = Script_EMPTY) (ins (tx b)) ->
  Forall (fun txIn => in_script txIn = Script_EMPTY) (ins (tx b')).
Proof.
  intros Hstep Hall. destruct Hstep as [prevTx index sequence s b|s v b|index k rs ht b].
  - unfold addInput. destruct (addInput_checks _ _ _ _) as [[[[h s0] t0] key]|]; [|done].
    simpl. apply Forall_app. split; [done|]. by constructor.
  - unfold addOutput. destruct (bind _ _); [|done]. done.
  - by rewrite sign_tx.
Qed.

End Facts.

(** * The builder at work on concrete transactions *)

Module Scenarios.
Import Fixture.
#[local] Existing Instance Fixture.collaborators.
Local Open Scope nat_scope.

(** The sample builders are what their names say. *)
Example b_signed_table :
  txb_signatures b_signed =
    [Some (Some (mkInput 1%Z [pub 1] None pubkeyhash
                   [Some (ECKey_sign 1 (x00 :: x01 :: buffer (p2pkh 1)))]))].
Proof. reflexivity. Qed.

Example b_p2sh_signed_by_1_table :
  txb_signatures b_p2sh_signed_by_1 =
    [Some (Some (mkInput 1%Z [pub 1; pub 2; pub 3] (Some redeem_2of3) multisig
                   [Some (ECKey_sign 1 (x00 :: x01 :: buffer redeem_2of3))]))].
Proof. reflexivity. Qed.

Example build_needs_two_of_three :
  buildIncomplete b_p2sh_signed_by_1 <> build b_p2sh_signed_by_1 /\
  build b_p2sh_signed_by_1 = Err CollaboratorError /\
  build b_p2sh_signed_by_1_2 = Ok tx_p2sh_signed /\
  fromTransaction tx_p2sh_signed = Ok (imported tx_p2sh_signed) /\
  txb_signatures (imported tx_p2sh_signed) = txb_signatures b_p2sh_signed_by_1_2.
Proof. repeat split; try reflexivity. discriminate. Qed.

(** Against C1 as stated: a failing call that has written. The input
    spends the script hash of the 2-of-3 script and has no metadata; key
    7 is not one of the three. The call fails, and afterwards the index
    has metadata. *)
Lemma failed_sign_has_written :
  fst (sign 0 7 (Some redeem_2of3) None b_p2sh_unsigned)
    = Err privateKey_cannot_sign_for_this_input /\
  signatures_at b_p2sh_unsigned 0 = None /\
  signatures_at (snd (sign 0 7 (Some redeem_2of3) None b_p2sh_unsigned)) 0
    = Some (mkInput 1%Z [pub 1; pub 2; pub 3] (Some redeem_2of3) multisig []) /\
  snd (sign 0 7 (Some redeem_2of3) None b_p2sh_unsigned) <> b_p2sh_unsigned.
Proof.
  repeat split; try reflexivity.
  intros H. apply (f_equal (fun b => signatures_at b 0)) in H. discriminate H.
Qed.

(** The same call under the theorem, and a failing call on an index that
    has metadata: cosigner 1 signs a second time. *)
Lemma sign_failure_state_witness :
  sign 0 7 (Some redeem_2of3) None b_p2sh_unsigned
    = (Err privateKey_cannot_sign_for_this_input,
       snd (sign 0 7 (Some redeem_2of3) None b_p2sh_unsigned)) /\
  prevOutMap (snd (sign 0 7 (Some redeem_2of3) None b_p2sh_unsigned))
    = prevOutMap b_p2sh_unsigned /\
  tx (snd (sign 0 7 (Some redeem_2of3) None b_p2sh_unsigned)) = tx b_p2sh_unsigned /\
  (exists i,
     signatures_at (snd (sign 0 7 (Some redeem_2of3) None b_p2sh_unsigned)) 0 = Some i /\
     signatures i = [] /\ redeemScript i = Some redeem_2of3) /\
  prevOutType_at (snd (sign 0 7 (Some redeem_2of3) None b_p2sh_unsigned)) 0
    = Some scripthash /\
  snd (sign 0 7 (Some redeem_2of3) None b_p2sh_unsigned) <> b_p2sh_unsigned /\
  snd (sign 0 1 (Some redeem_2of3) None b_p2sh_signed_by_1) = b_p2sh_signed_by_1.
Proof.
  split; [reflexivity|].
  destruct (sign_failure_state (C := collaborators) 0 7 (Some redeem_2of3) None
              b_p2sh_unsigned _ _ eq_refl)
    as (Hmap & Htx & _ & Hwritten).
  destruct (Hwritten eq_refl eq_refl)
    as (i & pos & pot & _ & Hpot & Hsigs & _ & Hrs & _ & _ & _ & Hstored & _ & Hcached & Hne).
  split; [exact Hmap|]. split; [exact Htx|].
  split; [exists i; split; [exact Hstored | split; [exact Hsigs | exact Hrs]]|].
  rewrite Hpot in Hcached. split; [exact Hcached|]. split; [exact Hne|].
  destruct (sign_failure_state (C := collaborators) 0 1 (Some redeem_2of3) None
              b_p2sh_signed_by_1 _ _ eq_refl)
    as (_ & _ & Hsame & _).
  apply Hsame. left. eexists. reflexivity.
Defined.

(** Against C2 as stated: [addInput] accepts a previous-output hash of
    zero bytes. *)
Lemma addInput_accepts_zero_hash :
  all_zero zero_hash = true /\
  fst (addInput (PrevOutHash zero_hash) 0 None None new_TransactionBuilder) = Ok 0 /\
  map in_hash
      (ins (tx (snd (addInput (PrevOutHash zero_hash) 0 None None new_TransactionBuilder))))
    = [zero_hash].
Proof. repeat split. Qed.

Lemma coinbase_rejected_on_import_witness :
  all_zero (in_hash coinbase_txIn) = true /\
  extractSignature coinbase_txIn = Err coinbase_inputs_not_supported /\
  exists e, fromTransaction tx_coinbase = Err e.
Proof.
  destruct (coinbase_rejected_on_import (C := collaborators)) as (Hextract & Himport & _).
  split; [reflexivity|]. split.
  - apply (Hextract coinbase_txIn). reflexivity.
  - apply (Himport tx_coinbase coinbase_txIn); [apply list_elem_of_here | reflexivity].
Defined.

(** Against C3 as stated: the previous-output hash is all zero.  The
    input is added, the output is added, key 1 signs, [build] returns a
    transaction, and [extractSignature] rejects its input. *)
Lemma built_zero_hash_input_rejected :
  all_zero zero_hash = true /\
  classifyOutput (p2pkh 1) = pubkeyhash /\
  fst (addInput (PrevOutHash zero_hash) 0 None (Some (p2pkh 1)) new_TransactionBuilder)
    = Ok 0 /\
  fst (addOutput an_output 1000 b_zero_one_input) = Ok 0 /\
  fst (sign 0 1 None None b_zero_unsigned) = Ok tt /\
  exists txIn,
    build b_zero_signed = Ok (mkTransaction [txIn] [mkTxOut an_output 1000]) /\
    in_hash txIn = zero_hash /\
    classifyInput (in_script txIn) = pubkeyhash /\
    extractSignature txIn = Err coinbase_inputs_not_supported.
Proof. do 5 (split; [reflexivity|]). eexists. repeat split. Qed.

(** The round trip on the sample input. *)
Lemma sign_build_extract_witness :
  exists txIn,
    build b_signed = Ok (mkTransaction [txIn] [mkTxOut an_output 1000]) /\
    extractSignature txIn =
      Ok (mkInput 1%Z [pub 1] None pubkeyhash
            [Some (ECKey_sign 1 (x00 :: x01 :: buffer (p2pkh 1)))]).
Proof.
  destruct (sign_build_extract (C := collaborators) (PrevOutHash hashA) 0 None (Some (p2pkh 1)) hashA (p2pkh 1)
              an_output 1000 1 None _ _ _
              eq_refl eq_refl eq_refl eq_refl eq_refl eq_refl eq_refl eq_refl eq_refl)
    as (_ & _ & _ & txIn & Hbuild & _ & _ & _ & Hextract).
  exists txIn. split; [exact Hbuild | exact Hextract].
Defined.

(** Against C4 as stated: the input is signed with SIGHASH_ALL, so the
    guard of [addInput] would fail, but a nonstandard known locking
    script is rejected before the guard is reached. *)
Lemma addInput_nonstandard_before_guard :
  (exists i, txb_signatures b_signed !! 0 = Some (Some (Some i)) /\
     Z.land (hashType i) SIGHASH_ANYONECANPAY = 0%Z) /\
  classifyOutput a_nonstandard_script = nonstandard /\
  addInput (PrevOutHash hashB) 0 None (Some a_nonstandard_script) b_signed
    = (Err prevOutScript_not_supported_nonstandard, b_signed) /\
  kind_of prevOutScript_not_supported_nonstandard = Some UnsupportedScript.
Proof. split; [eexists; split; reflexivity | repeat split]. Qed.

Lemma hashType_guards_witness :
  addInput (PrevOutHash hashB) 0 None (Some (p2pkh 2)) b_signed
    = (Err this_would_invalidate_signatures, b_signed) /\
  addInput (PrevOutHash hashB) 0 None (Some a_nonstandard_script) b_signed
    = (Err prevOutScript_not_supported_nonstandard, b_signed) /\
  addOutput an_output 7 b_signed = (Err this_would_invalidate_signatures, b_signed).
Proof.
  assert (forall k, txb_signatures b_signed !! k <> Some (Some None)) as Hno.
  { intros [|[|k]]; discriminate. }
  destruct (hashType_guards (C := collaborators) b_signed b_signed Hno (rtc_refl _ _))
    as [Hin Hout].
  split; [|split].
  - destruct (Hin 0 _ eq_refl eq_refl (PrevOutHash hashB) 0 None (Some (p2pkh 2)))
      as (e & Hadd & _ & He & _).
    destruct (He hashB (Some (p2pkh 2)) eq_refl) as [-> _]; [|exact Hadd].
    intros s' [= <-]. discriminate.
  - destruct (Hin 0 _ eq_refl eq_refl (PrevOutHash hashB) 0 None (Some a_nonstandard_script))
      as (e & Hadd & _ & _ & He & _).
    destruct (He hashB a_nonstandard_script eq_refl eq_refl) as [-> _]. exact Hadd.
  - refine (proj1 (Hout 0 _ eq_refl _ an_output 7%Z)). discriminate.
Defined.



(** On a new builder the index 0 is past the last input, and the call
    gets as far as the digest computation. *)
Lemma sign_bounds_check_witness :
  sign 1 1 None None new_TransactionBuilder
    = (Err (no_input_at_index 1), new_TransactionBuilder) /\
  sign 0 1 None None new_TransactionBuilder = (Err CollaboratorError, new_TransactionBuilder) /\
  CollaboratorError <> no_input_at_index 0.
Proof.
  split; [|split].
  - apply (sign_bounds_check (C := collaborators) 1 1 None None new_TransactionBuilder).
    simpl. lia.
  - reflexivity.
  - exact (proj2 (sign_bounds_check (C := collaborators) 0 1 None None new_TransactionBuilder)
             eq_refl CollaboratorError new_TransactionBuilder eq_refl).
Defined.

(** The extraction on the input of the transaction signed by two
    cosigners. *)
Lemma extractSignature_scripthash_witness :
  exists txIn i,
    ins tx_p2sh_signed = [txIn] /\
    classifyInput (in_script txIn) = scripthash /\
    extractSignature txIn = Ok i /\
    scriptType i = multisig /\ redeemScript i = Some redeem_2of3 /\
    pubKeys i = [pub 1; pub 2; pub 3] /\ length (signatures i) = 2.
Proof.
  eexists. eexists. split; [reflexivity|]. split; [reflexivity|].
  match goal with
  | |- extractSignature ?t = _ /\ _ =>
      destruct (extractSignature_scripthash (C := collaborators) t redeem_2of3
                  eq_refl eq_refl) as (_ & _ & Hreturns)
  end.
  destruct (Hreturns eq_refl eq_refl) as (_ & _ & Hmulti).
  split; [exact (Hmulti eq_refl _ _ _ eq_refl eq_refl)|].
  repeat split.
Defined.

(** C8.  Two inputs, one output, and only the second input signed:
    [this.signatures] is a hole followed by one object, its length is 2,
    the four assertions of strict mode pass, and [build] returns a
    transaction whose first input has the empty script. *)
Theorem build_accepts_unsigned_input :
  length (ins (tx b_second_signed)) = 2 /\
  (exists i, txb_signatures b_second_signed = [None; Some (Some i)]) /\
  signatures_at b_second_signed 0 = None /\
  exists t txIn0 txIn1,
    build b_second_signed = Ok t /\
    ins t = [txIn0; txIn1] /\
    in_script txIn0 = Script_EMPTY /\
    classifyInput (in_script txIn1) = pubkeyhash.
Proof.
  split; [reflexivity|]. split; [eexists; reflexivity|]. split; [reflexivity|].
  do 3 eexists. repeat split.
Qed.

(** The same transaction imported before anything is signed: the table
    holds one [undefined] element, the length checks of strict mode
    pass, and both builds throw when they read it. *)
Example build_on_imported_unsigned :
  fromTransaction (tx b_unsigned) = Ok (imported (tx b_unsigned)) /\
  txb_signatures (imported (tx b_unsigned)) = [Some None] /\
  build (imported (tx b_unsigned)) = Err TypeError /\
  buildIncomplete (imported (tx b_unsigned)) = Err TypeError /\
  buildIncomplete b_unsigned = Ok (tx b_unsigned).
Proof. repeat split. Qed.

(** An imported transaction with an unsigned input can be completed:
    [sign] replaces the [undefined] element, and [build] goes through. *)
Example import_then_sign :
  fst (sign 1 2 None None (imported (tx_half_signed 1))) = Ok tt /\
  exists t txIn0 txIn1,
    build (snd (sign 1 2 None None (imported (tx_half_signed 1)))) = Ok t /\
    ins t = [txIn0; txIn1] /\
    classifyInput (in_script txIn0) = pubkeyhash /\
    classifyInput (in_script txIn1) = pubkeyhash.
Proof. split; [reflexivity|]. do 3 eexists. repeat split. Qed.

(** Against C9 as stated: the pair is in the registry, and the call that
    re-adds it passes a nonstandard locking script: line 137 fails
    first. *)
Lemma readd_with_nonstandard_script :
  prevOutMap b_one_input !! prevOut_key hashA 0 = Some true /\
  classifyOutput a_nonstandard_script = nonstandard /\
  addInput (PrevOutHash hashA) 0 None (Some a_nonstandard_script) b_one_input
    = (Err prevOutScript_not_supported_nonstandard, b_one_input) /\
  kind_of prevOutScript_not_supported_nonstandard = Some UnsupportedScript.
Proof. repeat split. Qed.

Lemma addInput_duplicate_witness :
  addInput (PrevOutHash hashA) 0 None None b_one_input
    = (Err transaction_is_already_an_input, b_one_input) /\
  kind_of transaction_is_already_an_input = Some StateConflict.
Proof.
  destruct (addInput_duplicate (C := collaborators) (PrevOutHash hashA) 0 None None
              b_one_input hashA None eq_refl (mk_is_Some _ _ eq_refl))
    as (e & Hadd & _ & _ & Hkind).
  assert (e = transaction_is_already_an_input) as ->.
  { assert (addInput (PrevOutHash hashA) 0 None None b_one_input
            = (Err transaction_is_already_an_input, b_one_input)) as H by reflexivity.
    rewrite H in Hadd. by injection Hadd as <-. }
  split; [exact Hadd|]. apply Hkind; [discriminate|].
  intros [|k]; discriminate.
Defined.

(** Against C10 as stated. The first input is signed with SIGHASH_ALL
    and the second has the empty script. After the import both guards
    stop at the first input and fail by their assertion; the [undefined]
    element behind it is never read. *)
Lemma import_guard_stops_before_undefined :
  fromTransaction (tx_half_signed 1) = Ok (imported (tx_half_signed 1)) /\
  (exists i, txb_signatures (imported (tx_half_signed 1)) = [Some (Some i); Some None] /\
     hashType i = 1%Z) /\
  addOutput an_output 7 (imported (tx_half_signed 1))
    = (Err this_would_invalidate_signatures, imported (tx_half_signed 1)) /\
  addInput (PrevOutHash [x0c]) 0 None None (imported (tx_half_signed 1))
    = (Err this_would_invalidate_signatures, imported (tx_half_signed 1)).
Proof. split; [reflexivity|]. split; [eexists; split; reflexivity|]. split; reflexivity. Qed.

(** With SIGHASH_SINGLE | SIGHASH_ANYONECANPAY on the first input both
    guards pass it and throw at the second; with SIGHASH_ALL on the first
    input both guards stop there. *)
Lemma import_leaves_undefined_witness :
  fromTransaction (tx_half_signed 131) = Ok (imported (tx_half_signed 131)) /\
  txb_signatures (imported (tx_half_signed 131)) !! 1 = Some (Some None) /\
  addOutput an_output 7 (imported (tx_half_signed 131))
    = (Err TypeError, imported (tx_half_signed 131)) /\
  addInput (PrevOutHash [x0c]) 0 None None (imported (tx_half_signed 131))
    = (Err TypeError, imported (tx_half_signed 131)) /\
  txb_signatures (imported (tx_half_signed 1)) !! 1 = Some (Some None) /\
  addOutput an_output 7 (imported (tx_half_signed 1))
    = (Err this_would_invalidate_signatures, imported (tx_half_signed 1)) /\
  addInput (PrevOutHash [x0c]) 0 None None (imported (tx_half_signed 1))
    = (Err this_would_invalidate_signatures, imported (tx_half_signed 1)).
Proof.
  destruct (import_leaves_undefined (C := collaborators) (tx_half_signed 131)
              (imported (tx_half_signed 131)) eq_refl) as [Hstored Hguards].
  split; [reflexivity|].
  assert (txb_signatures (imported (tx_half_signed 131)) !! 1 = Some (Some None)) as H1.
  { eapply (Hstored 1); reflexivity. }
  split; [exact H1|].
  destruct (Hguards 1 H1) as [Hout Hin].
  assert (exists i, txb_signatures (imported (tx_half_signed 131))
                      = [Some (Some i); Some None] /\
                    sighash_single i = true /\ anyone_can_pay i = true)
    as (i0 & Htable & Hsingle & Hacp)
    by (eexists; repeat split).
  split.
  { destruct (Hout an_output 7%Z) as (e & Hadd & _ & He & _).
    rewrite He in Hadd; [exact Hadd|].
    intros [|j] i Hj Hi; [|lia]. rewrite Htable in Hi. by injection Hi as <-. }
  split.
  { destruct (Hin (PrevOutHash [x0c]) 0 None None) as (e & Hadd & He).
    destruct (He [x0c] None eq_refl) as (_ & Hthrow & _); [discriminate|].
    rewrite Hthrow in Hadd; [exact Hadd|].
    intros [|j] i Hj Hi; [|lia]. rewrite Htable in Hi. by injection Hi as <-. }
  destruct (import_leaves_undefined (C := collaborators) (tx_half_signed 1)
              (imported (tx_half_signed 1)) eq_refl) as [Hstored' Hguards'].
  assert (txb_signatures (imported (tx_half_signed 1)) !! 1 = Some (Some None)) as H1'.
  { eapply (Hstored' 1); reflexivity. }
  split; [exact H1'|].
  destruct (Hguards' 1 H1') as [Hout' Hin'].
  assert (exists i, txb_signatures (imported (tx_half_signed 1)) !! 0
                      = Some (Some (Some i)) /\
                    sighash_single i = false /\ anyone_can_pay i = false)
    as (i1 & Hfirst & Hsingle' & Hacp')
    by (eexists; repeat split).
  split.
  - destruct (Hout' an_output 7%Z) as (e & Hadd & _ & _ & He).
    rewrite (He 0 i1 Hfirst Hsingle') in Hadd; [exact Hadd|]. intros j' Hlt. lia.
  - destruct (Hin' (PrevOutHash [x0c]) 0 None None) as (e & Hadd & He).
    destruct (He [x0c] None eq_refl) as (_ & _ & Hstop); [discriminate|].
    rewrite (Hstop 0 i1 Hfirst Hacp') in Hadd; [exact Hadd|]. intros j' Hlt. lia.
Defined.

End Scenarios.

(** * Further properties of the builder *)

Section Keys.

(** ** The registry key of line 144 *)

Lemma hex_digit_not_colon (n : N) : hex_digit n <> ":"%char.
Proof.
  unfold hex_digit. destruct n as [|p]; [discriminate|].
  do 4 (destruct p as [p|p|]; try discriminate).
Qed.

Lemma hex_digit_inj (n m : N) :
  (n < 16)%N -> (m < 16)%N -> hex_digit n = hex_digit m -> n = m.
Proof.
  intros Hn Hm H.
  destruct n as [|p]; [|do 4 (try destruct p as [p|p|])]; try lia;
    (destruct m as [|q]; [|do 4 (try destruct q as [q|q|])]; try lia);
    first [reflexivity | discriminate H].
Qed.

Lemma hex_of_byte_inj (x y : byte) : hex_of_byte x = hex_of_byte y -> x = y.
Proof.
  unfold hex_of_byte. intros [= Hhi Hlo].
  pose proof (Byte.to_N_bounded x) as Hx. pose proof (Byte.to_N_bounded y) as Hy.
  apply hex_digit_inj in Hhi;
    [| apply N.Div0.div_lt_upper_bound; lia | apply N.Div0.div_lt_upper_bound; lia].
  apply hex_digit_inj in Hlo; [| apply N.mod_lt; lia | apply N.mod_lt; lia].
  assert (Byte.to_N x = Byte.to_N y) as Heq.
  { rewrite (N.div_mod (Byte.to_N x) 16), (N.div_mod (Byte.to_N y) 16) by lia.
    by rewrite Hhi, Hlo. }
  pose proof (Byte.of_to_N x) as Hox. rewrite Heq, Byte.of_to_N in Hox.
  by injection Hox.
Qed.

Lemma prevOut_key_eq (h1 h2 : Buffer) (i1 i2 : nat) :
  prevOut_key h1 i1 = prevOut_key h2 i2 -> h1 = h2 /\ i1 = i2.
Proof.
  unfold prevOut_key. revert h2.
  induction h1 as [|x h1 IH]; intros [|y h2]; simpl.
  - intros [= H]. split; [reflexivity|]. by apply (inj pretty).
  - intros [= H _]. symmetry in H. by apply hex_digit_not_colon in H.
  - intros [= H _]. by apply hex_digit_not_colon in H.
  - intros [= Hhi Hlo Hrest].
    assert (hex_of_byte x = hex_of_byte y) as Hxy
      by (unfold hex_of_byte; by rewrite Hhi, Hlo).
    apply hex_of_byte_inj in Hxy as ->.
    destruct (IH h2 Hrest) as [-> ->]. done.
Qed.

(** X3.  The key [hash.toString('hex') + ':' + index] of line 144 tells
    previous outputs apart: two (hash, index) pairs have the same key
    exactly when they are the same pair. *)
Theorem prevOut_key_inj (h1 h2 : Buffer) (i1 i2 : nat) :
  prevOut_key h1 i1 = prevOut_key h2 i2 <-> h1 = h2 /\ i1 = i2.
Proof.
  split; [apply prevOut_key_eq|]. by intros [-> ->].
Qed.

End Keys.

Section MoreFacts.
Context `{C : Collaborators}.

(** ** Array writes *)

Lemma array_set_lookup {A} (a : jsarray A) (i : nat) (x : A) (k : nat) :
  array_set a i x !! k =
    if decide (k = i) then Some (Some x)
    else if decide (k < length a)%nat then a !! k
    else if decide (k < i)%nat then Some None
    else None.
Proof.
  case_decide as Hki; [subst; apply array_set_lookup_eq|].
  unfold array_set. case_decide as Hi.
  - rewrite list_lookup_insert_ne by done.
    case_decide as Hk; [done|]. rewrite lookup_ge_None_2 by lia.
    case_decide; [lia | done].
  - case_decide as Hk; [by rewrite lookup_app_l|].
    rewrite lookup_app_r by lia. case_decide as Hlt.
    + rewrite lookup_app_l by (rewrite length_replicate; lia).
      apply lookup_replicate_2. lia.
    + rewrite lookup_app_r by (rewrite length_replicate; lia).
      rewrite length_replicate.
      destruct (k - length a - (i - length a))%nat as [|n] eqn:E; [lia | done].
Qed.

Lemma array_get_set_ne {A} (a : jsarray A) (i j : nat) (x : A) :
  i <> j -> array_get (array_set a i x) j = array_get a j.
Proof.
  intros Hne. unfold array_get. rewrite array_set_lookup.
  rewrite decide_False by done. case_decide as Hj; [done|].
  rewrite (lookup_ge_None_2 a j) by lia. by case_decide.
Qed.

Lemma array_set_length {A} (a : jsarray A) (i : nat) (x : A) :
  length (array_set a i x) = max (length a) (S i).
Proof.
  unfold array_set. case_decide.
  - rewrite length_insert. lia.
  - rewrite !length_app, length_replicate. simpl. lia.
Qed.

(** Writing an index twice leaves the second value. *)
Lemma array_set_set {A} (a : jsarray A) (i : nat) (x y : A) :
  array_set (array_set a i x) i y = array_set a i y.
Proof.
  apply list_eq. intros k. rewrite !array_set_lookup, !array_set_length.
  repeat case_decide; try done; try lia.
Qed.

(** Writes to two different indices can be swapped. *)
Lemma array_set_comm {A} (a : jsarray A) (i j : nat) (x y : A) :
  i <> j -> array_set (array_set a i x) j y = array_set (array_set a j y) i x.
Proof.
  intros Hne. apply list_eq. intros k.
  rewrite !array_set_lookup, !array_set_length.
  repeat case_decide; try done; try lia.
Qed.

(** ** The ways through sign *)

Lemma sign_existing index privKey rs ht b pos pot st hash i :
  (index <= length (ins (tx b)))%nat ->
  sign_resolve index privKey rs (hashType_or_ALL ht) b = Ok (pos, pot, st, hash) ->
  signatures_at b index = Some i ->
  st = multisig -> hashType i = hashType_or_ALL ht -> redeemScript i = rs ->
  sign index privKey rs ht b = sign_slot index privKey hash i b.
Proof.
  intros Hindex Hres Hi Hst Hht Hrs. unfold sign.
  apply Nat.leb_le in Hindex. rewrite Hindex. cbn [assert]. rewrite Hres.
  unfold sign_prepare. rewrite Hi.
  rewrite (bool_decide_eq_true_2 _ Hst), (bool_decide_eq_true_2 _ Hrs).
  by rewrite (proj2 (Z.eqb_eq _ _) Hht).
Qed.

Lemma sign_fresh index privKey rs ht b pos pot st hash i :
  (index <= length (ins (tx b)))%nat ->
  sign_resolve index privKey rs (hashType_or_ALL ht) b = Ok (pos, pot, st, hash) ->
  signatures_at b index = None ->
  new_input privKey rs (hashType_or_ALL ht) st = Ok i ->
  sign index privKey rs ht b =
    sign_slot index privKey hash i
      (mkBuilder (prevOutMap b)
                 (<[index := Some pos]> (prevOutScripts b))
                 (<[index := Some pot]> (prevOutTypes b))
                 (array_set (txb_signatures b) index (Some i))
                 (tx b)).
Proof.
  intros Hindex Hres Hnone Hnew. unfold sign.
  apply Nat.leb_le in Hindex. rewrite Hindex. cbn [assert]. rewrite Hres.
  unfold sign_prepare. by rewrite Hnone, Hnew.
Qed.

Lemma sign_slot_Ok index privKey hash i b slot :
  some_pubKey privKey (pubKeys i) 0 = Some slot ->
  array_get (signatures i) slot = None ->
  sign_slot index privKey hash i b =
    (Ok tt,
     mkBuilder (prevOutMap b) (prevOutScripts b) (prevOutTypes b)
       (array_set (txb_signatures b) index
          (Some (mkInput (hashType i) (pubKeys i) (redeemScript i) (scriptType i)
                   (array_set (signatures i) slot (ECKey_sign privKey hash)))))
       (tx b)).
Proof. intros Hslot Hempty. unfold sign_slot. by rewrite Hslot, Hempty. Qed.

Lemma sign_slot_Ok_inv index privKey hash i b u b' :
  sign_slot index privKey hash i b = (Ok u, b') ->
  exists slot,
    some_pubKey privKey (pubKeys i) 0 = Some slot /\
    array_get (signatures i) slot = None /\
    b' = mkBuilder (prevOutMap b) (prevOutScripts b) (prevOutTypes b)
           (array_set (txb_signatures b) index
              (Some (mkInput (hashType i) (pubKeys i) (redeemScript i) (scriptType i)
                       (array_set (signatures i) slot (ECKey_sign privKey hash)))))
           (tx b).
Proof.
  unfold sign_slot. destruct (some_pubKey _ _ _) as [slot|]; [|discriminate].
  destruct (array_get _ _) eqn:E; [discriminate|]. intros [= <- <-]. eauto.
Qed.

(** What a successful [sign] has gone through and what it has written. *)
Lemma sign_Ok_inv index privKey rs ht b u b' :
  sign index privKey rs ht b = (Ok u, b') ->
  (index <= length (ins (tx b)))%nat /\
  exists pos pot st hash i slot,
    sign_resolve index privKey rs (hashType_or_ALL ht) b = Ok (pos, pot, st, hash) /\
    some_pubKey privKey (pubKeys i) 0 = Some slot /\
    array_get (signatures i) slot = None /\
    let i' := mkInput (hashType i) (pubKeys i) (redeemScript i) (scriptType i)
                (array_set (signatures i) slot (ECKey_sign privKey hash)) in
    ((signatures_at b index = Some i /\ st = multisig /\
      hashType i = hashType_or_ALL ht /\ redeemScript i = rs /\
      b' = mkBuilder (prevOutMap b) (prevOutScripts b) (prevOutTypes b)
             (array_set (txb_signatures b) index (Some i')) (tx b))
     \/
     (signatures_at b index = None /\
      new_input privKey rs (hashType_or_ALL ht) st = Ok i /\
      b' = mkBuilder (prevOutMap b)
             (<[index := Some pos]> (prevOutScripts b))
             (<[index := Some pot]> (prevOutTypes b))
             (array_set (txb_signatures b) index (Some i')) (tx b))).
Proof.
  unfold sign. destruct (assert _ _) as [[]|] eqn:Hindex; [|discriminate].
  apply assert_Ok, Nat.leb_le in Hindex.
  destruct (sign_resolve _ _ _ _ _) as [[[[pos pot] st] hash]|] eqn:Hres; [|discriminate].
  destruct (sign_prepare _ _ _ _ _ _ _ _) as [[i|] b1] eqn:Hprep; [|discriminate].
  intros (slot & Hslot & Hempty & ->)%sign_slot_Ok_inv.
  split; [exact Hindex|].
  exists pos, pot, st, hash, i, slot. do 3 (split; [done|]).
  apply sign_prepare_Ok in Hprep as [(Hi & -> & Hst & Hht & Hrs) | (Hnone & Hnew & ->)].
  - left. auto.
  - right. do 2 (split; [done|]).
    cbn [prevOutMap prevOutScripts prevOutTypes txb_signatures tx].
    by rewrite array_set_set.
Qed.

(** [sign] reads the cache, the table and the transaction of the builder
    at one index only. *)
Lemma sign_resolve_ext index privKey rs ht b b' :
  prevOutScript_at b' index = prevOutScript_at b index ->
  prevOutType_at b' index = prevOutType_at b index ->
  tx b' = tx b ->
  sign_resolve index privKey rs ht b' = sign_resolve index privKey rs ht b.
Proof. intros Hs Ht Htx. unfold sign_resolve. by rewrite Hs, Ht, Htx. Qed.

Lemma builder_eta (b : TransactionBuilder) :
  mkBuilder (prevOutMap b) (prevOutScripts b) (prevOutTypes b) (txb_signatures b) (tx b) = b.
Proof. by destruct b. Qed.

Lemma signatures_at_lookup (b : TransactionBuilder) (index : nat) (i : input) :
  signatures_at b index = Some i <-> txb_signatures b !! index = Some (Some (Some i)).
Proof.
  unfold signatures_at, array_get.
  destruct (txb_signatures b !! index) as [[[i0|]|]|]; simpl; split; intros [=]; by subst.
Qed.

(** Everything [sign] can have written when it returns or throws. *)
Lemma sign_writes index privKey rs ht b :
  snd (sign index privKey rs ht b) = b
  \/
  exists ps pt i',
    snd (sign index privKey rs ht b)
      = mkBuilder (prevOutMap b) ps pt (array_set (txb_signatures b) index (Some i')) (tx b) /\
    ((ps = prevOutScripts b /\ pt = prevOutTypes b) \/
     (exists pos pot, ps = <[index := Some pos]> (prevOutScripts b) /\
                      pt = <[index := Some pot]> (prevOutTypes b))) /\
    ((signatures_at b index = None /\ signatures i' = [])
     \/
     (exists i slot hash,
        (signatures_at b index = Some i \/
         (signatures_at b index = None /\ signatures i = [])) /\
        some_pubKey privKey (pubKeys i) 0 = Some slot /\
        array_get (signatures i) slot = None /\
        i' = mkInput (hashType i) (pubKeys i) (redeemScript i) (scriptType i)
               (array_set (signatures i) slot (ECKey_sign privKey hash)))).
Proof.
  destruct (sign index privKey rs ht b) as [[u|e] b'] eqn:Hsign; cbn [snd].
  - right. apply sign_Ok_inv in Hsign
      as (_ & pos & pot & st & hash & i & slot & _ & Hslot & Hempty & Hcase).
    cbn zeta in Hcase.
    destruct Hcase as [(Hi & _ & _ & _ & ->) | (Hnone & Hnew & ->)].
    + eexists _, _, _. split; [reflexivity|]. split; [left; done|].
      right. exists i, slot, hash. auto.
    + apply new_input_signatures in Hnew as (Hsigs & _).
      eexists _, _, _. split; [reflexivity|]. split; [right; eauto|].
      right. exists i, slot, hash. auto.
  - unfold sign in Hsign. destruct (assert _ _); [|injection Hsign as _ <-; by left].
    destruct (sign_resolve _ _ _ _ _) as [[[[pos pot] st] hash]|];
      [|injection Hsign as _ <-; by left].
    destruct (sign_prepare _ _ _ _ _ _ _ _) as [[i|e0] b1] eqn:Hprep.
    + apply sign_slot_Err in Hsign as [-> _].
      apply sign_prepare_Ok in Hprep as [(_ & -> & _) | (Hnone & Hnew & ->)]; [by left|].
      apply new_input_signatures in Hnew as (Hsigs & _).
      right. eexists _, _, _. split; [reflexivity|]. split; [right; eauto|]. left. auto.
    + injection Hsign as _ <-. apply sign_prepare_Err in Hprep as ->. by left.
Qed.

(** X6.  Whatever its outcome, [sign] at an index leaves the registry and
    the transaction as they are, and at every other index the metadata
    and the cached previous-output script and kind. *)
Theorem sign_frame index privKey rs ht b :
  prevOutMap (snd (sign index privKey rs ht b)) = prevOutMap b /\
  tx (snd (sign index privKey rs ht b)) = tx b /\
  forall j, j <> index ->
    signatures_at (snd (sign index privKey rs ht b)) j = signatures_at b j /\
    prevOutScript_at (snd (sign index privKey rs ht b)) j = prevOutScript_at b j /\
    prevOutType_at (snd (sign index privKey rs ht b)) j = prevOutType_at b j.
Proof.
  destruct (sign_writes index privKey rs ht b) as [-> | (ps & pt & i' & -> & Hcache & _)];
    [done|].
  cbn [prevOutMap tx]. do 2 (split; [done|]). intros j Hj.
  unfold signatures_at, prevOutScript_at, prevOutType_at.
  cbn [txb_signatures prevOutScripts prevOutTypes].
  rewrite array_get_set_ne by done. split; [done|].
  destruct Hcache as [[-> ->] | (pos & pot & -> & ->)]; [done|].
  by rewrite !lookup_insert_ne.
Qed.

(** ** Metadata objects over time *)

Lemma more_signed_refl (i : input) : more_signed i i.
Proof. unfold more_signed. auto. Qed.

Lemma more_signed_trans (i1 i2 i3 : input) :
  more_signed i1 i2 -> more_signed i2 i3 -> more_signed i1 i3.
Proof.
  intros (? & ? & ? & ? & H12) (? & ? & ? & ? & H23).
  unfold more_signed. repeat split; try congruence. auto.
Qed.

Lemma more_signed_slot (i : input) slot s :
  array_get (signatures i) slot = None ->
  more_signed i
    (mkInput (hashType i) (pubKeys i) (redeemScript i) (scriptType i)
       (array_set (signatures i) slot s)).
Proof.
  intros Hempty. unfold more_signed. cbn. do 4 (split; [done|]).
  intros k s0 Hk. rewrite array_get_set_ne; [done|]. intros ->. congruence.
Qed.

Lemma sign_more_signed index privKey rs ht b k i :
  signatures_at b k = Some i ->
  exists i', signatures_at (snd (sign index privKey rs ht b)) k = Some i' /\ more_signed i i'.
Proof.
  intros Hk.
  destruct (sign_writes index privKey rs ht b) as [-> | (ps & pt & i' & -> & _ & Hentry)].
  { exists i. split; [done | apply more_signed_refl]. }
  unfold signatures_at in *. cbn [txb_signatures].
  destruct (decide (k = index)) as [->|Hne].
  2:{ exists i. rewrite array_get_set_ne by done. split; [done | apply more_signed_refl]. }
  rewrite array_get_set_eq. cbn. exists i'. split; [done|].
  destruct Hentry as [[Hnone _] | (i0 & slot & hash & Hi0 & _ & Hempty & ->)]; [congruence|].
  destruct Hi0 as [Hi0 | [Hnone _]]; [|congruence].
  rewrite Hk in Hi0. injection Hi0 as <-. by apply more_signed_slot.
Qed.

Lemma step_more_signed b b' k i :
  step b b' -> signatures_at b k = Some i ->
  exists i', signatures_at b' k = Some i' /\ more_signed i i'.
Proof.
  intros Hstep Hk. destruct Hstep.
  - exists i. unfold signatures_at in *. rewrite addInput_table.
    split; [done | apply more_signed_refl].
  - exists i. unfold signatures_at in *. rewrite addOutput_table.
    split; [done | apply more_signed_refl].
  - by apply sign_more_signed.
Qed.

(** X7.  Metadata once stored stays: in every later state the index
    still has its object, with the same hash type, public keys, redeem
    script and kind, and every signature it had is still in its slot.
    No call removes or overwrites a signature. *)
Theorem signatures_persist b b' index i :
  rtc step b b' ->
  signatures_at b index = Some i ->
  exists i', signatures_at b' index = Some i' /\ more_signed i i'.
Proof.
  intros Hsteps. revert i. induction Hsteps as [b|b1 b2 b3 Hstep _ IH]; intros i Hi.
  - exists i. split; [done | apply more_signed_refl].
  - destruct (step_more_signed _ _ _ _ Hstep Hi) as (i2 & Hi2 & H12).
    destruct (IH i2 Hi2) as (i3 & Hi3 & H23).
    exists i3. split; [done|]. by eapply more_signed_trans.
Qed.

Lemma well_signed_slot (i : input) privKey slot hash :
  well_signed i ->
  some_pubKey privKey (pubKeys i) 0 = Some slot ->
  well_signed
    (mkInput (hashType i) (pubKeys i) (redeemScript i) (scriptType i)
       (array_set (signatures i) slot (ECKey_sign privKey hash))).
Proof.
  intros Hwell Hslot k s. cbn [signatures pubKeys].
  destruct (decide (k = slot)) as [->|Hne].
  - rewrite array_get_set_eq. intros [= <-].
    apply some_pubKey_Some in Hslot as (j & pubKey & -> & Hj & Heq & _).
    exists pubKey, privKey, hash. auto.
  - rewrite array_get_set_ne by done. apply Hwell.
Qed.

Lemma well_signed_empty (i : input) : signatures i = [] -> well_signed i.
Proof. intros Hsigs k s. rewrite Hsigs, array_get_nil. discriminate. Qed.

Lemma step_well_signed b b' :
  step b b' ->
  (forall k i, signatures_at b k = Some i -> well_signed i) ->
  forall k i, signatures_at b' k = Some i -> well_signed i.
Proof.
  intros Hstep Hall k i'. destruct Hstep as [? ? ? ? b|? ? b|index privKey rs ht b].
  - unfold signatures_at. rewrite addInput_table. apply Hall.
  - unfold signatures_at. rewrite addOutput_table. apply Hall.
  - destruct (sign_writes index privKey rs ht b) as [-> | (ps & pt & i0 & -> & _ & Hentry)];
      [apply Hall|].
    unfold signatures_at. cbn [txb_signatures].
    destruct (decide (k = index)) as [->|Hne].
    2:{ rewrite array_get_set_ne by done. apply Hall. }
    rewrite array_get_set_eq. cbn. intros [= <-].
    destruct Hentry as [[_ Hsigs] | (i & slot & hash & Hi & Hslot & _ & ->)];
      [by apply well_signed_empty|].
    apply well_signed_slot; [|done].
    destruct Hi as [Hi | [_ Hsigs]]; [by eapply Hall | by apply well_signed_empty].
Qed.

(** X8.  In a builder made from a new one by [addInput], [addOutput] and
    [sign], every stored signature sits in the slot of a public key that
    [Q.equals] the public key of the key that made it: [sign] writes
    [signatures[i]] only next to the matching [pubKeys[i]]. *)
Theorem signatures_match_pubKeys b index i :
  rtc step new_TransactionBuilder b ->
  signatures_at b index = Some i ->
  well_signed i.
Proof.
  intros Hsteps. revert index i. pattern b. revert b Hsteps. apply rtc_ind_r.
  - discriminate.
  - intros b1 b2 _ Hstep IH. by eapply step_well_signed.
Qed.

(** A failing [sign] on an index that has metadata writes nothing. *)
Lemma sign_Err_existing index privKey rs ht b i e b' :
  signatures_at b index = Some i ->
  sign index privKey rs ht b = (Err e, b') -> b' = b.
Proof.
  intros Hi Hsign. unfold sign in Hsign.
  destruct (assert _ _); [|by injection Hsign as _ <-].
  destruct (sign_resolve _ _ _ _ _) as [[[[pos pot] st] hash]|];
    [|by injection Hsign as _ <-].
  destruct (sign_prepare _ _ _ _ _ _ _ _) as [[i0|e0] b1] eqn:Hprep.
  - apply sign_slot_Err in Hsign as [-> _].
    apply sign_prepare_Ok in Hprep as [(_ & -> & _) | (Hnone & _)]; [done | congruence].
  - injection Hsign as _ <-. by apply sign_prepare_Err in Hprep.
Qed.

(** X12.  An input whose metadata has a signature in the slot of every
    public key (in particular one with no public key at all, as after
    the import of a bare pay-to-pubkey or multisig input) cannot be
    signed again: every [sign] at its index fails, whatever the key, the
    redeem script and the hash type, and leaves the builder as it is. *)
Theorem sign_fully_signed index b i :
  signatures_at b index = Some i ->
  fully_signed i ->
  forall privKey rs ht, exists e, sign index privKey rs ht b = (Err e, b).
Proof.
  intros Hi Hfull privKey rs ht.
  destruct (sign index privKey rs ht b) as [[u|e] b'] eqn:Hsign.
  - exfalso. apply sign_Ok_inv in Hsign
      as (_ & pos & pot & st & hash & i0 & slot & _ & Hslot & Hempty & Hcase).
    cbn zeta in Hcase. destruct Hcase as [(Hi0 & _) | (Hnone & _)]; [|congruence].
    rewrite Hi in Hi0. injection Hi0 as <-.
    apply some_pubKey_Some in Hslot as (j & pubKey & -> & Hj & _).
    destruct (Hfull _ _ Hj) as [s Hs]. simpl in Hempty. congruence.
  - exists e. by rewrite (sign_Err_existing _ _ _ _ _ _ _ _ Hi Hsign).
Qed.

(** ** The first signature of an input *)

(** X9.  First [sign] of an index without a redeem script.  The cached
    kind is not scripthash, the digest is computed over the cached
    locking script, or over the signer's own pay-to-pubkey-hash script
    when none is cached, and the key equals itself.  Then the call
    succeeds, whoever the cached script pays to: the new metadata has the
    signer's public key as its only public key and the signature in slot
    0, and the script and kind signed for are written to the cache. *)
Theorem sign_first index privKey ht b hash :
  (index <= length (ins (tx b)))%nat ->
  signatures_at b index = None ->
  prevOutType_at b index <> Some scripthash ->
  hashForSignature (tx b) index
    (default (address_toOutputScript (pub privKey)) (prevOutScript_at b index))
    (hashType_or_ALL ht) = Some hash ->
  Q_equals (pub privKey) (pub privKey) = true ->
  sign index privKey None ht b =
    (Ok tt,
     mkBuilder (prevOutMap b)
       (<[index := Some (default (address_toOutputScript (pub privKey))
                           (prevOutScript_at b index))]> (prevOutScripts b))
       (<[index := Some (default pubkeyhash (prevOutType_at b index))]> (prevOutTypes b))
       (array_set (txb_signatures b) index
          (Some (mkInput (hashType_or_ALL ht) [pub privKey] None
                   (default pubkeyhash (prevOutType_at b index))
                   [Some (ECKey_sign privKey hash)])))
       (tx b)).
Proof.
  intros Hindex Hnone Hkind Hhash Hrefl.
  set (pos := default (address_toOutputScript (pub privKey)) (prevOutScript_at b index)).
  set (pot := default pubkeyhash (prevOutType_at b index)).
  assert (sign_resolve index privKey None (hashType_or_ALL ht) b = Ok (pos, pot, pot, hash))
    as Hres.
  { unfold sign_resolve. fold pos pot.
    rewrite bool_decide_eq_false_2.
    - cbn [negb assert bind]. fold pos in Hhash. by rewrite Hhash.
    - unfold pot. destruct (prevOutType_at b index) as [t|]; simpl; [|done].
      intros ->. by apply Hkind. }
  rewrite (sign_fresh index privKey None ht b pos pot pot hash
             (mkInput (hashType_or_ALL ht) [pub privKey] None pot []) Hindex Hres Hnone)
    by (unfold new_input; by destruct pot).
  rewrite (sign_slot_Ok _ _ _ _ _ 0%nat); [| by cbn; rewrite Hrefl | done].
  cbn [prevOutMap prevOutScripts prevOutTypes txb_signatures tx hashType pubKeys
       redeemScript scriptType signatures].
  by rewrite array_set_set.
Qed.

(** X10.  First [sign] of an input that spends the hash of a multisig
    redeem script.  The public keys are the chunks of the redeem script
    between its first and its last two; the signature goes into the slot
    of the first of them that equals the signer's, with holes in the
    slots before it, and the script hash locking script and the kind
    scripthash are written to the cache when none was cached. *)
Theorem sign_first_multisig index privKey r ht b hash keys slot pubKey :
  (index <= length (ins (tx b)))%nat ->
  signatures_at b index = None ->
  (prevOutType_at b index = None \/ prevOutType_at b index = Some scripthash) ->
  classifyOutput r = multisig ->
  hashForSignature (tx b) index r (hashType_or_ALL ht) = Some hash ->
  mapM (fun c => calling (ECPubKey_fromBuffer (Some c))) (slice_1_m2 (chunks r)) = Ok keys ->
  keys !! slot = Some pubKey ->
  Q_equals (pub privKey) pubKey = true ->
  (forall j pubKey', (j < slot)%nat -> keys !! j = Some pubKey' ->
     Q_equals (pub privKey) pubKey' = false) ->
  sign index privKey (Some r) ht b =
    (Ok tt,
     mkBuilder (prevOutMap b)
       (<[index := Some (default (scriptHashOutput (Script_getHash r))
                           (prevOutScript_at b index))]> (prevOutScripts b))
       (<[index := Some scripthash]> (prevOutTypes b))
       (array_set (txb_signatures b) index
          (Some (mkInput (hashType_or_ALL ht) keys (Some r) multisig
                   (replicate slot None ++ [Some (ECKey_sign privKey hash)]))))
       (tx b)).
Proof.
  intros Hindex Hnone Hcached Hkind Hhash Hkeys Hslot Heq Hfirst.
  set (pos := default (scriptHashOutput (Script_getHash r)) (prevOutScript_at b index)).
  assert (default scripthash (prevOutType_at b index) = scripthash) as Hpot
    by (by destruct Hcached as [-> | ->]).
  assert (sign_resolve index privKey (Some r) (hashType_or_ALL ht) b
          = Ok (pos, scripthash, multisig, hash)) as Hres.
  { unfold sign_resolve. fold pos. rewrite Hpot, Hkind, Hhash. reflexivity. }
  rewrite (sign_fresh index privKey (Some r) ht b pos scripthash multisig hash
             (mkInput (hashType_or_ALL ht) keys (Some r) multisig []) Hindex Hres Hnone)
    by (unfold new_input; by rewrite Hkeys).
  rewrite (sign_slot_Ok _ _ _ _ _ slot);
    [| apply some_pubKey_Some; exists slot, pubKey; auto | done].
  cbn [prevOutMap prevOutScripts prevOutTypes txb_signatures tx hashType pubKeys
       redeemScript scriptType signatures].
  rewrite array_set_set. unfold array_set at 2. cbn [length].
  rewrite decide_False by lia. by rewrite Nat.sub_0_r.
Qed.

(** ** Cosigners in either order *)

Lemma sign_existing_Ok index privKey rs ht b pos pot hash i slot :
  (index <= length (ins (tx b)))%nat ->
  sign_resolve index privKey rs (hashType_or_ALL ht) b = Ok (pos, pot, multisig, hash) ->
  signatures_at b index = Some i ->
  hashType i = hashType_or_ALL ht -> redeemScript i = rs ->
  some_pubKey privKey (pubKeys i) 0 = Some slot ->
  array_get (signatures i) slot = None ->
  sign index privKey rs ht b =
    (Ok tt,
     mkBuilder (prevOutMap b) (prevOutScripts b) (prevOutTypes b)
       (array_set (txb_signatures b) index
          (Some (mkInput (hashType i) (pubKeys i) (redeemScript i) (scriptType i)
                   (array_set (signatures i) slot (ECKey_sign privKey hash)))))
       (tx b)).
Proof.
  intros Hindex Hres Hi Hht Hrs Hslot Hempty.
  rewrite (sign_existing _ _ _ _ _ _ _ _ _ _ Hindex Hres Hi eq_refl Hht Hrs).
  by apply sign_slot_Ok.
Qed.

Lemma sign_fresh_Ok index privKey rs ht b pos pot st hash i slot :
  (index <= length (ins (tx b)))%nat ->
  sign_resolve index privKey rs (hashType_or_ALL ht) b = Ok (pos, pot, st, hash) ->
  signatures_at b index = None ->
  new_input privKey rs (hashType_or_ALL ht) st = Ok i ->
  some_pubKey privKey (pubKeys i) 0 = Some slot ->
  array_get (signatures i) slot = None ->
  sign index privKey rs ht b =
    (Ok tt,
     mkBuilder (prevOutMap b)
       (<[index := Some pos]> (prevOutScripts b))
       (<[index := Some pot]> (prevOutTypes b))
       (array_set (txb_signatures b) index
          (Some (mkInput (hashType i) (pubKeys i) (redeemScript i) (scriptType i)
                   (array_set (signatures i) slot (ECKey_sign privKey hash)))))
       (tx b)).
Proof.
  intros Hindex Hres Hnone Hnew Hslot Hempty.
  rewrite (sign_fresh _ _ _ _ _ _ _ _ _ _ Hindex Hres Hnone Hnew).
  rewrite (sign_slot_Ok _ _ _ _ _ slot Hslot Hempty).
  cbn [prevOutMap prevOutScripts prevOutTypes txb_signatures tx].
  by rewrite array_set_set.
Qed.

(** With a redeem script, lines 233-243 do not look at the key. *)
Lemma sign_resolve_redeemScript index privKey privKey' r ht b :
  sign_resolve index privKey (Some r) ht b = sign_resolve index privKey' (Some r) ht b.
Proof. reflexivity. Qed.

Lemma sign_resolve_Some_inv index privKey r ht b pos pot st hash :
  sign_resolve index privKey (Some r) ht b = Ok (pos, pot, st, hash) ->
  pos = default (scriptHashOutput (Script_getHash r)) (prevOutScript_at b index) /\
  pot = scripthash /\ default scripthash (prevOutType_at b index) = scripthash /\
  st = classifyOutput r /\ st <> scripthash /\ st <> nonstandard /\
  hashForSignature (tx b) index r ht = Some hash.
Proof.
  unfold sign_resolve. intros H.
  apply bind_Ok in H as (? & H1 & H). apply bind_Ok in H as (? & H2 & H).
  apply bind_Ok in H as (? & H3 & H). apply bind_Ok in H as (h & H4 & H).
  injection H as <- <- <- <-.
  apply assert_Ok in H1, H2, H3. apply bool_decide_eq_true in H1.
  apply negb_true_iff, bool_decide_eq_false in H2, H3.
  destruct (hashForSignature _ _ _ _); [|discriminate]. injection H4 as ->.
  rewrite H1. auto 10.
Qed.

Lemma sign_resolve_Some_cached index privKey r ht b pos hash :
  prevOutScript_at b index = Some pos ->
  prevOutType_at b index = Some scripthash ->
  classifyOutput r <> scripthash -> classifyOutput r <> nonstandard ->
  hashForSignature (tx b) index r ht = Some hash ->
  sign_resolve index privKey (Some r) ht b = Ok (pos, scripthash, classifyOutput r, hash).
Proof.
  intros Hs Ht H1 H2 Hhash. unfold sign_resolve. rewrite Hs, Ht, Hhash. cbn [default].
  rewrite bool_decide_eq_true_2 by done.
  by rewrite !bool_decide_eq_false_2 by done.
Qed.

Lemma some_pubKey_singleton privKey pubKey slot :
  some_pubKey privKey [pubKey] 0 = Some slot -> slot = 0%nat.
Proof. simpl. destruct (Q_equals _ _); [by intros [= <-] | discriminate]. Qed.

(** X11.  Cosigners can sign in either order.  If [sign] with key A and
    then [sign] with key B succeed on an index (same redeem script, same
    hash type), then B first and A second succeed as well and leave the
    same builder: a signature goes into the slot of its public key, not
    to the end of a list. *)
Theorem sign_either_order index keyA keyB rs ht b bA bAB :
  sign index keyA rs ht b = (Ok tt, bA) ->
  sign index keyB rs ht bA = (Ok tt, bAB) ->
  exists bB,
    sign index keyB rs ht b = (Ok tt, bB) /\
    sign index keyA rs ht bB = (Ok tt, bAB).
Proof.
  intros HA HB.
  apply sign_Ok_inv in HA
    as (Hindex & posA & potA & stA & hashA & iA & slotA & HresA & HslotA & HemptyA & HcaseA).
  cbn zeta in HcaseA.
  set (iA' := mkInput (hashType iA) (pubKeys iA) (redeemScript iA) (scriptType iA)
                (array_set (signatures iA) slotA (ECKey_sign keyA hashA))) in *.
  assert (signatures_at bA index = Some iA' /\ tx bA = tx b) as [HatA HtxA].
  { destruct HcaseA as [(_ & _ & _ & _ & ->) | (_ & _ & ->)];
      unfold signatures_at; cbn [txb_signatures tx]; by rewrite array_get_set_eq. }
  apply sign_Ok_inv in HB
    as (_ & posB & potB & stB & hashB & i2 & slotB & HresB & HslotB & HemptyB & HcaseB).
  cbn zeta in HcaseB.
  destruct HcaseB as [(Hi2 & -> & Hht2 & Hrs2 & ->) | (Hnone & _)]; [|congruence].
  rewrite HatA in Hi2. injection Hi2 as <-.
  cbn [pubKeys signatures hashType redeemScript scriptType iA'] in *.
  assert (slotB <> slotA) as Hne.
  { intros ->. rewrite array_get_set_eq in HemptyB. discriminate. }
  rewrite array_get_set_ne in HemptyB by done.
  set (iB' := mkInput (hashType iA) (pubKeys iA) (redeemScript iA) (scriptType iA)
                (array_set (signatures iA) slotB (ECKey_sign keyB hashB))).
  destruct HcaseA as [(HiA & -> & HhtA & HrsA & ->) | (HnoneA & HnewA & ->)].
  - (* the index had metadata before A signed *)
    cbn [prevOutMap prevOutScripts prevOutTypes txb_signatures tx] in *.
    assert (sign_resolve index keyB rs (hashType_or_ALL ht) b
            = Ok (posB, potB, multisig, hashB)) as HresB'.
    { rewrite <- HresB. symmetry. by apply sign_resolve_ext. }
    eexists. split.
    { by apply (sign_existing_Ok index keyB rs ht b posB potB hashB iA slotB). }
    assert (sign_resolve index keyA rs (hashType_or_ALL ht)
              (mkBuilder (prevOutMap b) (prevOutScripts b) (prevOutTypes b)
                 (array_set (txb_signatures b) index (Some iB')) (tx b))
            = Ok (posA, potA, multisig, hashA)) as HresA'.
    { rewrite <- HresA. by apply sign_resolve_ext. }
    rewrite (sign_existing_Ok index keyA rs ht _ posA potA hashA iB' slotA);
      try done.
    + cbn [prevOutMap prevOutScripts prevOutTypes txb_signatures tx hashType pubKeys
           redeemScript scriptType signatures iB'].
      rewrite !array_set_set. by rewrite (array_set_comm _ slotA slotB).
    + unfold signatures_at. cbn [txb_signatures]. by rewrite array_get_set_eq.
    + cbn [signatures iB']. by rewrite array_get_set_ne.
  - (* A created the metadata *)
    cbn [prevOutMap prevOutScripts prevOutTypes txb_signatures tx] in *.
    destruct rs as [r|].
    2:{ (* without a redeem script the only public key is A's, and its slot is taken *)
      exfalso. unfold new_input in HnewA. cbn in HnewA. injection HnewA as <-.
      cbn [pubKeys signatures] in *.
      apply some_pubKey_singleton in HslotA, HslotB. congruence. }
    apply sign_resolve_Some_inv in HresA as (-> & -> & Hpot & HstA & _ & _ & HhashA).
    apply sign_resolve_Some_inv in HresB as (_ & _ & _ & HstB & _ & _ & HhashB).
    cbn [tx] in HhashB. rewrite HhashA in HhashB. injection HhashB as <-.
    rewrite <- HstB in HstA. subst stA.
    set (pos := default (scriptHashOutput (Script_getHash r)) (prevOutScript_at b index)) in *.
    assert (forall privKey b',
              prevOutScript_at b' index = Some pos \/
                prevOutScript_at b' index = prevOutScript_at b index ->
              default scripthash (prevOutType_at b' index) = scripthash ->
              tx b' = tx b ->
              sign_resolve index privKey (Some r) (hashType_or_ALL ht) b'
              = Ok (pos, scripthash, multisig, hashA)) as Hresolve.
    { intros privKey b' Hs Ht Htx. unfold sign_resolve.
      rewrite Ht, Htx, HhashA, <- HstB.
      replace (default (scriptHashOutput (Script_getHash r)) (prevOutScript_at b' index))
        with pos by (destruct Hs as [-> | ->]; done).
      reflexivity. }
    assert (new_input keyB (Some r) (hashType_or_ALL ht) multisig = Ok iA) as HnewB
      by exact HnewA.
    set (bB := mkBuilder (prevOutMap b)
                 (<[index := Some pos]> (prevOutScripts b))
                 (<[index := Some scripthash]> (prevOutTypes b))
                 (array_set (txb_signatures b) index (Some iB')) (tx b)).
    exists bB. split.
    { apply (sign_fresh_Ok index keyB (Some r) ht b pos scripthash multisig hashA iA slotB);
        try done.
      apply Hresolve; auto. }
    rewrite (sign_existing_Ok index keyA (Some r) ht bB pos scripthash hashA iB' slotA
               Hindex).
    + cbn [prevOutMap prevOutScripts prevOutTypes txb_signatures tx hashType pubKeys
           redeemScript scriptType signatures iB' bB].
      rewrite !array_set_set. by rewrite (array_set_comm _ slotA slotB).
    + apply Hresolve; [left | |done].
      * unfold prevOutScript_at, bB. cbn [prevOutScripts]. by rewrite lookup_insert_eq.
      * unfold prevOutType_at, bB. cbn [prevOutTypes]. by rewrite lookup_insert_eq.
    + unfold signatures_at, bB. cbn [txb_signatures]. by rewrite array_get_set_eq.
    + done.
    + done.
    + done.
    + cbn [signatures iB']. by rewrite array_get_set_ne.
Qed.

(** ** addInput and addOutput when the guards let them through *)

Lemma every_true (f : input -> bool) (a : jsarray (option input)) :
  (forall k, a !! k <> Some (Some None)) ->
  (forall k i, a !! k = Some (Some (Some i)) -> f i = true) ->
  every f a = Ok true.
Proof.
  induction a as [|[[i|]|] a IH]; intros Hno Hall; simpl.
  - reflexivity.
  - rewrite (Hall 0%nat i eq_refl). apply IH.
    + intros k. apply (Hno (S k)).
    + intros k. apply (Hall (S k)).
  - by destruct (Hno 0%nat).
  - apply IH.
    + intros k. apply (Hno (S k)).
    + intros k. apply (Hall (S k)).
Qed.

Lemma every_true_inv (f : input -> bool) (a : jsarray (option input)) :
  every f a = Ok true ->
  (forall k, a !! k <> Some (Some None)) /\
  (forall k i, a !! k = Some (Some (Some i)) -> f i = true).
Proof.
  intros H. split.
  - intros k Hk. by apply (every_absent f) in Hk.
  - intros k i Hk. destruct (f i) eqn:E; [done|]. by apply (every_entry_false f _ _ _ Hk) in E.
Qed.

(** What a successful [addInput] has checked and written. *)
Lemma addInput_Ok_inv prevTx index sequence prevOutScript b vout b' :
  addInput prevTx index sequence prevOutScript b = (Ok vout, b') ->
  exists h s,
    resolve_prevTx prevTx index prevOutScript = Ok (h, s) /\
    (forall s', s = Some s' -> classifyOutput s' <> nonstandard) /\
    every anyone_can_pay (txb_signatures b) = Ok true /\
    prevOutMap b !! prevOut_key h index = None /\
    vout = length (ins (tx b)) /\
    b' = mkBuilder (<[prevOut_key h index := true]> (prevOutMap b))
           (<[length (ins (tx b)) := s]> (prevOutScripts b))
           (<[length (ins (tx b)) := classifyOutput <$> s]> (prevOutTypes b))
           (txb_signatures b)
           (mkTransaction
              (ins (tx b) ++ [mkTxIn h index Script_EMPTY (default DEFAULT_SEQUENCE sequence)])
              (outs (tx b))).
Proof.
  unfold addInput. intros H.
  destruct (addInput_checks prevTx index prevOutScript b) as [[[[h0 s0] t0] key]|] eqn:Hc;
    [|discriminate].
  destruct (addInput_checks_cases prevTx index prevOutScript b)
    as [(e & _ & _ & Hc') | [(h & s & _ & _ & Hc') | (h & s & Hres & Hstd & Hc')]];
    rewrite Hc in Hc'; try discriminate.
  symmetry in Hc'. apply bind_Ok in Hc' as (ok & Hevery & Hc').
  apply bind_Ok in Hc' as (? & Hok & Hc'). apply bind_Ok in Hc' as (? & Hfresh & Hc').
  injection Hc' as <- <- <- <-.
  apply assert_Ok in Hok as ->. apply assert_Ok, negb_true_iff, bool_decide_eq_false in Hfresh.
  exists h, s. do 3 (split; [done|]).
  split; [by apply eq_None_not_Some|].
  cbn in H. by injection H as <- <-.
Qed.

(** X1.  [addInput] goes through when the reference resolves, the known
    locking script, if any, is not nonstandard, the metadata table has no
    [undefined] element and every entry has SIGHASH_ANYONECANPAY in its
    hash type, and the previous output is not in the registry.  It
    returns the number of inputs there were, appends one input with the
    empty script and the given or default sequence number, registers the
    previous output, caches the script and its kind at the new index, and
    leaves the outputs and the metadata as they are. *)
Theorem addInput_succeeds prevTx index sequence prevOutScript b h s :
  resolve_prevTx prevTx index prevOutScript = Ok (h, s) ->
  (forall s', s = Some s' -> classifyOutput s' <> nonstandard) ->
  (forall k, txb_signatures b !! k <> Some (Some None)) ->
  (forall k i, txb_signatures b !! k = Some (Some (Some i)) ->
     Z.land (hashType i) SIGHASH_ANYONECANPAY <> 0) ->
  prevOutMap b !! prevOut_key h index = None ->
  addInput prevTx index sequence prevOutScript b =
    (Ok (length (ins (tx b))),
     mkBuilder (<[prevOut_key h index := true]> (prevOutMap b))
       (<[length (ins (tx b)) := s]> (prevOutScripts b))
       (<[length (ins (tx b)) := classifyOutput <$> s]> (prevOutTypes b))
       (txb_signatures b)
       (mkTransaction
          (ins (tx b) ++ [mkTxIn h index Script_EMPTY (default DEFAULT_SEQUENCE sequence)])
          (outs (tx b)))).
Proof.
  intros Hres Hstd Hno Hacp Hfresh. unfold addInput.
  rewrite (addInput_checks_resolved _ _ _ _ _ _ Hres Hstd).
  rewrite (every_true anyone_can_pay _ Hno).
  2:{ intros k i Hk. destruct (anyone_can_pay i) eqn:E; [done|].
      apply anyone_can_pay_false in E. by destruct (Hacp k i Hk). }
  rewrite Hfresh. reflexivity.
Qed.

(** X2.  [addOutput] goes through when the metadata table has no
    [undefined] element and the low five bits of every entry's hash type
    are SIGHASH_SINGLE (so always on a builder without metadata).  It
    returns the number of outputs there were, appends the output and
    changes nothing else. *)
Theorem addOutput_succeeds scriptPubKey value b :
  (forall k, txb_signatures b !! k <> Some (Some None)) ->
  (forall k i, txb_signatures b !! k = Some (Some (Some i)) ->
     Z.land (hashType i) 31 = SIGHASH_SINGLE) ->
  addOutput scriptPubKey value b =
    (Ok (length (outs (tx b))),
     mkBuilder (prevOutMap b) (prevOutScripts b) (prevOutTypes b) (txb_signatures b)
       (mkTransaction (ins (tx b)) (outs (tx b) ++ [mkTxOut scriptPubKey value]))).
Proof.
  intros Hno Hsingle. unfold addOutput.
  rewrite (every_true sighash_single _ Hno); [reflexivity|].
  intros k i Hk. unfold sighash_single. apply Z.eqb_eq. by apply (Hsingle k).
Qed.

Lemma addOutput_Ok_inv scriptPubKey value b vout b' :
  addOutput scriptPubKey value b = (Ok vout, b') ->
  every sighash_single (txb_signatures b) = Ok true /\
  vout = length (outs (tx b)) /\
  b' = mkBuilder (prevOutMap b) (prevOutScripts b) (prevOutTypes b) (txb_signatures b)
         (mkTransaction (ins (tx b)) (outs (tx b) ++ [mkTxOut scriptPubKey value])).
Proof.
  unfold addOutput.
  destruct (every_cases sighash_single (txb_signatures b)) as [E | [E | E]];
    rewrite E; cbn; [|discriminate..].
  by intros [= <- <-].
Qed.

(** ** The registry and the skeleton over time *)

Lemma forEach_steps {A B}
    (f : A -> TransactionBuilder -> result B * TransactionBuilder) (l : list A) b b' :
  (forall a b0, step b0 (snd (f a b0))) ->
  forEach f l b = Ok b' -> rtc step b b'.
Proof.
  intros Hf. revert b. induction l as [|a l IH]; intros b; simpl.
  - intros [= <-]. apply rtc_refl.
  - destruct (f a b) as [[v|e] b1] eqn:E; [|discriminate].
    intros H. eapply rtc_l; [|by apply IH].
    specialize (Hf a b). by rewrite E in Hf.
Qed.

(** An imported builder is a builder made by [addInput] and [addOutput]
    from a new one, with the metadata table put in place of its empty
    one. *)
Lemma fromTransaction_steps transaction b :
  fromTransaction transaction = Ok b ->
  exists b2 sigs,
    rtc step new_TransactionBuilder b2 /\
    forEach (fun txOut => addOutput (out_script txOut) (out_value txOut))
      (outs transaction)
      (default new_TransactionBuilder
         (match forEach (fun txIn => addInput (PrevOutHash (in_hash txIn)) (in_index txIn)
                                       (Some (in_sequence txIn)) None)
                  (ins transaction) new_TransactionBuilder with
          | Ok b1 => Some b1
          | Err _ => None
          end)) = Ok b2 /\
    mapM import_signature (ins transaction) = Ok sigs /\
    b = mkBuilder (prevOutMap b2) (prevOutScripts b2) (prevOutTypes b2) (map Some sigs) (tx b2).
Proof.
  unfold fromTransaction. intros H.
  apply bind_Ok in H as (b1 & H1 & H). apply bind_Ok in H as (b2 & H2 & H).
  apply bind_Ok in H as (sigs & Hsigs & [= <-]).
  exists b2, sigs. rewrite H1. cbn [default]. split; [|done].
  etrans.
  - eapply forEach_steps; [|exact H1]. intros. apply step_addInput.
  - eapply forEach_steps; [|exact H2]. intros. apply step_addOutput.
Qed.

Lemma addOutput_frame scriptPubKey value b :
  prevOutMap (snd (addOutput scriptPubKey value b)) = prevOutMap b /\
  ins (tx (snd (addOutput scriptPubKey value b))) = ins (tx b) /\
  outs (tx b) `prefix_of` outs (tx (snd (addOutput scriptPubKey value b))).
Proof.
  destruct (addOutput scriptPubKey value b) as [[v|e] b'] eqn:E.
  - apply addOutput_Ok_inv in E as (_ & _ & ->). cbn. repeat split. by eexists.
  - unfold addOutput in E. destruct (bind _ _); [by destruct (Transaction_addOutput _ _ _)|].
    by injection E as _ <-.
Qed.

Lemma step_registry b b' :
  step b b' ->
  registry_matches b /\ NoDup (previous_output <$> ins (tx b)) ->
  registry_matches b' /\ NoDup (previous_output <$> ins (tx b')).
Proof.
  intros Hstep [Hreg Hnodup]. unfold registry_matches in *.
  destruct Hstep as [prevTx index sequence s b|s v b|index privKey rs ht b].
  - destruct (addInput prevTx index sequence s b) as [[vout|e] b'] eqn:E; cbn [snd].
    2:{ by apply addInput_Err in E as [-> _]. }
    apply addInput_Ok_inv in E as (h & s0 & _ & _ & _ & Hfresh & _ & ->).
    cbn [prevOutMap tx ins]. split.
    + intros key. rewrite lookup_insert_is_Some, Hreg. split.
      * intros [<- | [_ (txIn & Hin & ->)]].
        -- eexists. split; [apply elem_of_app; right; apply list_elem_of_here|done].
        -- exists txIn. split; [apply elem_of_app; by left | done].
      * intros (txIn & [Hin | Hin%list_elem_of_singleton]%elem_of_app & ->).
        -- destruct (decide (prevOut_key h index
                              = prevOut_key (in_hash txIn) (in_index txIn))); [by left|].
           right. split; [done|]. by exists txIn.
        -- subst txIn. by left.
    + rewrite fmap_app. apply NoDup_app. split; [done|]. split; [|apply NoDup_singleton].
      intros pair Hpair [=]%list_elem_of_singleton. subst pair.
      apply list_elem_of_fmap in Hpair as (txIn & [= Hh Hi] & Hin).
      assert (is_Some (prevOutMap b !! prevOut_key h index)) as [? Hsome].
      { apply Hreg. exists txIn. by rewrite Hh, Hi. }
      congruence.
  - destruct (addOutput_frame s v b) as (Hmap & Hins & _).
    split; [|by rewrite Hins].
    intros key. rewrite Hmap, Hins. apply Hreg.
  - destruct (sign_writes index privKey rs ht b) as [-> | (ps & pt & i' & -> & _)]; done.
Qed.

Lemma steps_registry b b' :
  rtc step b b' ->
  registry_matches b /\ NoDup (previous_output <$> ins (tx b)) ->
  registry_matches b' /\ NoDup (previous_output <$> ins (tx b')).
Proof. induction 1 as [|? ? ? Hstep _ IH]; [done|]. intros Hinv. eauto using step_registry. Qed.

Lemma new_registry :
  registry_matches new_TransactionBuilder /\
  NoDup (previous_output <$> ins (tx new_TransactionBuilder)).
Proof.
  split; [|apply NoDup_nil_2]. unfold registry_matches. intros key. cbn.
  rewrite lookup_empty. split.
  - by intros [? ?].
  - intros (txIn & Hin & _). inversion Hin.
Qed.

Lemma reachable_registry b :
  reachable b -> registry_matches b /\ NoDup (previous_output <$> ins (tx b)).
Proof.
  induction 1 as [|transaction b Himport|b b' _ IH Hstep].
  - apply new_registry.
  - apply fromTransaction_steps in Himport as (b2 & sigs & Hsteps & _ & _ & ->).
    apply (steps_registry _ _ Hsteps new_registry).
  - by eapply step_registry.
Qed.

(** X4.  In every builder a caller can hold, no two inputs spend the
    same previous output, and the registry test of line 145 finds a
    (hash, index) pair exactly when an input with that pair exists: a
    previous output is rejected as 'already an input' when it is one and
    only then. *)
Theorem registry_exact b :
  reachable b ->
  NoDup (previous_output <$> ins (tx b)) /\
  forall h i,
    is_Some (prevOutMap b !! prevOut_key h i) <-> (h, i) ∈ previous_output <$> ins (tx b).
Proof.
  intros [Hreg Hnodup]%reachable_registry. split; [done|].
  unfold registry_matches in Hreg. intros h i. rewrite Hreg. split.
  - intros (txIn & Hin & [-> ->]%prevOut_key_eq).
    apply list_elem_of_fmap. by exists txIn.
  - intros (txIn & [= -> ->] & Hin)%list_elem_of_fmap. by exists txIn.
Qed.

(** X5.  The mutating operations only append: in every later state the
    inputs and the outputs the builder had are still there, in the same
    positions and unchanged, and every registered previous output is
    still registered. *)
Theorem skeleton_grows b b' :
  rtc step b b' ->
  ins (tx b) `prefix_of` ins (tx b') /\
  outs (tx b) `prefix_of` outs (tx b') /\
  forall key, is_Some (prevOutMap b !! key) -> is_Some (prevOutMap b' !! key).
Proof.
  induction 1 as [b|b1 b2 b3 Hstep _ IH]; [done|].
  destruct IH as (Hins & Houts & Hmap).
  assert (ins (tx b1) `prefix_of` ins (tx b2) /\ outs (tx b1) `prefix_of` outs (tx b2) /\
          forall key, is_Some (prevOutMap b1 !! key) -> is_Some (prevOutMap b2 !! key))
    as (Hins' & Houts' & Hmap').
  { destruct Hstep as [prevTx index sequence s b|s v b|index privKey rs ht b].
    - destruct (addInput prevTx index sequence s b) as [[vout|e] b'] eqn:E; cbn [snd].
      2:{ by apply addInput_Err in E as [-> _]. }
      apply addInput_Ok_inv in E as (h & s0 & _ & _ & _ & _ & _ & ->).
      cbn [prevOutMap tx ins outs]. split; [by eexists|]. split; [done|].
      intros key Hkey. rewrite lookup_insert_is_Some. 
      destruct (decide (prevOut_key h index = key)); auto.
    - destruct (addOutput_frame s v b) as (-> & -> & Hprefix). done.
    - destruct (sign_writes index privKey rs ht b) as [-> | (ps & pt & i' & -> & _)]; done. }
  split; [by etrans|]. split; [by etrans | auto].
Qed.

(** X19.  The transaction a builder holds never carries a script: for
    every builder a caller can hold, each input of [this.tx] has the
    empty script.  Signatures live in the metadata table and reach a
    transaction only in the copy [build] returns. *)
Theorem own_transaction_unsigned b :
  reachable b ->
  Forall (fun txIn => in_script txIn = Script_EMPTY) (ins (tx b)).
Proof.
  assert (forall b1 b2, rtc step b1 b2 ->
            Forall (fun txIn => in_script txIn = Script_EMPTY) (ins (tx b1)) ->
            Forall (fun txIn => in_script txIn = Script_EMPTY) (ins (tx b2))) as Hsteps.
  { induction 1; [done|]. eauto using step_scripts_empty. }
  induction 1 as [|transaction b Himport|b b' _ IH Hstep].
  - constructor.
  - apply fromTransaction_steps in Himport as (b2 & sigs & Hrtc & _ & _ & ->).
    apply (Hsteps _ _ Hrtc). constructor.
  - by eapply step_scripts_empty.
Qed.

(** ** What build returns *)

Lemma setInputScript_Ok t index s t' :
  Transaction_setInputScript t index s = Ok t' ->
  exists x, ins t !! index = Some x /\
    t' = mkTransaction
           (<[index := mkTxIn (in_hash x) (in_index x) s (in_sequence x)]> (ins t)) (outs t).
Proof.
  unfold Transaction_setInputScript. destruct (ins t !! index) as [x|]; [|discriminate].
  intros [= <-]. eauto.
Qed.

Lemma build_scriptSig_kind allow i s :
  build_scriptSig allow i = Ok s ->
  scriptType i = pubkeyhash \/ scriptType i = pubkey \/ scriptType i = multisig.
Proof.
  unfold build_scriptSig. intros (sigs & _ & H)%bind_Ok.
  apply bind_Ok in H as (s0 & H & _). destruct (scriptType i); auto; discriminate.
Qed.

(** The loop of lines 182-219 from position [index] on. *)
Lemma build_forEach_Ok allow a :
  forall index t t',
    build_forEach allow a index t = Ok t' ->
    outs t' = outs t /\
    unsigned_copy <$> ins t' = unsigned_copy <$> ins t /\
    (forall k, (k < index)%nat \/ mjoin (array_get a (k - index)) = None ->
       ins t' !! k = ins t !! k) /\
    (forall j i, a !! j = Some (Some (Some i)) ->
       exists s x, build_scriptSig allow i = Ok s /\
         ins t !! (index + j)%nat = Some x /\
         ins t' !! (index + j)%nat
           = Some (mkTxIn (in_hash x) (in_index x) s (in_sequence x))) /\
    (forall j, a !! j <> Some (Some None)).
Proof.
  induction a as [|o a IH]; intros index t t' H.
  - injection H as <-. repeat split; try done.
  - destruct o as [[i|]|]; cbn [build_forEach deref bind] in H; [| discriminate |].
    + apply bind_Ok in H as (s & Hs & H). apply bind_Ok in H as (t1 & Ht1 & H).
      apply setInputScript_Ok in Ht1 as (x & Hx & ->).
      destruct (IH _ _ _ H) as (Houts & Hcopy & Hkeep & Hset & Hno).
      cbn [ins outs] in *.
      assert (index < length (ins t))%nat as Hlt by (by eapply lookup_lt_Some).
      split; [done|]. split; [|split; [|split]].
      * rewrite Hcopy, list_fmap_insert. apply list_insert_id.
        by rewrite list_lookup_fmap, Hx.
      * intros k Hk. destruct (decide (k = index)) as [->|Hne].
        { destruct Hk as [Hk | Hk]; [lia|]. rewrite Nat.sub_diag in Hk. discriminate. }
        rewrite Hkeep; [by rewrite list_lookup_insert_ne|].
        destruct Hk as [Hk | Hk]; [left; lia|].
        destruct (decide (k < index)%nat); [left; lia|]. right.
        replace (k - index)%nat with (S (k - S index)) in Hk by lia. exact Hk.
      * intros [|j] i0 Hj.
        -- injection Hj as <-. exists s, x. split; [done|].
           rewrite Nat.add_0_r. split; [done|].
           rewrite Hkeep by (left; lia). by rewrite list_lookup_insert_eq.
        -- destruct (Hset j i0 Hj) as (s0 & x0 & Hs0 & Hx0 & Hres).
           rewrite list_lookup_insert_ne in Hx0 by lia.
           exists s0, x0. replace (index + S j)%nat with (S index + j)%nat by lia. done.
      * intros [|j]; [discriminate | apply Hno].
    + destruct (IH _ _ _ H) as (Houts & Hcopy & Hkeep & Hset & Hno).
      split; [done|]. split; [done|]. split; [|split].
      * intros k Hk. apply Hkeep. destruct Hk as [Hk | Hk]; [left; lia|].
        destruct (decide (k < S index)%nat); [by left|]. right.
        replace (k - index)%nat with (S (k - S index)) in Hk by lia. exact Hk.
      * intros [|j] i0 Hj; [discriminate|].
        replace (index + S j)%nat with (S index + j)%nat by lia. by apply Hset.
      * intros [|j]; [discriminate | apply Hno].
Qed.

Lemma __build_Ok allowIncomplete b t :
  __build allowIncomplete b = Ok t ->
  build_forEach allowIncomplete (txb_signatures b) 0 (tx b) = Ok t /\
  (allowIncomplete = false ->
   ins (tx b) <> [] /\ outs (tx b) <> [] /\
   length (txb_signatures b) = length (ins (tx b))).
Proof.
  unfold __build, Transaction_clone. intros (? & Hchecks & H)%bind_Ok. split; [done|].
  intros ->. apply bind_Ok in Hchecks as (? & H1 & Hchecks).
  apply bind_Ok in Hchecks as (? & H2 & Hchecks).
  apply bind_Ok in Hchecks as (? & _ & H4).
  apply assert_Ok in H1, H2, H4. apply Nat.eqb_eq in H4.
  apply Nat.ltb_lt in H1, H2.
  split; [|split; [|done]].
  - destruct (ins (tx b)); [simpl in H1; lia | done].
  - destruct (outs (tx b)); [simpl in H2; lia | done].
Qed.

(** X13.  What [build] and [buildIncomplete] return when they return:
    a transaction with the outputs of the builder and with its inputs in
    the same order, same previous output and sequence number; an input
    that has metadata carries the script assembled from that metadata,
    and an input that has none is the builder's input as it is. *)
Theorem build_assembles allowIncomplete b t :
  __build allowIncomplete b = Ok t ->
  outs t = outs (tx b) /\
  unsigned_copy <$> ins t = unsigned_copy <$> ins (tx b) /\
  (forall k, signatures_at b k = None -> ins t !! k = ins (tx b) !! k) /\
  (forall k i, signatures_at b k = Some i ->
     exists s x, build_scriptSig allowIncomplete i = Ok s /\
       ins (tx b) !! k = Some x /\
       ins t !! k = Some (mkTxIn (in_hash x) (in_index x) s (in_sequence x))).
Proof.
  intros H0. apply __build_Ok in H0 as [H _].
  destruct (build_forEach_Ok _ _ _ _ _ H) as (Houts & Hcopy & Hkeep & Hset & _).
  split; [done|]. split; [done|]. split.
  - intros k Hk. apply Hkeep. right. by rewrite Nat.sub_0_r.
  - intros k i Hk%signatures_at_lookup. exact (Hset k i Hk).
Qed.

(** X14.  [build] and [buildIncomplete] return only if the metadata
    table has no [undefined] element and every metadata object belongs to
    an existing input and has the kind pubkeyhash, pubkey or multisig;
    [build] in addition only if there is an input, an output, and the
    table is as long as the list of inputs.  So a builder imported from
    a transaction with an unsigned input cannot be built, in either mode,
    before that input is signed. *)
Theorem build_returns_only_if allowIncomplete b t :
  __build allowIncomplete b = Ok t ->
  (forall k, txb_signatures b !! k <> Some (Some None)) /\
  (forall k i, signatures_at b k = Some i ->
     (k < length (ins (tx b)))%nat /\
     (scriptType i = pubkeyhash \/ scriptType i = pubkey \/ scriptType i = multisig)) /\
  (allowIncomplete = false ->
   ins (tx b) <> [] /\ outs (tx b) <> [] /\
   length (txb_signatures b) = length (ins (tx b))).
Proof.
  intros H0. apply __build_Ok in H0 as [H Hstrict].
  destruct (build_forEach_Ok _ _ _ _ _ H) as (_ & _ & _ & Hset & Hno).
  split; [done|]. split; [|done].
  intros k i Hk%signatures_at_lookup.
  destruct (Hset k i Hk) as (s & x & Hs & Hx & _). split.
  - by eapply lookup_lt_Some.
  - by eapply build_scriptSig_kind.
Qed.

Lemma build_scriptSig_mode (i : input) :
  (scriptType i = multisig -> redeemScript i = None) ->
  build_scriptSig false i = build_scriptSig true i.
Proof.
  intros Hi. unfold build_scriptSig. destruct (scriptType i); try reflexivity.
  by rewrite Hi.
Qed.

Lemma build_forEach_mode a :
  (forall j i, a !! j = Some (Some (Some i)) -> scriptType i = multisig ->
     redeemScript i = None) ->
  forall index t, build_forEach false a index t = build_forEach true a index t.
Proof.
  induction a as [|o a IH]; intros Ha index t; [reflexivity|].
  assert (forall index t, build_forEach false a index t = build_forEach true a index t)
    as IH' by (apply IH; intros j; apply (Ha (S j))).
  destruct o as [[i|]|]; cbn [build_forEach deref bind]; [| reflexivity | apply IH'].
  rewrite (build_scriptSig_mode i (Ha 0%nat i eq_refl)).
  destruct (build_scriptSig true i); cbn [bind]; [|reflexivity].
  destruct (Transaction_setInputScript t index a0); cbn [bind]; [apply IH' | reflexivity].
Qed.

(** X15.  The two modes differ only in the length checks and in whether
    the redeem script of a multisig input is handed to the multisig
    assembler: when the builder has an input and an output, the table is
    as long as the list of inputs, and no multisig metadata has a redeem
    script, [build] and [buildIncomplete] give the same result. *)
Theorem build_modes_agree b :
  ins (tx b) <> [] -> outs (tx b) <> [] ->
  length (txb_signatures b) = length (ins (tx b)) ->
  (forall k i, signatures_at b k = Some i -> scriptType i = multisig ->
     redeemScript i = None) ->
  build b = buildIncomplete b.
Proof.
  intros Hins Houts Hlen Hmulti. unfold build, buildIncomplete, __build.
  rewrite Hlen. destruct (ins (tx b)) as [|x l]; [done|].
  destruct (outs (tx b)) as [|y l']; [done|]. cbn [length Nat.ltb Nat.leb assert bind].
  rewrite Nat.eqb_refl. cbn [assert bind].
  apply build_forEach_mode. intros j i Hj. apply (Hmulti j). by apply signatures_at_lookup.
Qed.

(** ** What fromTransaction builds *)

Lemma import_signature_Ok txIn o :
  import_signature txIn = Ok o ->
  all_zero (in_hash txIn) = false /\
  (buffer (in_script txIn) = [] -> o = None) /\
  (buffer (in_script txIn) <> [] -> exists i, extractSignature txIn = Ok i /\ o = Some i).
Proof.
  unfold import_signature. intros (? & Hzero & H)%bind_Ok.
  apply assert_Ok, negb_true_iff in Hzero. split; [done|].
  destruct (buffer (in_script txIn)) as [|c l]; cbn in H.
  - injection H as <-. split; [done|]. by intros [].
  - split; [discriminate|]. intros _.
    apply bind_Ok in H as (i & Hi & [= <-]). eauto.
Qed.

Lemma import_signature_Ok_intro txIn :
  all_zero (in_hash txIn) = false ->
  (buffer (in_script txIn) = [] \/ exists i, extractSignature txIn = Ok i) ->
  exists o, import_signature txIn = Ok o.
Proof.
  intros Hzero Hscript. unfold import_signature. rewrite Hzero. cbn [negb assert bind].
  destruct (length (buffer (in_script txIn)) =? 0)%nat eqn:E; [eauto|].
  destruct Hscript as [Hempty | (i & Hi)].
  - rewrite Hempty in E. discriminate.
  - rewrite Hi. eauto.
Qed.

Lemma mapM_Ok_intro {A B} (f : A -> result B) (l : list A) :
  Forall (fun x => exists y, f x = Ok y) l -> exists ys, mapM f l = Ok ys.
Proof.
  induction 1 as [|x l [y Hy] _ [ys Hys]]; [by exists []|].
  exists (y :: ys). simpl. by rewrite Hy, Hys.
Qed.

Lemma mapM_Ok_length {A B} (f : A -> result B) (l : list A) (ys : list B) :
  mapM f l = Ok ys -> length ys = length l.
Proof.
  revert ys. induction l as [|a l IH]; intros ys; simpl.
  - by intros [= <-].
  - intros (b & _ & H)%bind_Ok. apply bind_Ok in H as (bs & Hbs & [= <-]).
    simpl. f_equal. by apply IH.
Qed.

(** The replay of the inputs on a builder without metadata. *)
Lemma forEach_addInput_Ok l :
  forall b b',
    txb_signatures b = [] ->
    forEach (fun txIn => addInput (PrevOutHash (in_hash txIn)) (in_index txIn)
                           (Some (in_sequence txIn)) None) l b = Ok b' ->
    txb_signatures b' = [] /\
    ins (tx b') = (ins (tx b) ++ (unsigned_copy <$> l))%list /\
    outs (tx b') = outs (tx b) /\
    ((forall k, prevOutScript_at b k = None /\ prevOutType_at b k = None) ->
     forall k, prevOutScript_at b' k = None /\ prevOutType_at b' k = None).
Proof.
  induction l as [|txIn l IH]; intros b b' Htable; simpl.
  - intros [= <-]. by rewrite app_nil_r.
  - destruct (addInput _ _ _ _ b) as [[vout|e] b1] eqn:E; [|discriminate].
    apply addInput_Ok_inv in E as (h & s & [= <- <-] & _ & _ & _ & _ & ->).
    intros H. apply IH in H as (Htable' & Hins & Houts & Hcache); [|done].
    cbn [tx ins outs] in *. split; [done|]. split; [by rewrite Hins, <- app_assoc|].
    split; [done|]. intros Hnone. apply Hcache. intros k.
    unfold prevOutScript_at, prevOutType_at. cbn [prevOutScripts prevOutTypes].
    destruct (decide (length (ins (tx b)) = k)) as [<-|Hne].
    + by rewrite !lookup_insert_eq.
    + rewrite !lookup_insert_ne by done. apply Hnone.
Qed.

(** The replay of the outputs on a builder without metadata never fails. *)
Lemma forEach_addOutput_Ok l :
  forall b,
    txb_signatures b = [] ->
    forEach (fun txOut => addOutput (out_script txOut) (out_value txOut)) l b
    = Ok (mkBuilder (prevOutMap b) (prevOutScripts b) (prevOutTypes b) []
            (mkTransaction (ins (tx b)) (outs (tx b) ++ l))).
Proof.
  induction l as [|txOut l IH]; intros b Htable; simpl.
  - rewrite app_nil_r, <- Htable. f_equal. by destruct b as [? ? ? ? []].
  - unfold addOutput at 1. rewrite Htable. cbn.
    rewrite IH by done. cbn. rewrite <- app_assoc. by destruct txOut.
Qed.

Lemma fromTransaction_parts transaction b :
  fromTransaction transaction = Ok b ->
  exists sigs,
    mapM import_signature (ins transaction) = Ok sigs /\
    txb_signatures b = map Some sigs /\
    tx b = mkTransaction (unsigned_copy <$> ins transaction) (outs transaction) /\
    forall k, prevOutScript_at b k = None /\ prevOutType_at b k = None.
Proof.
  unfold fromTransaction. intros H.
  apply bind_Ok in H as (b1 & H1 & H). apply bind_Ok in H as (b2 & H2 & H).
  apply bind_Ok in H as (sigs & Hsigs & [= <-]).
  apply forEach_addInput_Ok in H1 as (Htable & Hins & Houts & Hcache); [|done].
  rewrite forEach_addOutput_Ok in H2 by done. injection H2 as <-.
  exists sigs. cbn [txb_signatures tx]. do 2 (split; [done|]). split.
  - rewrite Hins, Houts. reflexivity.
  - apply Hcache. intros k. unfold prevOutScript_at, prevOutType_at. cbn.
    by rewrite !lookup_empty.
Qed.

(** X16.  The builder [fromTransaction] returns: its transaction has
    the inputs of the imported one in the same order, each with the
    empty script, and the same outputs; the metadata table is as long as
    the list of inputs, with [undefined] at an input whose script is
    empty and the result of [extractSignature] at every other input; no
    input has an all-zero hash; and no previous-output script or kind is
    cached, so a later [sign] has to be given what it needs. *)
Theorem fromTransaction_builder transaction b :
  fromTransaction transaction = Ok b ->
  tx b = mkTransaction (unsigned_copy <$> ins transaction) (outs transaction) /\
  length (txb_signatures b) = length (ins transaction) /\
  (forall k txIn,
     ins transaction !! k = Some txIn ->
     all_zero (in_hash txIn) = false /\
     (buffer (in_script txIn) = [] -> txb_signatures b !! k = Some (Some None)) /\
     (buffer (in_script txIn) <> [] ->
      exists i, extractSignature txIn = Ok i /\ signatures_at b k = Some i)) /\
  (forall k, prevOutScript_at b k = None /\ prevOutType_at b k = None).
Proof.
  intros (sigs & Hsigs & Htable & Htx & Hcache)%fromTransaction_parts.
  split; [done|]. split; [|split; [|done]].
  - rewrite Htable, length_map. by eapply mapM_Ok_length.
  - intros k txIn Hk.
    destruct (mapM_Ok_lookup _ _ _ Hsigs k txIn Hk) as (o & Ho & Hlookup).
    apply import_signature_Ok in Ho as (Hzero & Hempty & Hsigned).
    split; [done|]. split.
    + intros ->%Hempty. by rewrite Htable, list_lookup_fmap, Hlookup.
    + intros (i & Hi & ->)%Hsigned. exists i. split; [done|].
      apply signatures_at_lookup. by rewrite Htable, list_lookup_fmap, Hlookup.
Qed.

Lemma previous_output_unsigned_copy (l : list TxIn) :
  previous_output <$> (unsigned_copy <$> l) = previous_output <$> l.
Proof. rewrite <- list_fmap_compose. by apply list_fmap_ext. Qed.

Lemma forEach_addInput_succeeds l :
  forall b,
    txb_signatures b = [] ->
    registry_matches b ->
    NoDup ((previous_output <$> ins (tx b)) ++ (previous_output <$> l))%list ->
    exists b',
      forEach (fun txIn => addInput (PrevOutHash (in_hash txIn)) (in_index txIn)
                             (Some (in_sequence txIn)) None) l b = Ok b'.
Proof.
  induction l as [|txIn l IH]; intros b Htable Hreg Hnodup; simpl; [eauto|].
  assert (prevOutMap b !! prevOut_key (in_hash txIn) (in_index txIn) = None) as Hfresh.
  { apply eq_None_not_Some. intros (x & Hx & [Hh Hi]%prevOut_key_eq)%Hreg.
    apply NoDup_app in Hnodup as (_ & Hdisjoint & _).
    apply (Hdisjoint (previous_output txIn)).
    - apply list_elem_of_fmap. exists x. split; [|done].
      unfold previous_output. by rewrite Hh, Hi.
    - apply list_elem_of_here. }
  assert (addInput (PrevOutHash (in_hash txIn)) (in_index txIn) (Some (in_sequence txIn))
            None b
          = (Ok (length (ins (tx b))),
             mkBuilder (<[prevOut_key (in_hash txIn) (in_index txIn) := true]> (prevOutMap b))
               (<[length (ins (tx b)) := None]> (prevOutScripts b))
               (<[length (ins (tx b)) := None]> (prevOutTypes b))
               []
               (mkTransaction (ins (tx b) ++ [unsigned_copy txIn]) (outs (tx b)))))
    as Hadd.
  { unfold addInput, addInput_checks. cbn. rewrite Htable. cbn. by rewrite Hfresh. }
  pose proof (step_addInput (PrevOutHash (in_hash txIn)) (in_index txIn)
                (Some (in_sequence txIn)) None b) as Hstep.
  rewrite Hadd in *. cbn [snd] in Hstep.
  apply IH; [done| |].
  - apply (step_registry _ _ Hstep). split; [done|].
    by apply NoDup_app in Hnodup as (? & _).
  - cbn [tx ins]. rewrite fmap_app, <- app_assoc. exact Hnodup.
Qed.

(** X17.  [fromTransaction] succeeds exactly on the transactions whose
    inputs spend pairwise different previous outputs, none of them with
    an all-zero hash, and whose non-empty input scripts [extractSignature]
    accepts; the outputs never make it fail. *)
Theorem fromTransaction_succeeds_iff transaction :
  (exists b, fromTransaction transaction = Ok b) <->
  NoDup (previous_output <$> ins transaction) /\
  Forall (fun txIn =>
            all_zero (in_hash txIn) = false /\
            (buffer (in_script txIn) = [] \/ exists i, extractSignature txIn = Ok i))
    (ins transaction).
Proof.
  split.
  - intros [b Himport].
    pose proof (reachable_registry b (reachable_import _ _ Himport)) as [_ Hnodup].
    apply fromTransaction_parts in Himport as (sigs & Hsigs & _ & Htx & _).
    rewrite Htx in Hnodup. cbn [ins] in Hnodup.
    rewrite previous_output_unsigned_copy in Hnodup. split; [done|].
    apply Forall_forall. intros txIn Hin.
    destruct (mapM_Ok_each _ _ _ Hsigs txIn Hin) as (o & Ho).
    apply import_signature_Ok in Ho as (Hzero & _ & Hsigned). split; [done|].
    destruct (buffer (in_script txIn)) as [|x l] eqn:E; [by left|].
    right. destruct Hsigned as (i & Hi & _); [done | eauto].
  - intros [Hnodup Hall].
    destruct (forEach_addInput_succeeds (ins transaction) new_TransactionBuilder eq_refl
                (proj1 new_registry) Hnodup) as [b1 H1].
    destruct (mapM_Ok_intro import_signature (ins transaction)) as [sigs Hsigs].
    { eapply Forall_impl; [exact Hall|]. intros txIn [Hzero Hscript].
      by apply import_signature_Ok_intro. }
    unfold fromTransaction. rewrite H1. cbn [bind].
    apply forEach_addInput_Ok in H1 as (Htable & _); [|done].
    rewrite forEach_addOutput_Ok by done. cbn [bind]. rewrite Hsigs. cbn [bind]. eauto.
Qed.

(** ** What extractSignature returns *)

(** X18.  The metadata [extractSignature] returns: the hash of the
    input is not all zero; the kind is pubkeyhash, pubkey or multisig;
    there is at least one signature and the signature array has no hole;
    pubkeyhash and pubkey have exactly one signature and pubkeyhash
    exactly one public key.  Without the pay-to-script-hash wrapping
    there is no redeem script, the kind is the classified kind, and a
    pubkey or multisig input has no public key at all; with the wrapping
    there is a redeem script. *)
Theorem extractSignature_result txIn i :
  extractSignature txIn = Ok i ->
  all_zero (in_hash txIn) = false /\
  (scriptType i = pubkeyhash \/ scriptType i = pubkey \/ scriptType i = multisig) /\
  signatures i <> [] /\ Forall is_Some (signatures i) /\
  (scriptType i <> multisig -> length (signatures i) = 1%nat) /\
  (scriptType i = pubkeyhash -> length (pubKeys i) = 1%nat) /\
  (classifyInput (in_script txIn) <> scripthash ->
   redeemScript i = None /\ scriptType i = classifyInput (in_script txIn) /\
   (scriptType i <> pubkeyhash -> pubKeys i = [])) /\
  (classifyInput (in_script txIn) = scripthash -> exists rs, redeemScript i = Some rs).
Proof.
  unfold extractSignature. intros (? & Hzero & H)%bind_Ok.
  apply assert_Ok, negb_true_iff in Hzero. split; [exact Hzero|].
  apply bind_Ok in H as ([[rs sc] st] & Hr & H).
  assert ((classifyInput (in_script txIn) <> scripthash ->
           rs = None /\ st = classifyInput (in_script txIn)) /\
          (classifyInput (in_script txIn) = scripthash -> exists r, rs = Some r)) as [Hplain Hp2sh].
  { case_decide as Hkind.
    - apply bind_Ok in Hr as (r & _ & Hr). apply bind_Ok in Hr as (? & _ & [= <- _ _]).
      split; [done | eauto].
    - injection Hr as <- _ <-. split; [done | by intros ?]. }
  clear Hr. destruct st; try discriminate.
  - apply bind_Ok in H as (parsed & _ & H). apply bind_Ok in H as (k & _ & [= <-]).
    cbn. split; [auto|]. split; [done|]. split; [by repeat constructor|].
    do 2 (split; [done|]). split; [|done].
    intros [-> ->]%Hplain. done.
  - apply bind_Ok in H as (parsed & _ & H). apply bind_Ok in H as (keys & Hkeys & [= <-]).
    cbn. split; [auto|]. split; [done|]. split; [by repeat constructor|].
    do 2 (split; [done|]). split; [|done].
    intros [-> ->]%Hplain. by injection Hkeys as <-.
  - apply bind_Ok in H as (parsed & _ & H). apply bind_Ok in H as (p & Hp & H).
    apply bind_Ok in H as (keys & Hkeys & [= <-]).
    cbn. split; [auto|]. split; [|split; [|split; [done|split; [done|split; [|done]]]]].
    + destruct parsed; [discriminate | done].
    + apply Forall_fmap, Forall_forall. by eexists.
    + intros [-> ->]%Hplain. by injection Hkeys as <-.
Qed.

(** ** Import and build back *)

Lemma build_forEach_rebuild allow outputs l :
  forall sigs before,
    Forall2 (fun txIn o => exists i, o = Some i /\
               build_scriptSig allow i = Ok (in_script txIn)) l sigs ->
    build_forEach allow (map Some sigs) (length before)
      (mkTransaction (before ++ (unsigned_copy <$> l)) outputs)
    = Ok (mkTransaction (before ++ l) outputs).
Proof.
  induction l as [|x l IH]; intros sigs before Hall.
  - apply Forall2_nil_inv_l in Hall as ->. reflexivity.
  - apply Forall2_cons_inv_l in Hall as (o & sigs' & (i & -> & Hi) & Hall & ->).
    cbn [map build_forEach deref bind]. rewrite Hi. cbn [bind].
    unfold Transaction_setInputScript. cbn [ins outs fmap list_fmap].
    rewrite list_lookup_middle by reflexivity.
    cbn [deref bind unsigned_copy in_hash in_index in_sequence].
    rewrite insert_app_r_alt, Nat.sub_diag by reflexivity. cbn [insert list_insert].
    replace (mkTxIn (in_hash x) (in_index x) (in_script x) (in_sequence x)) with x
      by (by destruct x).
    specialize (IH sigs' (before ++ [x])%list Hall).
    rewrite length_app, Nat.add_1_r, <- !app_assoc in IH. exact IH.
Qed.

(** X20.  Import and build back.  A transaction is imported, every one
    of its inputs has a non-empty script, and the script assemblers give
    the script of each input back from the metadata extracted from it.
    Then [buildIncomplete] on the imported builder returns the
    transaction that was imported. *)
Theorem import_build_roundtrip transaction b :
  fromTransaction transaction = Ok b ->
  (forall txIn, txIn ∈ ins transaction ->
     buffer (in_script txIn) <> [] /\
     forall i, extractSignature txIn = Ok i ->
       build_scriptSig true i = Ok (in_script txIn)) ->
  buildIncomplete b = Ok transaction.
Proof.
  intros (sigs & Hsigs & Htable & Htx & _)%fromTransaction_parts Hall.
  unfold buildIncomplete, __build, Transaction_clone. cbn [bind].
  rewrite Htable, Htx.
  replace transaction with (mkTransaction ([] ++ ins transaction) (outs transaction)) at 3
    by (by destruct transaction).
  apply (build_forEach_rebuild true (outs transaction) (ins transaction) sigs []).
  clear Htable Htx. revert sigs Hsigs.
  induction (ins transaction) as [|x l IH]; intros sigs Hsigs.
  - injection Hsigs as <-. constructor.
  - cbn in Hsigs. apply bind_Ok in Hsigs as (o & Ho & Hsigs).
    apply bind_Ok in Hsigs as (sigs' & Hsigs' & [= <-]).
    destruct (Hall x (list_elem_of_here _ _)) as [Hsigned Hbuild].
    apply import_signature_Ok in Ho as (_ & _ & Hextract).
    destruct (Hextract Hsigned) as (i & Hi & ->).
    constructor; [eauto|].
    apply IH; [|done]. intros txIn Hin. apply Hall. by apply list_elem_of_further.
Qed.

(** ** Failing additions, the result of signing, unsigned imports *)

(** X21.  [addInput] and [addOutput] make all their checks before they
    write anything: a call that throws leaves the registry, the caches,
    the metadata table and the transaction as they were.  ([sign] does
    not: it stores the new metadata object before it looks for the
    key.) *)
Theorem add_failure_state prevTx index sequence prevOutScript scriptPubKey value b :
  (forall e, fst (addInput prevTx index sequence prevOutScript b) = Err e ->
     snd (addInput prevTx index sequence prevOutScript b) = b) /\
  (forall e, fst (addOutput scriptPubKey value b) = Err e ->
     snd (addOutput scriptPubKey value b) = b).
Proof.
  split; intros e.
  - destruct (addInput prevTx index sequence prevOutScript b) as [[vout|e'] b'] eqn:E;
      cbn [fst snd]; [discriminate|]. intros _. by apply addInput_Err in E as [-> _].
  - unfold addOutput. destruct (bind _ _); [|reflexivity].
    destruct (Transaction_addOutput _ _ _). discriminate.
Qed.

(** X22.  What a [sign] that returns has stored.  The metadata of the
    index has the hash type of the call ([SIGHASH_ALL] when none or 0 was
    given) and its redeem script, and holds the signature of the key over
    the digest of the transaction for that index, hash type and script
    (the redeem script when one is given, else the cached locking script,
    else the signer's own pay-to-pubkey-hash script), in the slot of the
    first public key that equals the key's. *)
Theorem sign_records index privKey rs ht b b' :
  sign index privKey rs ht b = (Ok tt, b') ->
  exists i slot pubKey hash,
    signatures_at b' index = Some i /\
    hashType i = hashType_or_ALL ht /\ redeemScript i = rs /\
    hashForSignature (tx b) index
      (default (default (address_toOutputScript (pub privKey)) (prevOutScript_at b index)) rs)
      (hashType_or_ALL ht) = Some hash /\
    pubKeys i !! slot = Some pubKey /\
    Q_equals (pub privKey) pubKey = true /\
    (forall j pubKey', (j < slot)%nat -> pubKeys i !! j = Some pubKey' ->
       Q_equals (pub privKey) pubKey' = false) /\
    array_get (signatures i) slot = Some (ECKey_sign privKey hash).
Proof.
  intros (_ & pos & pot & st & hash & i & slot & Hres & Hslot & _ & Hcase)%sign_Ok_inv.
  cbn zeta in Hcase.
  apply some_pubKey_Some in Hslot as (j & pubKey & -> & Hj & Hq & Hfirst).
  assert (hashForSignature (tx b) index
            (default (default (address_toOutputScript (pub privKey))
                        (prevOutScript_at b index)) rs)
            (hashType_or_ALL ht) = Some hash) as Hhash.
  { destruct rs as [r|]; cbn [default].
    - by apply sign_resolve_Some_inv in Hres as (_ & _ & _ & _ & _ & _ & ?).
    - unfold sign_resolve in Hres. apply bind_Ok in Hres as (? & _ & Hres).
      destruct (hashForSignature _ _ _ _) as [h|]; [|discriminate].
      by injection Hres as _ _ _ ->. }
  assert (hashType i = hashType_or_ALL ht /\ redeemScript i = rs /\
          txb_signatures b' !! index
            = Some (Some (Some (mkInput (hashType i) (pubKeys i) (redeemScript i)
                                  (scriptType i)
                                  (array_set (signatures i) (0 + j)
                                     (ECKey_sign privKey hash))))))
    as (Hht & Hrs & Htable).
  { destruct Hcase as [(_ & _ & Hht & Hrs & ->) | (_ & Hnew & ->)];
      cbn [txb_signatures].
    - by rewrite array_set_lookup_eq.
    - apply new_input_signatures in Hnew as (_ & Hht & Hrs & _).
      by rewrite array_set_lookup_eq. }
  eexists _, j, pubKey, hash. split; [by apply signatures_at_lookup|].
  cbn [hashType pubKeys redeemScript signatures].
  do 6 (split; [done|]). apply array_get_set_eq.
Qed.

(** X23.  A builder imported from a transaction that has an input with
    the empty script cannot be built as it is, neither by [build] nor by
    [buildIncomplete]: the loop of [__build] reads [scriptType] of the
    [undefined] element that the import left at that input. *)
Theorem import_unsigned_cannot_build transaction b txIn :
  fromTransaction transaction = Ok b ->
  txIn ∈ ins transaction ->
  buffer (in_script txIn) = [] ->
  forall allowIncomplete, exists e, __build allowIncomplete b = Err e.
Proof.
  intros (sigs & Hsigs & Htable & _)%fromTransaction_parts Hin Hempty allowIncomplete.
  destruct (__build allowIncomplete b) as [t|e] eqn:E; [|by exists e].
  apply __build_Ok in E as [E _].
  destruct (build_forEach_Ok _ _ _ _ _ E) as (_ & _ & _ & _ & Hno).
  apply list_elem_of_lookup in Hin as [k Hk].
  destruct (mapM_Ok_lookup _ _ _ Hsigs k txIn Hk) as (o & Ho & Hlookup).
  apply import_signature_Ok in Ho as (_ & Hnone & _). rewrite (Hnone Hempty) in Hlookup.
  destruct (Hno k). by rewrite Htable, list_lookup_fmap, Hlookup.
Qed.

End MoreFacts.

(** * The further properties on concrete transactions *)

Module MoreScenarios.
Import Fixture.
#[local] Existing Instance Fixture.collaborators.
Local Open Scope nat_scope.

(** How the sample builders come about. *)
Lemma b_one_input_steps : rtc step new_TransactionBuilder b_one_input.
Proof. apply rtc_once. apply step_addInput. Qed.

Lemma b_unsigned_steps : rtc step new_TransactionBuilder b_unsigned.
Proof. eapply rtc_r; [apply b_one_input_steps | apply step_addOutput]. Qed.

Lemma b_signed_steps : rtc step new_TransactionBuilder b_signed.
Proof. eapply rtc_r; [apply b_unsigned_steps | apply step_sign]. Qed.

Lemma b_two_inputs_steps : rtc step new_TransactionBuilder b_two_inputs.
Proof.
  eapply rtc_r; [eapply rtc_r; [apply b_one_input_steps | apply step_addInput]|].
  apply step_addOutput.
Qed.

Lemma b_p2sh_signed_by_1_2_steps : rtc step new_TransactionBuilder b_p2sh_signed_by_1_2.
Proof.
  eapply rtc_r; [|apply step_sign]. eapply rtc_r; [|apply step_sign].
  eapply rtc_r; [|apply step_addOutput]. apply rtc_once. apply step_addInput.
Qed.

Lemma steps_reachable b : rtc step new_TransactionBuilder b -> reachable b.
Proof.
  intros H. pattern b. revert b H. apply rtc_ind_r; [apply reachable_new|].
  intros b1 b2 _ Hstep IH. by eapply reachable_step.
Qed.

Lemma addInput_succeeds_witness :
  addInput (PrevOutHash hashB) 0 None (Some (p2pkh 2)) b_one_input
    = (Ok 1, snd (addInput (PrevOutHash hashB) 0 None (Some (p2pkh 2)) b_one_input)) /\
  map in_hash
      (ins (tx (snd (addInput (PrevOutHash hashB) 0 None (Some (p2pkh 2)) b_one_input))))
    = [hashA; hashB].
Proof.
  rewrite (addInput_succeeds (C := collaborators) (PrevOutHash hashB) 0 None
             (Some (p2pkh 2)) b_one_input hashB (Some (p2pkh 2)) eq_refl).
  - split; reflexivity.
  - intros s' [= <-]. discriminate.
  - intros [|k]; discriminate.
  - intros [|k] i; discriminate.
  - reflexivity.
Defined.

Lemma addOutput_succeeds_witness :
  fst (addOutput an_output 1000 b_one_input) = Ok 0 /\
  outs (tx (snd (addOutput an_output 1000 b_one_input))) = [mkTxOut an_output 1000].
Proof.
  rewrite (addOutput_succeeds (C := collaborators) an_output 1000%Z b_one_input).
  - split; reflexivity.
  - intros [|k]; discriminate.
  - intros [|k] i; discriminate.
Defined.

Lemma registry_exact_witness :
  NoDup (previous_output <$> ins (tx b_two_inputs)) /\
  (is_Some (prevOutMap b_two_inputs !! prevOut_key hashB 0) <->
   (hashB, 0) ∈ previous_output <$> ins (tx b_two_inputs)).
Proof.
  destruct (registry_exact (C := collaborators) b_two_inputs
              (steps_reachable _ b_two_inputs_steps)) as [Hnodup Hreg].
  split; [exact Hnodup | apply Hreg].
Defined.

Lemma skeleton_grows_witness :
  ins (tx b_one_input) `prefix_of` ins (tx b_two_inputs) /\
  outs (tx b_one_input) `prefix_of` outs (tx b_two_inputs).
Proof.
  assert (rtc step b_one_input b_two_inputs) as Hsteps.
  { eapply rtc_l; [apply step_addInput|]. apply rtc_once. apply step_addOutput. }
  destruct (skeleton_grows (C := collaborators) _ _ Hsteps) as (Hins & Houts & _).
  split; [exact Hins | exact Houts].
Defined.

Lemma signatures_persist_witness :
  exists i',
    signatures_at b_p2sh_signed_by_1_2 0 = Some i' /\
    array_get (signatures i') 0 = Some (ECKey_sign 1 (x00 :: x01 :: buffer redeem_2of3)).
Proof.
  destruct (signatures_persist (C := collaborators) b_p2sh_signed_by_1 b_p2sh_signed_by_1_2
              0 _ (rtc_once _ _
                   (step_sign (C := collaborators) 0 2 (Some redeem_2of3) None
                      b_p2sh_signed_by_1))
              eq_refl)
    as (i' & Hi' & _ & _ & _ & _ & Hslots).
  exists i'. split; [exact Hi'|]. apply Hslots. reflexivity.
Defined.

Lemma signatures_match_pubKeys_witness :
  exists i, signatures_at b_p2sh_signed_by_1_2 0 = Some i /\ well_signed i.
Proof.
  eexists. split; [reflexivity|].
  apply (signatures_match_pubKeys (C := collaborators) b_p2sh_signed_by_1_2 0 _
           b_p2sh_signed_by_1_2_steps eq_refl).
Defined.

Lemma sign_first_witness :
  fst (sign 0 1 None None b_unsigned) = Ok tt /\
  signatures_at (snd (sign 0 1 None None b_unsigned)) 0
    = Some (mkInput 1%Z [pub 1] None pubkeyhash
              [Some (ECKey_sign 1 (x00 :: x01 :: buffer (p2pkh 1)))]).
Proof.
  rewrite (sign_first (C := collaborators) 0 1 None b_unsigned
             (x00 :: x01 :: buffer (p2pkh 1))).
  - split; reflexivity.
  - simpl. lia.
  - reflexivity.
  - discriminate.
  - reflexivity.
  - reflexivity.
Defined.

(** Cosigner 2 signs first: slot 0 is a hole. *)
Lemma sign_first_multisig_witness :
  fst (sign 0 2 (Some redeem_2of3) None b_p2sh_unsigned) = Ok tt /\
  signatures_at (snd (sign 0 2 (Some redeem_2of3) None b_p2sh_unsigned)) 0
    = Some (mkInput 1%Z [pub 1; pub 2; pub 3] (Some redeem_2of3) multisig
              [None; Some (ECKey_sign 2 (x00 :: x01 :: buffer redeem_2of3))]).
Proof.
  rewrite (sign_first_multisig (C := collaborators) 0 2 redeem_2of3 None b_p2sh_unsigned
             (x00 :: x01 :: buffer redeem_2of3)
             [@pub collaborators 1; @pub collaborators 2; @pub collaborators 3] 1
             (@pub collaborators 2)).
  - split; reflexivity.
  - simpl. lia.
  - reflexivity.
  - right. reflexivity.
  - reflexivity.
  - reflexivity.
  - reflexivity.
  - reflexivity.
  - reflexivity.
  - intros [|j] k Hj Hk; [|lia]. change (Some (pub 1) = Some k) in Hk.
    by injection Hk as <-.
Defined.

Lemma sign_either_order_witness :
  snd (sign 0 1 (Some redeem_2of3) None
         (snd (sign 0 2 (Some redeem_2of3) None b_p2sh_unsigned)))
  = b_p2sh_signed_by_1_2.
Proof.
  destruct (sign_either_order (C := collaborators) 0 1 2 (Some redeem_2of3) None
              b_p2sh_unsigned b_p2sh_signed_by_1 b_p2sh_signed_by_1_2 eq_refl eq_refl)
    as (bB & HB & HA).
  assert (bB = snd (sign 0 2 (Some redeem_2of3) None b_p2sh_unsigned)) as <-
    by (by rewrite HB).
  by rewrite HA.
Defined.

Lemma sign_fully_signed_witness :
  exists e, sign 0 7 None (Some 3%Z) b_signed = (Err e, b_signed).
Proof.
  apply (sign_fully_signed (C := collaborators) 0 b_signed _ eq_refl).
  intros [|k] pubKey Hk; [|discriminate]. by eexists.
Defined.

Lemma build_assembles_witness :
  exists t, build b_signed = Ok t /\ outs t = outs (tx b_signed) /\
    unsigned_copy <$> ins t = unsigned_copy <$> ins (tx b_signed).
Proof.
  eexists. split; [reflexivity|].
  destruct (build_assembles (C := collaborators) false b_signed _ eq_refl)
    as (Houts & Hcopy & _).
  split; [exact Houts | exact Hcopy].
Defined.

Lemma build_returns_only_if_witness :
  exists i,
    signatures_at b_p2sh_signed_by_1 0 = Some i /\
    0 < length (ins (tx b_p2sh_signed_by_1)) /\
    (scriptType i = pubkeyhash \/ scriptType i = pubkey \/ scriptType i = multisig).
Proof.
  eexists. split; [reflexivity|].
  destruct (build_returns_only_if (C := collaborators) true b_p2sh_signed_by_1 _ eq_refl)
    as (_ & Hentries & _).
  exact (Hentries 0 _ eq_refl).
Defined.

Lemma build_modes_agree_witness : build b_signed = buildIncomplete b_signed.
Proof.
  apply (build_modes_agree (C := collaborators) b_signed).
  - discriminate.
  - discriminate.
  - reflexivity.
  - intros [|k] i Hk Hkind; [|discriminate].
    change (Some (mkInput 1%Z [pub 1] None pubkeyhash
                    [Some (ECKey_sign 1 (x00 :: x01 :: buffer (p2pkh 1)))]) = Some i) in Hk.
    injection Hk as <-. discriminate.
Defined.

Lemma fromTransaction_builder_witness :
  tx (imported (tx_half_signed 1))
    = mkTransaction (unsigned_copy <$> ins (tx_half_signed 1)) (outs (tx_half_signed 1)) /\
  length (txb_signatures (imported (tx_half_signed 1))) = 2.
Proof.
  destruct (fromTransaction_builder (C := collaborators) (tx_half_signed 1)
              (imported (tx_half_signed 1)) eq_refl) as (Htx & Hlen & _).
  split; [exact Htx | exact Hlen].
Defined.

Lemma extractSignature_result_witness :
  exists i,
    extractSignature (default coinbase_txIn (ins tx_p2sh_signed !! 0)) = Ok i /\
    Forall is_Some (signatures i) /\ exists rs, redeemScript i = Some rs.
Proof.
  eexists.
  match goal with
  | |- ?call = Ok ?i /\ _ => assert (Hreturns : call = Ok i) by reflexivity
  end.
  split; [exact Hreturns|].
  destruct (extractSignature_result (C := collaborators) _ _ Hreturns)
    as (_ & _ & _ & Hdense & _ & _ & _ & Hp2sh).
  split; [exact Hdense | apply Hp2sh; reflexivity].
Defined.

Lemma own_transaction_unsigned_witness :
  Forall (fun txIn => in_script txIn = Script_EMPTY) (ins (tx b_p2sh_signed_by_1_2)).
Proof.
  apply (own_transaction_unsigned (C := collaborators)).
  apply steps_reachable, b_p2sh_signed_by_1_2_steps.
Defined.

Lemma import_build_roundtrip_witness :
  buildIncomplete (imported tx_p2sh_signed) = Ok tx_p2sh_signed.
Proof.
  apply (import_build_roundtrip (C := collaborators) tx_p2sh_signed
           (imported tx_p2sh_signed) eq_refl).
  intros txIn Hin. apply list_elem_of_singleton in Hin as ->. split; [discriminate|].
  intros i Hi.
  match type of Hi with
  | extractSignature ?t = _ =>
      assert (exists i0, extractSignature t = Ok i0 /\
                build_scriptSig true i0 = Ok (in_script t)) as (i0 & Hi0 & Hbuild)
        by (eexists; split; reflexivity)
  end.
  rewrite Hi in Hi0. injection Hi0 as <-. exact Hbuild.
Defined.

Lemma add_failure_state_witness :
  snd (addInput (PrevOutHash hashB) 0 None None b_signed) = b_signed /\
  snd (addOutput an_output 5 b_signed) = b_signed.
Proof.
  destruct (add_failure_state (C := collaborators) (PrevOutHash hashB) 0 None None
              an_output 5%Z b_signed) as [Hinput Houtput].
  split; [eapply Hinput | eapply Houtput]; reflexivity.
Defined.

Lemma sign_records_witness :
  exists i slot,
    signatures_at b_p2sh_signed_by_1_2 0 = Some i /\
    pubKeys i !! slot = Some (pub 2) /\
    array_get (signatures i) slot
      = Some (ECKey_sign 2 (x00 :: x01 :: buffer redeem_2of3)).
Proof.
  destruct (sign_records (C := collaborators) 0 2 (Some redeem_2of3) None
              b_p2sh_signed_by_1 b_p2sh_signed_by_1_2 eq_refl)
    as (i & slot & pubKey & hash & Hi & _ & _ & Hhash & Hkey & Hq & _ & Hsig).
  exists i, slot. split; [exact Hi|].
  change (Some (x00 :: x01 :: buffer redeem_2of3) = Some hash) in Hhash.
  injection Hhash as <-.
  change (bool_decide (@pub collaborators 2 = pubKey) = true) in Hq.
  apply bool_decide_eq_true in Hq as <-.
  split; [exact Hkey | exact Hsig].
Defined.

Lemma import_unsigned_cannot_build_witness :
  exists e, buildIncomplete (imported (tx_half_signed 1)) = Err e.
Proof.
  apply (import_unsigned_cannot_build (C := collaborators) (tx_half_signed 1)
           (imported (tx_half_signed 1)) (mkTxIn hashB 0 Script_EMPTY DEFAULT_SEQUENCE)
           eq_refl).
  - apply list_elem_of_further, list_elem_of_here.
  - reflexivity.
Defined.

End MoreScenarios.
